(** * Repo-Analyzer web client: a shallow embedding of the client-side logic

    The development follows the TypeScript sources of the web application:
    - [Visualizer]    : app/(dashboard)/visualizer/page.tsx
                        ([getLanguageFromFile], [countNodes]);
    - [ReposPage]     : the repositories page ([deleteRepo]);
    - [ChatPage]      : the chat page ([loadRepositories] and the selector);
    - [ChatInterface] : components/chat/ChatInterface.tsx ([handleSubmit],
                        [MessageBubble], [MessageContent]).

    JavaScript strings are modelled by [string] (one [ascii] per code unit,
    so the text is taken to have code units below 256), JavaScript integers
    by [Z], arrays by lists, object literals used as dictionaries by
    [gmap]. *)

From Stdlib Require Import String Ascii List ZArith Lia Bool.
From Stdlib Require Import DecimalString.
From stdpp Require Import base gmap strings list.
From Equations Require Import Equations.
Import ListNotations.
Open Scope string_scope.
Open Scope list_scope.

(** ** String primitives of the JavaScript runtime *)

Module JsString.

(** [s.split(c)] for a one-character separator: never the empty list. *)
Fixpoint split (c : ascii) (s : string) : list string :=
  match s with
  | EmptyString => [EmptyString]
  | String a s' =>
      if Ascii.eqb a c then EmptyString :: split c s'
      else match split c s' with
           | [] => [String a EmptyString]
           | h :: t => String a h :: t
           end
  end.

(** [l.pop()] returns the last element ([None] for [undefined]); the
    array keeps the others. *)
Definition pop {A} (l : list A) : option A * list A :=
  (last l, removelast l).

(** The lower case of a code unit below 256: the capital letters are 65
    to 90 and, with an accent, 192 to 222 but for 215, the sign of
    multiplication. *)
Definition lower_ascii (a : ascii) : ascii :=
  let n := nat_of_ascii a in
  if ((65 <=? n)%nat && (n <=? 90)%nat)
     || ((192 <=? n)%nat && (n <=? 222)%nat && negb (n =? 215)%nat)
  then ascii_of_nat (n + 32) else a.

(** [s.toLowerCase()] *)
Fixpoint toLowerCase (s : string) : string :=
  match s with
  | EmptyString => EmptyString
  | String a s' => String (lower_ascii a) (toLowerCase s')
  end.

(** [s.startsWith(p)] *)
Definition startsWith (p s : string) : bool := String.prefix p s.

(** [s.slice(n)] for a non-negative [n]. *)
Fixpoint slice (n : nat) (s : string) : string :=
  match n, s with
  | O, _ => s
  | S n', String _ s' => slice n' s'
  | S _, EmptyString => EmptyString
  end.

(** A string is falsy exactly when it is empty. *)
Definition truthy (s : string) : bool :=
  match s with EmptyString => false | _ => true end.

(** [x || ''] for a string that may be [undefined]. *)
Definition or_empty (x : option string) : string :=
  match x with
  | Some s => if truthy s then s else EmptyString
  | None => EmptyString
  end.

(** White space and line ends, as [trim] removes them.  A character of
    the model is a code unit below 256; of those, the white space of the
    language is 9 to 13, 32 and 160 (the no-break space). *)
Definition is_space (a : ascii) : bool :=
  let n := nat_of_ascii a in
  ((9 <=? n)%nat && (n <=? 13)%nat) || (n =? 32)%nat || (n =? 160)%nat.

Fixpoint trimStart (s : string) : string :=
  match s with
  | String a s' => if is_space a then trimStart s' else s
  | EmptyString => s
  end.

Fixpoint trimEnd (s : string) : string :=
  match s with
  | EmptyString => EmptyString
  | String a s' =>
      match trimEnd s' with
      | EmptyString => if is_space a then EmptyString else String a EmptyString
      | t => String a t
      end
  end.

(** [s.trim()] *)
Definition trim (s : string) : string := trimEnd (trimStart s).

End JsString.

(** ** The folder-structure page *)

Module Visualizer.

(** *** Extension table *)

Definition extMap_entries : list (string * string) :=
  [ ("ts", "typescript"); ("tsx", "typescript");
    ("js", "javascript"); ("jsx", "javascript");
    ("py", "python"); ("rs", "rust"); ("go", "go"); ("java", "java");
    ("css", "css"); ("html", "html"); ("json", "json"); ("md", "markdown") ].

Definition extMap : gmap string string := list_to_map extMap_entries.

(** The language tags the table can answer, without repetition. *)
Definition languages : list string :=
  remove_dups (map snd (map_to_list extMap)).

(** [extMap] is an object literal: a property read that finds no own
    property goes on to [Object.prototype].  These are its members. *)
Definition object_prototype_members : list string :=
  [ "constructor"; "__defineGetter__"; "__defineSetter__";
    "hasOwnProperty"; "__lookupGetter__"; "__lookupSetter__";
    "isPrototypeOf"; "propertyIsEnumerable"; "toString"; "valueOf";
    "__proto__"; "toLocaleString" ].

(** What a property read on the table yields. *)
Inductive PropValue : Type :=
| Tag (tag : string)            (* a string, own property or literal *)
| Inherited (member : string).  (* a member of Object.prototype *)

(** [o[k]], [None] for [undefined]. *)
Definition literal_get (o : gmap string string) (k : string) : option PropValue :=
  match o !! k with
  | Some v => Some (Tag v)
  | None =>
      if bool_decide (k ∈ object_prototype_members)
      then Some (Inherited k) else None
  end.

(** Truthiness of a property value: the inherited members are functions
    or objects, a string is truthy unless empty. *)
Definition prop_truthy (v : PropValue) : bool :=
  match v with
  | Tag s => JsString.truthy s
  | Inherited _ => true
  end.

(** [filename.split('.').pop()?.toLowerCase()], [None] for [undefined]. *)
Definition extension (filename : string) : option string :=
  option_map JsString.toLowerCase
             (fst (JsString.pop (JsString.split "." filename))).

Definition getLanguageFromFile (filename : option string) : PropValue :=
  match filename with
  | None => Tag "text"
  | Some f =>
      if negb (JsString.truthy f) then Tag "text"
      else
        let ext := extension f in
        match literal_get extMap (JsString.or_empty ext) with
        | Some v => if prop_truthy v then v else Tag "text"
        | None => Tag "text"
        end
  end.

(** *** File tree *)

#[local] Unset Elimination Schemes.

Inductive TreeNode : Type := mkTreeNode {
  name : string;
  type : string;
  path : string;
  children : option (list TreeNode);
  size : option Z;
  language : option string
}.

Record Counts : Type := mkCounts { files : nat; folders : nat }.

Fixpoint countNodes (node : TreeNode) : Counts :=
  match node with
  | mkTreeNode _ ty _ cs _ _ =>
      if String.eqb ty "file" then mkCounts 1 0
      else
        match cs with
        | None => mkCounts 0 1
        | Some l =>
            fold_left
              (fun acc child =>
                 let counts := countNodes child in
                 mkCounts (files acc + files counts)
                          (folders acc + folders counts))
              l (mkCounts 0 1)
        end
  end.

(** The children of a node, none when the field is absent. *)
Definition child_list (node : TreeNode) : list TreeNode :=
  match children node with Some l => l | None => [] end.

(** Every node of the tree, root first. *)
Fixpoint nodes (node : TreeNode) : list TreeNode :=
  match node with
  | mkTreeNode _ _ _ cs _ _ =>
      node :: match cs with
              | None => []
              | Some l => flat_map nodes l
              end
  end.

Definition is_file (node : TreeNode) : bool := String.eqb (type node) "file".

Definition count_files (node : TreeNode) : nat :=
  length (List.filter is_file (nodes node)).

Definition count_not_files (node : TreeNode) : nat :=
  length (List.filter (fun n => negb (is_file n)) (nodes node)).

Definition childless (node : TreeNode) : bool :=
  match child_list node with [] => true | _ :: _ => false end.

(** No node of type 'file' has a child. *)
Definition files_are_leaves (node : TreeNode) : bool :=
  forallb (fun n => implb (is_file n) (childless n)) (nodes node).

End Visualizer.

(** ** The repositories page *)

Module ReposPage.

Record Repository : Type := mkRepository {
  id : Z;
  name : string;
  description : option string;
  url : option string;
  local_path : option string;
  status : string;
  indexed_files : Z;
  total_files : Z;
  languages : option (list (string * Z));
  created_at : string
}.

(** The part of the component state that [deleteRepo] reads or writes,
    and the texts it passes to [alert]. *)
Record State : Type := mkState {
  repos : list Repository;
  deletingId : option Z;
  alerts : list string
}.

(** How [reposApi.delete] and the reading of its body turn out. *)
Inductive DeleteResponse : Type :=
| Ok                              (* response.ok *)
| NotOk (detail : option string)  (* not ok; [data.detail] of the body *)
| NotOkUnreadable                 (* not ok, and reading the body throws *)
| Rejected.                       (* the request itself throws *)

(** [detail || 'Failed to delete repository'] *)
Definition detail_or_default (detail : option string) : string :=
  match detail with
  | Some d => if JsString.truthy d then d else "Failed to delete repository"
  | None => "Failed to delete repository"
  end.

(** [deleteRepo] runs in two parts, and the page can change between
    them.  The first part, up to the request: [confirmed] is the answer
    to the [confirm] dialog. *)
Definition deleteRepo_asked (confirmed : bool) (repoId : Z) (st : State) : State :=
  if negb confirmed then st
  else mkState (repos st) (Some repoId) (alerts st).

(** The second part, from the answer on, with [finally].  [repos] is a
    constant of the render in which the handler was made: [captured] is
    the list of that render, and [setRepos] is given a list computed from
    it, whatever the list of [st] is, the state the answer finds. *)
Definition deleteRepo_answered (response : DeleteResponse) (repoId : Z)
           (captured : list Repository) (st : State) : State :=
  let st2 :=
    match response with
    | Ok =>
        mkState (List.filter (fun r => negb (Z.eqb (id r) repoId)) captured)
                (deletingId st) (alerts st)
    | NotOk detail =>
        mkState (repos st) (deletingId st) (alerts st ++ [detail_or_default detail])
    | NotOkUnreadable | Rejected =>
        mkState (repos st) (deletingId st)
                (alerts st ++ ["Network error. Please try again."])
    end in
  mkState (repos st2) None (alerts st2).

(** [deleteRepo] with nothing between its two parts. *)
Definition deleteRepo (confirmed : bool) (response : DeleteResponse)
           (repoId : Z) (captured : list Repository) (st : State) : State :=
  if negb confirmed then st
  else deleteRepo_answered response repoId captured (deleteRepo_asked true repoId st).

(** The list [l] with exactly the entries of id [i] removed, the others
    kept as they are and in their order. *)
Inductive removed_id (i : Z) : list Repository -> list Repository -> Prop :=
| removed_nil : removed_id i [] []
| removed_drop r l l' :
    id r = i -> removed_id i l l' -> removed_id i (r :: l) l'
| removed_keep r l l' :
    id r <> i -> removed_id i l l' -> removed_id i (r :: l) (r :: l').

End ReposPage.

(** ** The chat page *)

Module ChatPage.

Record Repository : Type := mkRepository {
  id : Z;
  name : string;
  status : string
}.

Record State : Type := mkState {
  repos : list Repository;
  selectedRepo : option Repository
}.

(** [useState([])], [useState(null)] *)
Definition initial : State := mkState [] None.

(** How [reposApi.getAll] and the reading of its body turn out. *)
Inductive GetAllResponse : Type :=
| Ok (data : list Repository)
| NotOk
| Throws.

Definition is_ready (r : Repository) : bool := String.eqb (status r) "ready".

Definition loadRepositories (response : GetAllResponse) (st : State) : State :=
  match response with
  | Ok data =>
      let readyRepos := List.filter is_ready data in
      mkState readyRepos
              (match readyRepos with
               | r :: _ => Some r
               | [] => selectedRepo st
               end)
  | NotOk | Throws => st
  end.

(** The [onChange] handler of the selector; [value] is the number
    [Number(e.target.value)], [None] when that is NaN. *)
Definition onChange (value : option Z) (st : State) : State :=
  match value with
  | None => st
  | Some v =>
      match List.find (fun r => Z.eqb (id r) v) (repos st) with
      | Some repo => mkState (repos st) (Some repo)
      | None => st
      end
  end.

(** [n.toString()] for an integer. *)
Definition toString (n : Z) : string := NilZero.string_of_int (Z.to_int n).

(** The props of the mounted [ChatInterface]. *)
Record ChatInterfaceProps : Type := mkProps {
  repoId : string;
  repoName : string
}.

(** The repositories the selector lists. *)
Definition offered (st : State) : list Repository := repos st.

(** What the page mounts: nothing but a notice when no repository is
    listed, else the chat for the selected repository, if any. *)
Definition render (st : State) : option ChatInterfaceProps :=
  match repos st with
  | [] => None
  | _ :: _ =>
      match selectedRepo st with
      | Some r => Some (mkProps (toString (id r)) (name r))
      | None => None
      end
  end.

End ChatPage.

(** ** JavaScript values, as [JSON.parse] returns them *)

Module Js.

(** What can be thrown. *)
Inductive Exn : Type :=
| SyntaxError
| TypeError
| Error (message : string).

(** The result of evaluating a block: a value, or an exception. *)
Inductive Completion (A : Type) : Type :=
| Normal (a : A)
| Throw (e : Exn).
Arguments Normal {A} a.
Arguments Throw {A} e.

#[local] Unset Elimination Schemes.

(** A number is carried as the text [ToString] gives for it: the code
    observes numbers in no other way. *)
Inductive Value : Type :=
| VUndefined
| VNull
| VBool (b : bool)
| VNumber (shown : string)
| VString (s : string)
| VArray (items : list Value)
| VObject (fields : list (string * Value)).

Definition bind {A B} (c : Completion A) (k : A -> Completion B) : Completion B :=
  match c with
  | Normal a => k a
  | Throw e => Throw e
  end.

Definition truthy (v : Value) : bool :=
  match v with
  | VUndefined | VNull => false
  | VBool b => b
  | VNumber shown => negb (String.eqb shown "0" || String.eqb shown "NaN")
  | VString s => JsString.truthy s
  | VArray _ | VObject _ => true
  end.

Fixpoint assoc (p : string) (fields : list (string * Value)) : option Value :=
  match fields with
  | [] => None
  | (k, v) :: rest => if String.eqb k p then Some v else assoc p rest
  end.

(** The text that [ToString] gives for a value it can convert. *)
Fixpoint text (v : Value) : string :=
  match v with
  | VUndefined => "undefined"
  | VNull => "null"
  | VBool true => "true"
  | VBool false => "false"
  | VNumber shown => shown
  | VString s => s
  | VArray items =>
      String.concat ","
        (map (fun e => match e with
                       | VUndefined | VNull => EmptyString
                       | _ => text e
                       end) items)
  | VObject _ => "[object Object]"
  end.

(** Whether [ToString] completes.  The values are those [JSON.parse]
    gives, so no property of theirs is a function.  An object is
    converted by its [toString] method and then its [valueOf] method: the
    inherited [toString] answers, unless the object has an own property of
    that name; then neither method gives a primitive and the conversion
    throws a TypeError.  An array converts its items, but for [null] and
    [undefined], and throws when one of them does. *)
Fixpoint converts (v : Value) : bool :=
  match v with
  | VObject fields =>
      match assoc "toString" fields with
      | Some _ => false
      | None => true
      end
  | VArray items =>
      forallb (fun e => match e with
                        | VUndefined | VNull => true
                        | _ => converts e
                        end) items
  | _ => true
  end.

(** [ToString], as string concatenation, [new Error] and
    [localStorage.setItem] apply it. *)
Definition toString (v : Value) : Completion string :=
  if converts v then Normal (text v) else Throw TypeError.

(** [v.p], for the property names the client reads (type, content,
    citation, risk, file, lines, level, description, detail,
    access_token, refresh_token): none of them is defined by a prototype,
    so only an object's own fields answer. *)
Definition get (v : Value) (p : string) : Completion Value :=
  match v with
  | VUndefined | VNull => Throw TypeError
  | VObject fields =>
      Normal (match assoc p fields with Some x => x | None => VUndefined end)
  | VBool _ | VNumber _ | VString _ | VArray _ => Normal VUndefined
  end.

(** [null] or [undefined] *)
Definition nullish (v : Value) : bool :=
  match v with
  | VUndefined | VNull => true
  | _ => false
  end.

(** [v === 'literal'] *)
Definition is_string (v : Value) (literal : string) : bool :=
  match v with
  | VString s => String.eqb s literal
  | _ => false
  end.

(** [new Error(v)]: the message is the text of [v], empty when [v] is
    [undefined]. *)
Definition new_Error (v : Value) : Completion Exn :=
  match v with
  | VUndefined => Normal (Error EmptyString)
  | _ => bind (toString v) (fun message => Normal (Error message))
  end.

End Js.

Notation "'let!' x ':=' c 'in' k" := (Js.bind c (fun x => k))
  (at level 10, x name, c at level 100, k at level 200).

(** ** A reader for a subset of JSON

    It stands for [JSON.parse] in the examples: objects, arrays, strings
    with the one-letter escapes, [true], [false], [null] and unsigned
    integers of at most fifteen digits.  On these texts it returns what
    [JSON.parse] returns; other texts are outside the subset and are
    answered [None]. *)

Module Json.
Import Js.

Definition quote : ascii := "034"%char.
Definition backslash : ascii := "\"%char.

Definition is_ws (a : ascii) : bool :=
  let n := nat_of_ascii a in
  (n =? 32)%nat || (n =? 9)%nat || (n =? 10)%nat || (n =? 13)%nat.

Fixpoint skip_ws (s : string) : string :=
  match s with
  | String a s' => if is_ws a then skip_ws s' else s
  | EmptyString => s
  end.

(** After white space, the character [c] and then the rest. *)
Definition eat (c : ascii) (s : string) : option string :=
  match skip_ws s with
  | String a r => if Ascii.eqb a c then Some r else None
  | EmptyString => None
  end.

Definition unescape (a : ascii) : option ascii :=
  if Ascii.eqb a quote then Some quote
  else if Ascii.eqb a backslash then Some backslash
  else if Ascii.eqb a "/" then Some "/"%char
  else if Ascii.eqb a "n" then Some "010"%char
  else if Ascii.eqb a "t" then Some "009"%char
  else if Ascii.eqb a "r" then Some "013"%char
  else if Ascii.eqb a "b" then Some "008"%char
  else if Ascii.eqb a "f" then Some "012"%char
  else None.

(** The characters of a string literal, after its opening quote. *)
Fixpoint string_body (s : string) : option (string * string) :=
  match s with
  | EmptyString => None
  | String a s' =>
      if Ascii.eqb a quote then Some (EmptyString, s')
      else if Ascii.eqb a backslash then
        match s' with
        | String b s'' =>
            match unescape b, string_body s'' with
            | Some c, Some (t, r) => Some (String c t, r)
            | _, _ => None
            end
        | EmptyString => None
        end
      else if (nat_of_ascii a <? 32)%nat then None
      else match string_body s' with
           | Some (t, r) => Some (String a t, r)
           | None => None
           end
  end.

Definition is_digit (a : ascii) : bool :=
  let n := nat_of_ascii a in (48 <=? n)%nat && (n <=? 57)%nat.

Fixpoint digits (s : string) : string * string :=
  match s with
  | String a s' =>
      if is_digit a then let (d, r) := digits s' in (String a d, r)
      else (EmptyString, s)
  | EmptyString => (EmptyString, s)
  end.

Definition number (s : string) : option (Value * string) :=
  let (d, r) := digits s in
  match d with
  | EmptyString => None
  | String a d' =>
      if Ascii.eqb a "0" && JsString.truthy d' then None
      else if (15 <? String.length d)%nat then None
      else Some (VNumber d, r)
  end.

(** [fields[k] = v] on an object under construction. *)
Fixpoint set_field (k : string) (v : Value) (fields : list (string * Value))
  : list (string * Value) :=
  match fields with
  | [] => [(k, v)]
  | (k', v') :: rest =>
      if String.eqb k' k then (k', v) :: rest
      else (k', v') :: set_field k v rest
  end.

(** The members of an object, after its opening brace or a comma. *)
Fixpoint members (value : string -> option (Value * string)) (fuel : nat)
         (acc : list (string * Value)) (s : string) : option (Value * string) :=
  match fuel with
  | O => None
  | S fuel' =>
      match eat quote s with
      | None => None
      | Some s1 =>
          match string_body s1 with
          | None => None
          | Some (k, s2) =>
              match eat ":" s2 with
              | None => None
              | Some s3 =>
                  match value s3 with
                  | None => None
                  | Some (v, s4) =>
                      match eat "," s4, eat "}" s4 with
                      | Some s5, _ => members value fuel' (set_field k v acc) s5
                      | None, Some s5 => Some (VObject (set_field k v acc), s5)
                      | None, None => None
                      end
                  end
              end
          end
      end
  end.

(** The elements of an array, after its opening bracket or a comma. *)
Fixpoint elements (value : string -> option (Value * string)) (fuel : nat)
         (acc : list Value) (s : string) : option (Value * string) :=
  match fuel with
  | O => None
  | S fuel' =>
      match value s with
      | None => None
      | Some (v, s1) =>
          match eat "," s1, eat "]" s1 with
          | Some s2, _ => elements value fuel' (acc ++ [v]) s2
          | None, Some s2 => Some (VArray (acc ++ [v]), s2)
          | None, None => None
          end
      end
  end.

Definition keyword (word : string) (v : Value) (s : string) : option (Value * string) :=
  if String.prefix word s then Some (v, JsString.slice (String.length word) s)
  else None.

Fixpoint value (fuel : nat) (s : string) : option (Value * string) :=
  match fuel with
  | O => None
  | S fuel' =>
      match eat "{" s, eat "[" s, eat quote s with
      | Some r, _, _ =>
          match eat "}" r with
          | Some r' => Some (VObject [], r')
          | None => members (value fuel') (String.length r) [] r
          end
      | None, Some r, _ =>
          match eat "]" r with
          | Some r' => Some (VArray [], r')
          | None => elements (value fuel') (String.length r) [] r
          end
      | None, None, Some r =>
          match string_body r with
          | Some (t, r') => Some (VString t, r')
          | None => None
          end
      | None, None, None =>
          let s' := skip_ws s in
          match keyword "true" (VBool true) s', keyword "false" (VBool false) s',
                keyword "null" VNull s' with
          | Some x, _, _ | None, Some x, _ | None, None, Some x => Some x
          | None, None, None => number s'
          end
      end
  end.

(** The whole text must be one value. *)
Definition parse (s : string) : option Value :=
  match value (S (String.length s)) s with
  | Some (v, r) =>
      match skip_ws r with
      | EmptyString => Some v
      | String _ _ => None
      end
  | None => None
  end.

(** The text [s] with every apostrophe replaced by a double quote: the
    way JSON texts are written down in the examples. *)
Fixpoint text (s : string) : string :=
  match s with
  | EmptyString => EmptyString
  | String a s' => String (if Ascii.eqb a "'" then quote else a) (text s')
  end.

End Json.

(** ** The chat component *)

Module ChatInterface.
Import Js.

(** *** Messages and the store they live in

    Messages are objects and citation lists are arrays: both are shared
    by reference between the local variable [assistantMessage] and the
    component state, so they live in a store and are named by their
    place in it. *)

Abbreviation loc := nat.

Inductive Role : Type := user | assistant.

(** The interface [Message]; [id] and [timestamp] are read from the clock
    and are left out. *)
Record Message : Type := mkMessage {
  role : Role;
  content : string;
  citations : option loc;   (* the array, when the field is present *)
  risk : Value              (* [VUndefined] when the field is absent *)
}.

Record Heap : Type := mkHeap {
  objects : list Message;
  arrays : list (list Value)
}.

Definition new_object (m : Message) (h : Heap) : loc * Heap :=
  (length (objects h), mkHeap (objects h ++ [m]) (arrays h)).

Definition new_array (h : Heap) : loc * Heap :=
  (length (arrays h), mkHeap (objects h) (arrays h ++ [[]])).

(** An assignment to fields of the object at [l]. *)
Definition modify (l : loc) (f : Message -> Message) (h : Heap) : Heap :=
  mkHeap (alter f l (objects h)) (arrays h).

(** [array.push(v)] *)
Definition push (l : loc) (v : Value) (h : Heap) : Heap :=
  mkHeap (objects h) (alter (fun items => items ++ [v]) l (arrays h)).

Inductive LogEntry : Type :=
| ErrorParsingChunk (e : Exn)   (* console.error('Error parsing chunk:', e) *)
| ChatError (e : Exn).          (* console.error('Chat error:', error) *)

(** The component state, the store, and what was written to the console. *)
Record State : Type := mkState {
  messages : list loc;
  input : string;
  isLoading : bool;
  heap : Heap;
  console_error : list LogEntry
}.

Definition set_heap (h : Heap) (st : State) : State :=
  mkState (messages st) (input st) (isLoading st) h (console_error st).

(** [setMessages(prev => f(prev))].  The update is applied as it is
    issued: what React does for an update that finds no other pending, as
    when each read of the stream is handled after the page has rendered
    the one before.  An update that finds another pending is run at the
    next render instead, and a copy [{...assistantMessage}] made then
    holds what the events handled in between have assigned; the text of
    the last copy is the same either way. *)
Definition setMessages (f : list loc -> list loc) (st : State) : State :=
  mkState (f (messages st)) (input st) (isLoading st) (heap st) (console_error st).

Definition log (entry : LogEntry) (st : State) : State :=
  mkState (messages st) (input st) (isLoading st) (heap st)
          (console_error st ++ [entry]).

Definition with_content (text : string) (m : Message) : Message :=
  mkMessage (role m) text (citations m) (risk m).

Definition with_citations (l : loc) (m : Message) : Message :=
  mkMessage (role m) (content m) (Some l) (risk m).

Definition with_risk (v : Value) (m : Message) : Message :=
  mkMessage (role m) (content m) (citations m) v.

(** *** The stream loop of [handleSubmit] *)

Section Stream.

(** [JSON.parse], [None] when it throws a [SyntaxError]. *)
Variable JSON_parse : string -> option Value.

(** The assignment and the update of the content branch, for the text
    that is appended: the last entry of the list becomes a fresh copy
    [{...assistantMessage}]. *)
Definition content_appended (a : loc) (appended : string) (st : State) : State :=
  let h1 := modify a (fun m => with_content (content m +:+ appended) m) (heap st) in
  match objects h1 !! a with
  | Some m =>
      let (copy, h2) := new_object m h1 in
      setMessages (fun prev => <[length prev - 1 := copy]> prev) (set_heap h2 st)
  | None => set_heap h1 st
  end.

(** [assistantMessage.content += delta; setMessages(prev => ...)].  The
    [+=] converts [delta] to text first, and throws when it cannot. *)
Definition on_content (a : loc) (delta : Value) (st : State) : Completion State :=
  let! appended := toString delta in
  Normal (content_appended a appended st).

(** [if (!assistantMessage.citations) assistantMessage.citations = [];
    assistantMessage.citations.push(citation)] *)
Definition on_citation (a : loc) (citation : Value) (st : State) : State :=
  match objects (heap st) !! a with
  | Some m =>
      match citations m with
      | Some l => set_heap (push l citation (heap st)) st
      | None =>
          let (l, h1) := new_array (heap st) in
          set_heap (push l citation (modify a (with_citations l) h1)) st
      end
  | None => st
  end.

(** [assistantMessage.risk = risk] *)
Definition on_risk (a : loc) (verdict : Value) (st : State) : State :=
  set_heap (modify a (with_risk verdict) (heap st)) st.

(** The body of the inner [try], for the payload [data] of a line. *)
Definition handle_data (a : loc) (data : string) (st : State) : Completion State :=
  let! chunk := match JSON_parse data with
                | Some v => Normal v
                | None => Throw SyntaxError
                end in
  let! type := get chunk "type" in
  if is_string type "content" then
    let! delta := get chunk "content" in
    on_content a delta st
  else if is_string type "citation" then
    let! citation := get chunk "citation" in
    Normal (on_citation a citation st)
  else if is_string type "risk" then
    let! verdict := get chunk "risk" in
    Normal (on_risk a verdict st)
  else if is_string type "error" then
    let! message := get chunk "content" in
    let! e := new_Error message in
    Throw e
  else Normal st.

(** The inner [try ... catch (e) { console.error(...) }]. *)
Definition try_data (a : loc) (data : string) (st : State) : State :=
  match handle_data a data st with
  | Normal st' => st'
  | Throw e => log (ErrorParsingChunk e) st
  end.

(** [for (const line of lines) { ... }], with its [break]. *)
Fixpoint for_lines (a : loc) (lines : list string) (st : State) : State :=
  match lines with
  | [] => st
  | line :: rest =>
      if JsString.startsWith "data: " line then
        let data := JsString.slice 6 line in
        if String.eqb data "[DONE]" then st
        else for_lines a rest (try_data a data st)
      else for_lines a rest st
  end.

(** [while (true) { ... }] over the decoded texts that [reader.read()]
    delivers before it reports the end; returns the final [buffer]. *)
Fixpoint read_loop (a : loc) (reads : list string) (buffer : string)
         (st : State) : State * string :=
  match reads with
  | [] => (st, buffer)
  | value :: later =>
      let buffer1 := buffer +:+ value in
      let (last_line, lines) := JsString.pop (JsString.split "010" buffer1) in
      let buffer2 := JsString.or_empty last_line in
      read_loop a later buffer2 (for_lines a lines st)
  end.

(** How the stream ends: [reader.read()] reports [done], or rejects. *)
Inductive StreamEnd : Type :=
| Done
| ReadFails (e : Exn).

(** What [chatApi.stream] resolves to. *)
Inductive Fetch : Type :=
| FetchRejects (e : Exn)
| Response (ok : bool) (body : option (list string * StreamEnd)).

(** The outer [try] block: the state it reaches, and the exception
    that ended it, if any. *)
Definition try_block (fetch : Fetch) (st : State) : State * option Exn :=
  match fetch with
  | FetchRejects e => (st, Some e)
  | Response ok body =>
      if negb ok then (st, Some (Error "Failed to get response"))
      else
        match body with
        | None => (st, Some (Error "No response body"))
        | Some (reads, ending) =>
            let (a, h1) := new_object (mkMessage assistant EmptyString None VUndefined)
                                      (heap st) in
            let st1 := setMessages (fun prev => prev ++ [a]) (set_heap h1 st) in
            let (st2, _) := read_loop a reads EmptyString st1 in
            match ending with
            | Done => (st2, None)
            | ReadFails e => (st2, Some e)
            end
        end
  end.

Definition errorMessage : Message :=
  mkMessage assistant
    "Sorry, I encountered an error processing your request. Please try again."
    None VUndefined.

(** [handleSubmit], given what the request resolves to.  The request
    itself (the question and the repository id) is not part of the
    state. *)
Definition handleSubmit (fetch : Fetch) (st : State) : State :=
  if negb (JsString.truthy (JsString.trim (input st))) || isLoading st then st
  else
    let (u, h1) := new_object (mkMessage user (input st) None VUndefined) (heap st) in
    let st1 := mkState (messages st ++ [u]) EmptyString true h1 (console_error st) in
    let st2 :=
      match try_block fetch st1 with
      | (s, None) => s
      | (s, Some e) =>
          let (x, h2) := new_object errorMessage (heap s) in
          setMessages (fun prev => prev ++ [x]) (set_heap h2 (log (ChatError e) s))
      end in
    mkState (messages st2) (input st2) false (heap st2) (console_error st2).

End Stream.

(** *** Rendering *)

Definition fence : string := "```".

(** The first code fence in [s]: the text before it and the text after it. *)
Fixpoint find_fence (s : string) : option (string * string) :=
  match s with
  | EmptyString => None
  | String a s' =>
      if String.prefix fence s then Some (EmptyString, JsString.slice 3 s)
      else match find_fence s' with
           | Some (before, after) => Some (String a before, after)
           | None => None
           end
  end.

(** A match of [/```[\s\S]*?```/] at the start of [s]: the matched text
    (the lazy body stops at the first closing fence) and the rest. *)
Definition match_fence (s : string) : option (string * string) :=
  if String.prefix fence s then
    match find_fence (JsString.slice 3 s) with
    | Some (body, rest) => Some (fence +:+ body +:+ fence, rest)
    | None => None
    end
  else None.

Definition inspect {A} (a : A) : {b | a = b} := exist _ a eq_refl.

Lemma prefix_length (p s : string) :
  String.prefix p s = true -> String.length p <= String.length s.
Proof.
  revert s. induction p as [|a p IH]; intros [|b s]; simpl; try lia; try discriminate.
  destruct (Ascii.ascii_dec a b); [|discriminate].
  intros H. apply IH in H. lia.
Qed.

Lemma slice_length (n : nat) (s : string) :
  String.length (JsString.slice n s) = String.length s - n.
Proof.
  revert s. induction n as [|n IH]; intros [|a s]; simpl; try lia. apply IH.
Qed.

Lemma find_fence_length (s before after : string) :
  find_fence s = Some (before, after) ->
  String.length s = String.length before + 3 + String.length after.
Proof.
  revert before after. induction s as [|a s IH]; intros before after; [discriminate|].
  cbn [find_fence]. destruct (String.prefix fence (String a s)) eqn:E.
  - intros [= <- <-]. apply prefix_length in E.
    pose proof (slice_length 3 (String a s)) as L. simpl in *. lia.
  - destruct (find_fence s) as [[b r]|]; [|discriminate].
    intros [= <- <-]. simpl. rewrite (IH b r eq_refl). lia.
Qed.

Lemma match_fence_shorter (s matched rest : string) :
  match_fence s = Some (matched, rest) -> String.length rest < String.length s.
Proof.
  unfold match_fence. destruct (String.prefix fence s) eqn:E; [|discriminate].
  destruct (find_fence (JsString.slice 3 s)) as [[b r]|] eqn:F; [|discriminate].
  intros [= <- <-]. apply find_fence_length in F.
  rewrite slice_length in F. lia.
Qed.

(** [content.split(/(```[\s\S]*?```)/g)], from a position of the scan:
    [piece] is the text since the last match and [s] the text to come.
    Each match closes the piece and is itself put in the result, as the
    pattern is one capture group. *)
Equations? split_from (piece : string) (s : string) : list string
  by wf (String.length s) lt :=
  split_from piece EmptyString := [piece];
  split_from piece (String a s') with inspect (match_fence (String a s')) => {
    | exist _ (Some (matched, rest)) E := piece :: matched :: split_from EmptyString rest;
    | exist _ None E := split_from (piece +:+ String a EmptyString) s' }.
Proof. apply (match_fence_shorter _ _ _ E). Qed.

Definition split_code_fences (content : string) : list string :=
  split_from EmptyString content.

(** [\w] *)
Definition is_word (a : ascii) : bool :=
  let n := nat_of_ascii a in
  ((48 <=? n)%nat && (n <=? 57)%nat) || ((65 <=? n)%nat && (n <=? 90)%nat)
  || ((97 <=? n)%nat && (n <=? 122)%nat) || (n =? 95)%nat.

(** The longest run of word characters at the start of [s], and the rest. *)
Fixpoint take_word (s : string) : string * string :=
  match s with
  | String a s' =>
      if is_word a then let (w, r) := take_word s' in (String a w, r)
      else (EmptyString, s)
  | EmptyString => (EmptyString, s)
  end.

(** [part.match(/```(\w+)?\n?([\s\S]*?)```/)] for a part that starts with
    a fence: the two groups, [language] being [None] when the first took
    no part.  The greedy groups skip no back-quote, so the match at the
    start of the part exists as soon as any match does. *)
Definition fence_groups (part : string) : option (option string * string) :=
  let (word, r1) := take_word (JsString.slice 3 part) in
  let r2 := match r1 with
            | String a r => if Ascii.eqb a "010" then r else r1
            | EmptyString => r1
            end in
  match find_fence r2 with
  | Some (code, _) =>
      Some (match word with EmptyString => None | String _ _ => Some word end, code)
  | None => None
  end.

Inductive Part : Type :=
| CodeBlock (code language : string)
| Paragraph (text : string).

Definition render_part (part : string) : Part :=
  if JsString.startsWith fence part then
    match fence_groups part with
    | Some (language, code) =>
        CodeBlock (JsString.trim code)
                  (match language with Some l => l | None => "text" end)
    | None => Paragraph part
    end
  else Paragraph part.

Definition MessageContent (content : string) : list Part :=
  map render_part (split_code_fences content).

(** The children of a message's column, in document order. *)
Inductive Element : Type :=
| EMessageContent (content : string)           (* <MessageContent content /> *)
| ECitations (references : list (Value * Value))
                               (* a <FileReference file lines /> for each *)
| ERiskAnalysis (level description : Value).   (* <RiskAnalysis ... /> *)

Fixpoint file_references (items : list Value) : Completion (list (Value * Value)) :=
  match items with
  | [] => Normal []
  | citation :: rest =>
      let! file := get citation "file" in
      let! lines := get citation "lines" in
      let! others := file_references rest in
      Normal ((file, lines) :: others)
  end.

(** [MessageBubble]: the content, then the citations when the list is
    present and not empty, then the risk block when [message.risk] is
    truthy.  Reading a field of a citation that is [null] or [undefined]
    throws.  The elements are listed as [MessageBubble] makes them, with
    what they are given: how [FileReference] and [RiskAnalysis] render it
    is not part of this, nor is a risk that is falsy and not [undefined],
    which React is handed as it is. *)
Definition MessageBubble (h : Heap) (message : Message) : Completion (list Element) :=
  let! citation_row :=
    match citations message with
    | None => Normal []
    | Some l =>
        match arrays h !! l with
        | Some (c :: cs) =>
            let! references := file_references (c :: cs) in
            Normal [ECitations references]
        | Some [] | None => Normal []
        end
    end in
  let! risk_block :=
    if truthy (risk message) then
      let! level := get (risk message) "level" in
      let! description := get (risk message) "description" in
      Normal [ERiskAnalysis level description]
    else Normal [] in
  Normal (EMessageContent (content message) :: citation_row ++ risk_block).

(** The messages on the page. *)
Definition rendered (st : State) : list (option (Completion (list Element))) :=
  map (fun l => option_map (MessageBubble (heap st)) (objects (heap st) !! l))
      (messages st).

(** *** The stream, as the wire contract reads it *)

(** The lines of [text] that are ended by a line feed. *)
Definition complete_lines (text : string) : list string :=
  removelast (JsString.split "010" text).

(** The payload of a data line. *)
Definition payload (line : string) : option string :=
  if JsString.startsWith "data: " line then Some (JsString.slice 6 line) else None.

Definition payloads (text : string) : list string :=
  omap payload (complete_lines text).

Definition is_sentinel (data : string) : bool := String.eqb data "[DONE]".

(** The sentinel, where it occurs, is the last payload. *)
Fixpoint sentinel_last (ps : list string) : bool :=
  match ps with
  | [] => true
  | p :: rest =>
      if is_sentinel p then match rest with [] => true | _ :: _ => false end
      else sentinel_last rest
  end.

(** The payloads that come before the sentinel. *)
Fixpoint before_sentinel (ps : list string) : list string :=
  match ps with
  | [] => []
  | p :: rest => if is_sentinel p then [] else p :: before_sentinel rest
  end.

Section Events.
Variable JSON_parse : string -> option Value.

(** The event a payload carries, with its type tag: a payload that
    does not parse, or parses to [null], carries none. *)
Definition event_of (data : string) : option (Value * Value) :=
  match JSON_parse data with
  | Some chunk =>
      match get chunk "type" with
      | Normal type => Some (type, chunk)
      | Throw _ => None
      end
  | None => None
  end.

Definition chunk_of_kind (kind : string) (data : string) : option Value :=
  match event_of data with
  | Some (type, chunk) => if is_string type kind then Some chunk else None
  | None => None
  end.

(** The events of one kind anywhere in the stream. *)
Definition received (kind : string) (text : string) : list Value :=
  omap (chunk_of_kind kind) (payloads text).

(** The events of one kind up to the sentinel. *)
Definition received_before_sentinel (kind : string) (text : string) : list Value :=
  omap (chunk_of_kind kind) (before_sentinel (payloads text)).

(** The text that a content event adds: the text of its content, and
    nothing when its content cannot be converted to text (the event then
    leaves a line on the console and no more). *)
Definition delta_text (chunk : Value) : string :=
  match get chunk "content" with
  | Normal delta =>
      match toString delta with
      | Normal appended => appended
      | Throw _ => EmptyString
      end
  | Throw _ => EmptyString
  end.

(** The deltas of the content events, in the order of the stream. *)
Definition content_deltas (text : string) : list string :=
  map delta_text (received_before_sentinel "content" text).

End Events.

(** The text a response body delivers. *)
Definition stream_text (reads : list string) : string :=
  String.concat EmptyString reads.

End ChatInterface.

(** * Verification *)

(** ** Facts about the folder-structure page *)

Module VisualizerFacts.
Import JsString Visualizer.

(** Induction on a file tree, with the property for every child. *)
Section TreeNode_induction.
Variable P : TreeNode -> Prop.
Hypothesis step : forall n ty p cs sz lang,
    match cs with Some l => Forall P l | None => True end ->
    P (mkTreeNode n ty p cs sz lang).

Fixpoint TreeNode_ind (node : TreeNode) : P node :=
  match node with
  | mkTreeNode n ty p cs sz lang =>
      step n ty p cs sz lang
        match cs return match cs with Some l => Forall P l | None => True end with
        | None => I
        | Some l =>
            (fix all (l : list TreeNode) : Forall P l :=
               match l with
               | [] => @List.Forall_nil _ P
               | c :: l' => @List.Forall_cons _ P c l' (TreeNode_ind c) (all l')
               end) l
        end
  end.
End TreeNode_induction.

Definition add_counts (acc counts : Counts) : Counts :=
  mkCounts (files acc + files counts) (folders acc + folders counts).

Lemma fold_counts (f g : TreeNode -> nat) (l : list TreeNode) (acc : Counts) :
  Forall (fun c => files (countNodes c) = f c /\ folders (countNodes c) = g c) l ->
  fold_left (fun acc child => add_counts acc (countNodes child)) l acc
  = mkCounts (files acc + list_sum (map f l)) (folders acc + list_sum (map g l)).
Proof.
  intros H. revert acc.
  induction H as [|c l [Hf Hg] _ IH]; intros acc; simpl.
  - destruct acc; simpl; f_equal; lia.
  - rewrite IH. unfold add_counts; simpl. rewrite Hf, Hg. f_equal; lia.
Qed.

Lemma filter_flat_map_length {A B} (p : B -> bool) (f : A -> list B) (l : list A) :
  length (List.filter p (flat_map f l))
  = list_sum (map (fun a => length (List.filter p (f a))) l).
Proof.
  induction l as [|a l IH]; simpl; [reflexivity|].
  rewrite List.filter_app, length_app, IH. reflexivity.
Qed.

Lemma files_are_leaves_child n ty p l sz lang c :
  files_are_leaves (mkTreeNode n ty p (Some l) sz lang) = true ->
  In c l -> files_are_leaves c = true.
Proof.
  unfold files_are_leaves. rewrite !forallb_forall. intros H Hc x Hx.
  apply H. simpl. right. apply in_flat_map. exists c. split; assumption.
Qed.

(** C10, as amended: on a tree whose 'file' nodes have no children,
    [countNodes] returns the number of nodes of type 'file' and the number
    of nodes of any other type, root included. *)
Theorem countNodes_counts (t : TreeNode) :
  files_are_leaves t = true ->
  files (countNodes t) = count_files t /\
  folders (countNodes t) = count_not_files t.
Proof.
  induction t as [n ty p cs sz lang IH] using TreeNode_ind.
  intros Hleaf. unfold count_files, count_not_files.
  set (root := mkTreeNode n ty p cs sz lang) in *.
  assert (Hfile : is_file root = String.eqb ty "file") by reflexivity.
  cbn [countNodes nodes root List.filter]. fold root. rewrite !Hfile.
  destruct (String.eqb ty "file") eqn:Hty; cbn [negb].
  - (* a file: the early return; it has no children to count *)
    assert (Hroot : childless root = true).
    { unfold files_are_leaves in Hleaf. cbn [nodes root forallb] in Hleaf.
      fold root in Hleaf. apply andb_prop in Hleaf as [Hroot _].
      rewrite Hfile in Hroot. exact Hroot. }
    unfold childless, child_list in Hroot; cbn in Hroot.
    destruct cs as [[|c l]|]; cbn; try discriminate; split; reflexivity.
  - destruct cs as [l|]; cbn [length]; [|split; reflexivity].
    assert (Hall : Forall (fun c => files (countNodes c) = count_files c /\
                                    folders (countNodes c) = count_not_files c) l).
    { apply List.Forall_forall. intros c Hc.
      rewrite List.Forall_forall in IH. apply (IH c Hc).
      eapply files_are_leaves_child; eauto. }
    pose proof (fold_counts count_files count_not_files l (mkCounts 0 1) Hall) as Hfold.
    unfold add_counts in Hfold. rewrite Hfold. cbn [files folders].
    rewrite !filter_flat_map_length. split; reflexivity.
Qed.

(** A folder holding one file and one empty folder. *)
Definition small_tree : TreeNode :=
  mkTreeNode "apps" "folder" "/apps"
    (Some [ mkTreeNode "main.py" "file" "/apps/main.py" None (Some 2048%Z) None;
            mkTreeNode "web" "folder" "/apps/web" (Some []) None None ])
    None None.

Lemma countNodes_counts_witness :
  files_are_leaves small_tree = true /\
  files (countNodes small_tree) = count_files small_tree /\
  folders (countNodes small_tree) = count_not_files small_tree.
Proof.
  split; [reflexivity | apply (countNodes_counts small_tree); reflexivity].
Defined.

(** A node of type 'file' that carries a child, as the [TreeNode]
    interface allows. *)
Definition file_with_child : TreeNode :=
  mkTreeNode "pkg" "file" "/pkg"
    (Some [ mkTreeNode "inner.ts" "file" "/pkg/inner.ts" None None None ])
    None None.

(** C10 as stated fails: the early return for a 'file' node leaves its
    children uncounted. *)
Lemma countNodes_file_with_child :
  ~ (files (countNodes file_with_child) = count_files file_with_child /\
     folders (countNodes file_with_child) = count_not_files file_with_child).
Proof. vm_compute. intros [H _]. discriminate H. Qed.

(** *** The extension table *)

Lemma extMap_values_truthy (k tag : string) :
  extMap !! k = Some tag -> JsString.truthy tag = true.
Proof.
  intros H. apply elem_of_list_to_map_2 in H. unfold extMap_entries in H.
  repeat (apply elem_of_cons in H as [H|H]; [injection H as -> ->; reflexivity|]).
  apply elem_of_nil in H. destruct H.
Qed.

Lemma extension_empty : or_empty (extension EmptyString) = EmptyString.
Proof. reflexivity. Qed.

(** The read of an inherited member: the result is not the tag 'text'. *)
Example getLanguageFromFile_constructor :
  extMap !! or_empty (extension "x.constructor") = None /\
  getLanguageFromFile (Some "x.constructor") = Inherited "constructor".
Proof. split; reflexivity. Qed.

(** C5 as stated fails, in both its parts: the table knows ten languages,
    not fifteen, and an extension that is not in the table but names a
    member of Object.prototype does not get 'text'. *)
Lemma extMap_covers_ten_languages :
  ~ (15 <= length languages) /\
  ~ (forall f, extMap !! or_empty (extension f) = None ->
               getLanguageFromFile (Some f) = Tag "text").
Proof.
  split.
  - intros H. vm_compute in H. lia.
  - intros H. specialize (H "x.constructor" eq_refl). discriminate H.
Qed.

(** C5, as amended: the table maps twelve extensions to the tags of ten
    languages; a filename whose lower-cased extension is a key gets that
    key's tag; a missing filename gets 'text', and so does every filename
    whose extension is neither a key of the table nor the name of a member
    of Object.prototype. *)
Theorem getLanguageFromFile_table :
  length languages = 10 /\
  base.size extMap = 12 /\
  getLanguageFromFile None = Tag "text" /\
  (forall f tag, extMap !! or_empty (extension f) = Some tag ->
                 getLanguageFromFile (Some f) = Tag tag) /\
  (forall f, extMap !! or_empty (extension f) = None ->
             or_empty (extension f) ∉ object_prototype_members ->
             getLanguageFromFile (Some f) = Tag "text").
Proof.
  split; [reflexivity|]. split; [reflexivity|]. split; [reflexivity|]. split.
  - intros f tag H. unfold getLanguageFromFile.
    destruct f as [|a f]; [rewrite extension_empty in H; discriminate H|].
    cbn [JsString.truthy negb]. unfold literal_get. rewrite H.
    cbn [prop_truthy]. rewrite (extMap_values_truthy _ _ H). reflexivity.
  - intros f H Hproto. unfold getLanguageFromFile.
    destruct (negb (JsString.truthy f)); [reflexivity|].
    unfold literal_get. rewrite H.
    rewrite bool_decide_eq_false_2 by exact Hproto. reflexivity.
Qed.

Lemma getLanguageFromFile_table_witness :
  getLanguageFromFile (Some "Main.PY") = Tag "python" /\
  getLanguageFromFile (Some "notes.txt") = Tag "text".
Proof.
  destruct getLanguageFromFile_table as (_ & _ & _ & Hkey & Hother).
  split.
  - apply (Hkey "Main.PY" "python"). reflexivity.
  - apply (Hother "notes.txt"); [reflexivity|].
    apply (proj1 (bool_decide_eq_false _)). reflexivity.
Defined.

End VisualizerFacts.

(** ** Facts about the repositories page *)

Module ReposPageFacts.
Import ReposPage.

Lemma filter_removed_id (i : Z) (l : list Repository) :
  removed_id i l (List.filter (fun r => negb (Z.eqb (id r) i)) l).
Proof.
  induction l as [|r l IH]; cbn [List.filter]; [constructor|].
  destruct (Z.eqb_spec (id r) i) as [E|E]; cbn [negb].
  - apply removed_drop; assumption.
  - apply removed_keep; assumption.
Qed.

Lemma removed_id_unique (i : Z) (l l1 l2 : list Repository) :
  removed_id i l l1 -> removed_id i l l2 -> l1 = l2.
Proof.
  intros H1. revert l2.
  induction H1 as [|r l l' E _ IH|r l l' E _ IH]; intros l2 H2;
    inversion H2; subst; try congruence; auto.
  f_equal. auto.
Qed.

(** With nothing between the render in which the handler was made and
    the answer, so that the list the handler captured is still the list of
    the page: after a confirmed delete that the server accepts, the list is
    the previous one with exactly the entries of that id removed, the
    others unchanged and in order.  When the request fails in any way, or
    the dialog is declined, the list is the previous one, whatever was
    captured. *)
Lemma deleteRepo_alone (st : State) (repoId : Z) :
  (forall l', removed_id repoId (repos st) l' <->
              l' = repos (deleteRepo true Ok repoId (repos st) st)) /\
  (forall response captured,
     response <> Ok -> repos (deleteRepo true response repoId captured st) = repos st) /\
  (forall response captured,
     repos (deleteRepo false response repoId captured st) = repos st).
Proof.
  split; [|split].
  - intros l'. cbn. split.
    + intros H. eapply removed_id_unique; [exact H | apply filter_removed_id].
    + intros ->. apply filter_removed_id.
  - intros [ | d | | ] captured H; cbn; congruence.
  - intros response captured. reflexivity.
Qed.

Definition repo (i : Z) (n : string) : Repository :=
  mkRepository i n None None None "ready" 0 0 None "2025-01-01".

Example deleteRepo_alone_drops_the_id :
  repos (deleteRepo true Ok 2 [repo 1 "a"; repo 2 "b"; repo 3 "c"; repo 2 "d"]
                    (mkState [repo 1 "a"; repo 2 "b"; repo 3 "c"; repo 2 "d"] None []))
  = [repo 1 "a"; repo 3 "c"].
Proof. reflexivity. Qed.

(** Two deletes, the second asked for before the first is answered: the
    page is rendered after each click, with the list as it was, so both
    handlers hold the list of three. *)
Definition three_repos : State :=
  mkState [repo 1 "api"; repo 2 "web"; repo 3 "docs"] None [].

Definition first_asked : State := deleteRepo_asked true 1 three_repos.

Definition second_asked : State := deleteRepo_asked true 2 first_asked.

Definition first_answered : State :=
  deleteRepo_answered Ok 1 (repos three_repos) second_asked.

Definition second_answered : State :=
  deleteRepo_answered Ok 2 (repos first_asked) first_answered.

(** C9 fails on the code: the list given to [setRepos] is computed from
    the list the handler captured, not from the list of the page when the
    answer comes.  With two deletes under way, the answer to the second
    finds the list without the first repository and replaces it by the
    captured list without the second: the first repository is back, and
    the list is not the previous one with the entries of the id
    removed. *)
Theorem overlapping_deletes_bring_back_an_entry :
  repos first_answered = [repo 2 "web"; repo 3 "docs"] /\
  repos second_answered = [repo 1 "api"; repo 3 "docs"] /\
  ~ removed_id 2 (repos first_answered) (repos second_answered).
Proof.
  split; [reflexivity|]. split; [reflexivity|]. intros H.
  pose proof (removed_id_unique _ _ _ _ H (filter_removed_id 2 (repos first_answered)))
    as E.
  discriminate E.
Qed.

End ReposPageFacts.

(** ** Facts about the chat page *)

Module ChatPageFacts.
Import ChatPage.

(** Every repository the page holds is ready. *)
Definition all_ready (st : State) : Prop :=
  Forall (fun r => status r = "ready") (repos st) /\
  forall r, selectedRepo st = Some r -> status r = "ready".

Lemma is_ready_spec (r : Repository) : is_ready r = true <-> status r = "ready".
Proof. unfold is_ready. apply String.eqb_eq. Qed.

Lemma loadRepositories_ready (response : GetAllResponse) (st : State) :
  all_ready st -> all_ready (loadRepositories response st).
Proof.
  intros [Hl Hs]. destruct response as [data| |]; [|split; assumption..].
  assert (Hf : Forall (fun r => status r = "ready") (List.filter is_ready data)).
  { apply List.Forall_forall. intros r Hr. apply List.filter_In in Hr as [_ Hr].
    apply is_ready_spec, Hr. }
  split; cbn; [exact Hf|].
  destruct (List.filter is_ready data) as [|r0 l]; [exact Hs|].
  intros r [= <-]. apply List.Forall_inv in Hf. exact Hf.
Qed.

Lemma onChange_repos (value : option Z) (st : State) :
  repos (onChange value st) = repos st.
Proof.
  destruct value as [v|]; cbn; [|reflexivity].
  destruct (List.find _ (repos st)); reflexivity.
Qed.

Lemma onChange_selected (value : option Z) (st : State) (r : Repository) :
  selectedRepo (onChange value st) = Some r ->
  selectedRepo st = Some r \/ In r (repos st).
Proof.
  destruct value as [v|]; cbn; [|auto].
  destruct (List.find _ (repos st)) as [r0|] eqn:E; cbn; [|auto].
  intros [= <-]. right. apply List.find_some in E. apply E.
Qed.

Lemma onChange_ready (value : option Z) (st : State) :
  all_ready st -> all_ready (onChange value st).
Proof.
  intros [Hl Hs]. split; [rewrite onChange_repos; exact Hl|].
  intros r Hr. apply onChange_selected in Hr as [Hr|Hr]; [auto|].
  rewrite List.Forall_forall in Hl. auto.
Qed.

(** The state after the load and any choices in the selector. *)
Definition after (data : list Repository) (picks : list (option Z)) : State :=
  fold_left (fun st v => onChange v st) picks (loadRepositories (Ok data) initial).

Lemma after_snoc data picks v :
  after data (picks ++ [v]) = onChange v (after data picks).
Proof. unfold after. rewrite fold_left_app. reflexivity. Qed.

Lemma after_repos data picks :
  repos (after data picks) = List.filter is_ready data.
Proof.
  induction picks as [|v picks IH] using rev_ind; [reflexivity|].
  rewrite after_snoc, onChange_repos. exact IH.
Qed.

Lemma after_selected data picks r :
  selectedRepo (after data picks) = Some r -> In r (List.filter is_ready data).
Proof.
  revert r. induction picks as [|v picks IH] using rev_ind; intros r.
  - cbn. destruct (List.filter is_ready data) as [|r0 l]; [discriminate|].
    intros [= <-]. left. reflexivity.
  - rewrite after_snoc. intros H. apply onChange_selected in H as [H|H]; [auto|].
    rewrite after_repos in H. exact H.
Qed.

(** C3: whatever list the server returns and whatever is then chosen in
    the selector, the page offers exactly the entries whose status is
    'ready', in the server's order, and the chat it mounts (the only place a
    question is sent from) is for one of them. *)
Theorem chat_only_for_ready (data : list Repository) (picks : list (option Z)) :
  offered (after data picks) = List.filter is_ready data /\
  (forall r, In r (offered (after data picks)) <->
             In r data /\ status r = "ready") /\
  (forall props, render (after data picks) = Some props ->
     exists r, In r data /\ status r = "ready" /\
               repoId props = toString (id r) /\ repoName props = name r).
Proof.
  unfold offered. rewrite after_repos. split; [reflexivity|]. split.
  - intros r. rewrite List.filter_In, is_ready_spec. reflexivity.
  - intros props. unfold render. rewrite after_repos.
    destruct (List.filter is_ready data) as [|r0 l] eqn:E; [discriminate|].
    destruct (selectedRepo (after data picks)) as [r|] eqn:Hs; [|discriminate].
    intros [= <-]. apply after_selected in Hs.
    apply List.filter_In in Hs as [Hin Hr]. apply is_ready_spec in Hr.
    exists r. auto.
Qed.

Definition sample_data : list Repository :=
  [ mkRepository 1 "api" "indexing"; mkRepository 2 "web" "ready";
    mkRepository 3 "docs" "ready"; mkRepository 4 "old" "error" ].

Lemma chat_only_for_ready_witness :
  offered (after sample_data [Some 3%Z; Some 1%Z])
  = [mkRepository 2 "web" "ready"; mkRepository 3 "docs" "ready"] /\
  exists r, In r sample_data /\ status r = "ready" /\
            "3" = toString (id r) /\ "docs" = name r.
Proof.
  destruct (chat_only_for_ready sample_data [Some 3%Z; Some 1%Z])
    as (Hoffered & _ & Hprops).
  split; [exact Hoffered|].
  apply (Hprops (mkProps "3" "docs")). reflexivity.
Defined.

(** The states the page can reach, loads repeated. *)
Inductive reachable : State -> Prop :=
| reach_initial : reachable initial
| reach_load response st :
    reachable st -> reachable (loadRepositories response st)
| reach_change value st :
    reachable st -> reachable (onChange value st).

Lemma reachable_ready (st : State) : reachable st -> all_ready st.
Proof.
  induction 1 as [|response st _ IH|value st _ IH].
  - split; [constructor | discriminate].
  - apply loadRepositories_ready, IH.
  - apply onChange_ready, IH.
Qed.

End ChatPageFacts.

(** ** Facts about strings *)

Module JsStringFacts.
Import JsString.

Lemma append_nil_l (s : string) : EmptyString +:+ s = s.
Proof. reflexivity. Qed.

Lemma append_cons (a : ascii) (s t : string) :
  String a s +:+ t = String a (s +:+ t).
Proof. reflexivity. Qed.

Lemma append_nil_r (s : string) : s +:+ EmptyString = s.
Proof.
  induction s as [|a s IH]; [reflexivity|].
  rewrite append_cons, IH. reflexivity.
Qed.

Lemma append_assoc (s t u : string) : (s +:+ t) +:+ u = s +:+ (t +:+ u).
Proof.
  induction s as [|a s IH]; [reflexivity|].
  rewrite !append_cons, IH. reflexivity.
Qed.

Lemma concat_cons (x : string) (l : list string) :
  String.concat EmptyString (x :: l) = x +:+ String.concat EmptyString l.
Proof.
  destruct l as [|y l]; cbn [String.concat].
  - symmetry. apply append_nil_r.
  - reflexivity.
Qed.

Lemma concat_app (l1 l2 : list string) :
  String.concat EmptyString (l1 ++ l2)
  = String.concat EmptyString l1 +:+ String.concat EmptyString l2.
Proof.
  induction l1 as [|x l1 IH]; [reflexivity|].
  rewrite <- app_comm_cons, !concat_cons, IH, append_assoc. reflexivity.
Qed.

(** A prefix can be cut off and put back. *)
Lemma prefix_slice (p s : string) :
  String.prefix p s = true -> s = p +:+ slice (String.length p) s.
Proof.
  revert s. induction p as [|a p IH]; intros [|b s]; simpl;
    try reflexivity; try discriminate.
  destruct (Ascii.ascii_dec a b) as [->|]; [|discriminate].
  intros H. rewrite append_cons, <- (IH s H). reflexivity.
Qed.

Lemma split_not_nil (c : ascii) (s : string) : split c s <> [].
Proof.
  destruct s as [|a s]; simpl; [discriminate|].
  destruct (Ascii.eqb a c); [discriminate|].
  destruct (split c s); discriminate.
Qed.

End JsStringFacts.

(** ** Facts about the chat component *)

Module ChatInterfaceFacts.
Import Js JsString JsStringFacts ChatInterface.

(** *** Splitting an answer on its code fences *)

Lemma find_fence_text (s before after : string) :
  find_fence s = Some (before, after) -> s = before +:+ fence +:+ after.
Proof.
  revert before after. induction s as [|a s IH]; intros before after; [discriminate|].
  cbn [find_fence]. destruct (String.prefix fence (String a s)) eqn:E.
  - intros [= <- <-]. apply (prefix_slice fence _ E).
  - destruct (find_fence s) as [[b r]|]; [|discriminate].
    intros [= <- <-]. rewrite append_cons, <- (IH b r eq_refl). reflexivity.
Qed.

Lemma match_fence_text (s matched rest : string) :
  match_fence s = Some (matched, rest) -> s = matched +:+ rest.
Proof.
  unfold match_fence. destruct (String.prefix fence s) eqn:E; [|discriminate].
  destruct (find_fence (slice 3 s)) as [[b r]|] eqn:F; [|discriminate].
  intros [= <- <-]. apply find_fence_text in F.
  rewrite (prefix_slice fence s E) at 1. change (String.length fence) with 3.
  rewrite F, !append_assoc. reflexivity.
Qed.

Lemma split_from_concat (piece s : string) :
  String.concat EmptyString (split_from piece s) = piece +:+ s.
Proof.
  funelim (split_from piece s).
  - rewrite append_nil_r. reflexivity.
  - rewrite !concat_cons.
    match goal with IH : String.concat _ (split_from _ _) = _ |- _ => rewrite IH end.
    rewrite append_nil_l, (match_fence_text _ _ _ E). reflexivity.
  - match goal with IH : String.concat _ (split_from _ _) = _ |- _ => rewrite IH end.
    rewrite append_assoc. reflexivity.
Qed.

(** C8: the parts that [content.split(/(```[\s\S]*?```)/g)] produces
    concatenate, in order, to [content]. *)
Theorem split_code_fences_concat (content : string) :
  String.concat EmptyString (split_code_fences content) = content.
Proof. unfold split_code_fences. apply split_from_concat. Qed.

(** *** Lines across the boundaries of reads *)

Lemma or_empty_Some (x : string) : or_empty (Some x) = x.
Proof. destruct x; reflexivity. Qed.

(** Splitting after more text has arrived: the lines that were complete
    stay, the last piece is continued. *)
Lemma split_app (c : ascii) (t v : string) :
  split c (t +:+ v)
  = removelast (split c t) ++ split c (or_empty (last (split c t)) +:+ v).
Proof.
  induction t as [|a t IH]; [reflexivity|].
  rewrite append_cons. cbn [split].
  pose proof (split_not_nil c t) as Hne.
  destruct (Ascii.eqb a c) eqn:Hac.
  - rewrite IH. destruct (split c t) as [|x l]; [congruence|]. reflexivity.
  - rewrite IH. destruct (split c t) as [|x [|y l]]; [congruence| |].
    + cbn [removelast last app]. rewrite !or_empty_Some, append_cons.
      cbn [split]. rewrite Hac. reflexivity.
    + reflexivity.
Qed.

(** The text after the last line feed: what [buffer] holds. *)
Definition pending (text : string) : string :=
  or_empty (last (split "010" text)).

Lemma complete_lines_app (t v : string) :
  complete_lines (t +:+ v) = complete_lines t ++ complete_lines (pending t +:+ v).
Proof.
  unfold complete_lines, pending. rewrite split_app.
  apply removelast_app, split_not_nil.
Qed.

Lemma pending_app (t v : string) : pending (t +:+ v) = pending (pending t +:+ v).
Proof.
  unfold pending at 1 2. rewrite split_app.
  pose proof (split_not_nil "010" (pending t +:+ v)) as Hne. fold (pending t).
  destruct (split "010" (pending t +:+ v)) as [|x l] using rev_ind; [congruence|].
  rewrite app_assoc, !last_snoc. reflexivity.
Qed.

Lemma complete_lines_pending (t : string) : complete_lines (pending t) = [].
Proof.
  pose proof (complete_lines_app t EmptyString) as H.
  rewrite !append_nil_r in H.
  rewrite <- (app_nil_r (complete_lines t)) in H at 1.
  apply app_inv_head in H. symmetry. exact H.
Qed.

Lemma payloads_app (t v : string) :
  payloads (t +:+ v) = payloads t ++ payloads (pending t +:+ v).
Proof. unfold payloads. rewrite complete_lines_app, omap_app. reflexivity. Qed.

(** *** The sentinel *)

Lemma sentinel_last_app (p1 p2 : list string) :
  sentinel_last (p1 ++ p2) = true ->
  before_sentinel (p1 ++ p2) = before_sentinel p1 ++ before_sentinel p2 /\
  (before_sentinel p1 = p1 \/ p2 = []) /\
  sentinel_last p2 = true.
Proof.
  induction p1 as [|p p1 IH]; [intros H; cbn; auto|].
  cbn [app sentinel_last before_sentinel]. destruct (is_sentinel p).
  - destruct (p1 ++ p2) as [|q l] eqn:E; [|discriminate].
    apply app_eq_nil in E as [-> ->]. auto.
  - intros H. destruct (IH H) as (Hb & Hs & Hl). rewrite Hb.
    split; [reflexivity|]. split; [|exact Hl].
    destruct Hs as [Hs|Hs]; [left; rewrite Hs; reflexivity | right; exact Hs].
Qed.

(** The payloads the loop hands to the inner [try], read by read: in each
    read, those of the lines it completes, up to a sentinel. *)
Fixpoint handled (reads : list string) (buffer : string) : list string :=
  match reads with
  | [] => []
  | value :: later =>
      before_sentinel (omap payload (complete_lines (buffer +:+ value)))
      ++ handled later (pending (buffer +:+ value))
  end.

(** On a stream where the sentinel comes last, these are the payloads
    before the sentinel, however the text is cut into reads. *)
Lemma handled_before_sentinel (reads : list string) (t : string) :
  sentinel_last (payloads (pending t +:+ stream_text reads)) = true ->
  handled reads (pending t)
  = before_sentinel (payloads (pending t +:+ stream_text reads)).
Proof.
  revert t. induction reads as [|v later IH]; intros t.
  - intros _. cbn [handled stream_text String.concat].
    rewrite append_nil_r. unfold payloads. rewrite complete_lines_pending. reflexivity.
  - unfold stream_text. rewrite concat_cons. fold (stream_text later).
    rewrite <- append_assoc, payloads_app. intros H.
    apply sentinel_last_app in H as (Hb & _ & Hl).
    cbn [handled]. rewrite Hb. f_equal.
    apply (IH (pending t +:+ v)). exact Hl.
Qed.

(** *** The store *)

Lemma insert_last {A} (pre : list A) (x y : A) :
  <[length (pre ++ [x]) - 1 := y]> (pre ++ [x]) = pre ++ [y].
Proof.
  rewrite length_app. cbn [length].
  replace (length pre + 1 - 1) with (length pre + 0) by lia.
  rewrite insert_app_r. reflexivity.
Qed.

Lemma modify_lookup (a : loc) (f : Message -> Message) (h : Heap) (m : Message) :
  objects h !! a = Some m -> objects (modify a f h) !! a = Some (f m).
Proof.
  intros H. unfold modify. cbn [objects].
  rewrite list_lookup_alter_eq, H. reflexivity.
Qed.

Lemma modify_lookup_ne (a l : loc) (f : Message -> Message) (h : Heap) :
  l <> a -> objects (modify a f h) !! l = objects h !! l.
Proof.
  intros H. unfold modify. cbn [objects].
  apply list_lookup_alter_ne. congruence.
Qed.

(** The assistant message [m] lives at [a]; the list of messages is
    [pre] and then an entry that shows the same text, and no citation
    when [m] has none. *)
Definition shown (a : loc) (pre : list loc) (st : State) (m : Message) : Prop :=
  objects (heap st) !! a = Some m /\
  exists l m', messages st = pre ++ [l] /\
               objects (heap st) !! l = Some m' /\
               content m' = content m /\
               (citations m = None -> citations m' = None).

Lemma shown_same a pre st st' m :
  shown a pre st m ->
  objects (heap st') = objects (heap st) ->
  messages st' = messages st ->
  shown a pre st' m.
Proof. unfold shown. intros H -> ->. exact H. Qed.

(** An assignment to the object at [a] that keeps the text and adds no
    citation list, or adds one. *)
Lemma shown_modify a pre st m (f : Message -> Message) (h : Heap) :
  shown a pre st m ->
  objects h = objects (heap st) ->
  content (f m) = content m ->
  (citations (f m) = None -> citations m = None) ->
  shown a pre (set_heap (modify a f h) st) (f m).
Proof.
  intros (Ha & l & m' & Hm & Hl & Hc & Hn) Hobj Hf Hcit.
  assert (Ha' : objects h !! a = Some m) by (rewrite Hobj; exact Ha).
  split; [apply modify_lookup, Ha'|].
  destruct (decide (l = a)) as [->|Hne].
  - exists a, (f m). cbn [messages set_heap heap].
    split; [exact Hm|]. split; [apply modify_lookup, Ha'|]. auto.
  - exists l, m'. cbn [messages set_heap heap].
    split; [exact Hm|].
    split; [rewrite modify_lookup_ne, Hobj by exact Hne; exact Hl|].
    split; [congruence|]. auto.
Qed.

Lemma content_appended_shown a pre st m appended :
  shown a pre st m ->
  shown a pre (content_appended a appended st)
        (with_content (content m +:+ appended) m).
Proof.
  intros (Ha & l & m' & Hm & Hl & Hc & Hn). unfold content_appended.
  set (f := fun m0 => with_content (content m0 +:+ appended) m0).
  rewrite (modify_lookup a f _ _ Ha). cbn [new_object].
  unfold setMessages, set_heap. cbn [messages heap objects].
  rewrite Hm, insert_last.
  assert (Hlt : a < length (objects (modify a f (heap st)))).
  { apply lookup_lt_Some with (f m). apply modify_lookup, Ha. }
  unfold shown. cbn [heap objects messages].
  change (with_content (content m +:+ appended) m) with (f m).
  split.
  - rewrite lookup_app_l by exact Hlt. apply modify_lookup, Ha.
  - exists (length (objects (modify a f (heap st)))), (f m).
    split; [reflexivity|]. split; [apply list_lookup_middle; reflexivity|].
    split; [reflexivity | auto].
Qed.

Lemma on_citation_shown a pre st m citation :
  shown a pre st m ->
  exists m2, shown a pre (on_citation a citation st) m2 /\ content m2 = content m.
Proof.
  intros H. pose proof H as (Ha & _). unfold on_citation. rewrite Ha.
  destruct (citations m) as [l|] eqn:E.
  - exists m. split; [|reflexivity]. eapply shown_same; [exact H|reflexivity..].
  - cbn [new_array]. exists (with_citations (length (arrays (heap st))) m).
    split; [|reflexivity].
    eapply shown_same; [|reflexivity..].
    apply shown_modify with (h := mkHeap (objects (heap st)) (arrays (heap st) ++ [[]])).
    + exact H.
    + reflexivity.
    + reflexivity.
    + discriminate.
Qed.

Section Stream.
Variable JSON_parse : string -> option Value.

Local Abbreviation try_data := (try_data JSON_parse).
Local Abbreviation for_lines := (for_lines JSON_parse).
Local Abbreviation read_loop := (read_loop JSON_parse).
Local Abbreviation handleSubmit := (handleSubmit JSON_parse).
Local Abbreviation event_of := (event_of JSON_parse).
Local Abbreviation chunk_of_kind := (chunk_of_kind JSON_parse).

(** Handling payloads one after the other. *)
Definition run (a : loc) (ps : list string) (st : State) : State :=
  fold_left (fun s data => try_data a data s) ps st.

Lemma for_lines_run (a : loc) (lines : list string) (st : State) :
  for_lines a lines st = run a (before_sentinel (omap payload lines)) st.
Proof.
  revert st. induction lines as [|line rest IH]; intros st; [reflexivity|].
  cbn [ChatInterface.for_lines omap list_omap]. unfold payload at 1.
  destruct (startsWith "data: " line); [|apply IH].
  cbn [before_sentinel]. unfold is_sentinel.
  destruct (String.eqb (slice 6 line) "[DONE]"); [reflexivity|apply IH].
Qed.

Lemma read_loop_run (a : loc) (reads : list string) (buffer : string) (st : State) :
  fst (read_loop a reads buffer st) = run a (handled reads buffer) st.
Proof.
  revert buffer st. induction reads as [|v later IH]; intros buffer st; [reflexivity|].
  cbn [ChatInterface.read_loop handled]. unfold pop. rewrite IH, for_lines_run.
  unfold run. rewrite fold_left_app. reflexivity.
Qed.

(** What one payload adds to the answer: the delta of a content event,
    nothing otherwise. *)
Definition payload_delta (data : string) : string :=
  match chunk_of_kind "content" data with
  | Some chunk => delta_text chunk
  | None => EmptyString
  end.

(** One payload: the text grows by its delta, and a citation list
    appears only if the payload is a citation event. *)
Lemma try_data_shown a pre st m data :
  shown a pre st m ->
  exists m2, shown a pre (try_data a data st) m2 /\
             content m2 = content m +:+ payload_delta data /\
             (chunk_of_kind "citation" data = None ->
              citations m = None -> citations m2 = None).
Proof.
  intros H.
  unfold ChatInterface.try_data, handle_data, payload_delta,
    ChatInterface.chunk_of_kind, ChatInterface.event_of.
  destruct (JSON_parse data) as [chunk|]; cbn [bind];
    [|exists m; rewrite append_nil_r; auto].
  destruct (get chunk "type") as [type|e]; cbn [bind];
    [|exists m; rewrite append_nil_r; auto].
  destruct (is_string type "content") eqn:Econtent.
  { unfold delta_text, on_content.
    destruct (get chunk "content") as [delta|e]; cbn [bind].
    - destruct (toString delta) as [appended|e]; cbn [bind].
      + eexists. split; [apply content_appended_shown, H|]. split; [reflexivity|]. auto.
      + exists m. rewrite append_nil_r. auto.
    - exists m. rewrite append_nil_r. auto. }
  rewrite append_nil_r.
  destruct (is_string type "citation") eqn:Ecitation.
  { destruct (get chunk "citation") as [citation|e]; cbn [bind].
    - destruct (on_citation_shown a pre st m citation H) as (m2 & H2 & Hc).
      exists m2. split; [exact H2|]. split; [exact Hc|]. discriminate.
    - exists m. auto. }
  destruct (is_string type "risk").
  { destruct (get chunk "risk") as [verdict|e]; cbn [bind].
    - exists (with_risk verdict m). split; [|auto].
      apply shown_modify; auto.
    - exists m. auto. }
  destruct (is_string type "error").
  { destruct (get chunk "content") as [message|e]; cbn [bind];
      [destruct (new_Error message); cbn [bind]|]; exists m; auto. }
  exists m. auto.
Qed.

Lemma run_shown a pre ps st m :
  shown a pre st m ->
  exists m2, shown a pre (run a ps st) m2 /\
             content m2
             = content m +:+ String.concat EmptyString (map payload_delta ps) /\
             (omap (chunk_of_kind "citation") ps = [] ->
              citations m = None -> citations m2 = None).
Proof.
  revert st m. induction ps as [|p ps IH]; intros st m H.
  - exists m. rewrite append_nil_r. auto.
  - destruct (try_data_shown a pre st m p H) as (m1 & H1 & Hc1 & Hn1).
    destruct (IH _ _ H1) as (m2 & H2 & Hc2 & Hn2).
    exists m2. split; [exact H2|]. split.
    + rewrite Hc2, Hc1. cbn [map]. rewrite concat_cons, append_assoc. reflexivity.
    + cbn [omap list_omap]. destruct (chunk_of_kind "citation" p) eqn:E; [discriminate|].
      auto.
Qed.


Lemma omap_nil_before_sentinel {B} (g : string -> option B) (ps : list string) :
  omap g ps = [] -> omap g (before_sentinel ps) = [].
Proof.
  induction ps as [|p ps IH]; [reflexivity|].
  cbn [omap list_omap before_sentinel]. destruct (is_sentinel p); [reflexivity|].
  cbn [omap list_omap]. destruct (g p); [discriminate|exact IH].
Qed.

(** The loop hands over no payload that the stream does not carry. *)
Lemma handled_nil {B} (g : string -> option B) (reads : list string) (t : string) :
  omap g (payloads (pending t +:+ stream_text reads)) = [] ->
  omap g (handled reads (pending t)) = [].
Proof.
  revert t. induction reads as [|v later IH]; intros t; [reflexivity|].
  unfold stream_text. rewrite concat_cons. fold (stream_text later).
  rewrite <- append_assoc, payloads_app, omap_app. intros H.
  apply app_eq_nil in H as [H1 H2].
  cbn [handled]. rewrite omap_app.
  change (omap payload (complete_lines (pending t +:+ v)))
    with (payloads (pending t +:+ v)).
  rewrite (omap_nil_before_sentinel g _ H1).
  apply (IH (pending t +:+ v)), H2.
Qed.

(** A streamed turn: where the assistant message is stored, what the
    list of messages shows for it, and how both depend on the payloads
    handled. *)
Lemma handleSubmit_stream (reads : list string) (ending : StreamEnd) (st : State) :
  truthy (trim (input st)) = true ->
  isLoading st = false ->
  exists stored l displayed,
    objects (heap (handleSubmit (Response true (Some (reads, ending))) st))
      !! (length (objects (heap st)) + 1) = Some stored /\
    messages (handleSubmit (Response true (Some (reads, ending))) st)
      !! (length (messages st) + 1) = Some l /\
    objects (heap (handleSubmit (Response true (Some (reads, ending))) st))
      !! l = Some displayed /\
    content displayed = content stored /\
    content stored
    = String.concat EmptyString (map payload_delta (handled reads EmptyString)) /\
    (omap (chunk_of_kind "citation") (handled reads EmptyString) = [] ->
     citations stored = None /\ citations displayed = None).
Proof.
  intros Hinput Hloading.
  unfold ChatInterface.handleSubmit. rewrite Hinput, Hloading. cbn [negb orb].
  cbn [new_object try_block negb]. unfold setMessages, set_heap.
  cbn [messages input isLoading heap console_error objects arrays].
  set (u := mkMessage user (input st) None VUndefined).
  set (blank := mkMessage assistant EmptyString None VUndefined).
  set (a := length (objects (heap st) ++ [u])).
  set (pre := messages st ++ [length (objects (heap st))]).
  set (st1 := mkState (pre ++ [a]) EmptyString true
                      (mkHeap ((objects (heap st) ++ [u]) ++ [blank]) (arrays (heap st)))
                      (console_error st)).
  assert (H1 : shown a pre st1 blank).
  { split; [apply list_lookup_middle; reflexivity|].
    exists a, blank. split; [reflexivity|].
    split; [apply list_lookup_middle; reflexivity|]. auto. }
  destruct (run_shown a pre (handled reads EmptyString) st1 blank H1)
    as (m2 & (Ha & l & m' & Hm & Hl & Hc & Hn) & Hcontent & Hcit).
  rewrite <- read_loop_run in Ha, Hm, Hl.
  destruct (read_loop a reads EmptyString st1) as [st2 buffer]. cbn [fst] in *.
  assert (Ea : length (objects (heap st)) + 1 = a)
    by (unfold a; rewrite length_app; reflexivity).
  assert (Ek : length (messages st) + 1 = length pre)
    by (unfold pre; rewrite length_app; reflexivity).
  rewrite Ea, Ek.
  exists m2, l, m'.
  assert (Hrest : content m' = content m2 /\
                  content m2 = String.concat EmptyString
                                 (map payload_delta (handled reads EmptyString)) /\
                  (omap (chunk_of_kind "citation") (handled reads EmptyString) = [] ->
                   citations m2 = None /\ citations m' = None)).
  { split; [exact Hc|]. split; [exact Hcontent|].
    intros Hnone. assert (citations m2 = None) by (apply Hcit; auto). auto. }
  destruct ending as [|e]; cbn [messages heap objects log].
  - rewrite Hm. split; [exact Ha|].
    split; [apply list_lookup_middle; reflexivity|]. split; [exact Hl|exact Hrest].
  - rewrite Hm.
    split; [rewrite lookup_app_l by (eapply lookup_lt_Some; exact Ha); exact Ha|].
    split.
    { rewrite lookup_app_l by (rewrite length_app; cbn; lia).
      apply list_lookup_middle; reflexivity. }
    split; [rewrite lookup_app_l by (eapply lookup_lt_Some; exact Hl); exact Hl|].
    exact Hrest.
Qed.

Lemma is_string_eq (v : Value) (literal : string) :
  is_string v literal = true -> v = VString literal.
Proof.
  destruct v; try discriminate. cbn. intros H.
  apply String.eqb_eq in H. congruence.
Qed.

(** An error event leaves the state as it is, but for a console line of
    the inner handler: the exception goes no further.  The line shows the
    error made from the content of the event, or the TypeError of a
    content that cannot be converted to text. *)
Lemma error_event_only_logs (a : loc) (data : string) (chunk : Value) (st : State) :
  chunk_of_kind "error" data = Some chunk ->
  exists message,
    get chunk "content" = Normal message /\
    try_data a data st
    = log (ErrorParsingChunk match new_Error message with
                             | Normal e => e
                             | Throw e => e
                             end) st.
Proof.
  unfold ChatInterface.chunk_of_kind, ChatInterface.event_of,
    ChatInterface.try_data, handle_data.
  destruct (JSON_parse data) as [c|]; [|discriminate]. cbn [bind].
  destruct (get c "type") as [type|e] eqn:Etype; [|discriminate].
  destruct (is_string type "error") eqn:Eerror; [|discriminate].
  intros [= ->]. apply is_string_eq in Eerror. subst type. cbn [bind is_string].
  change (String.eqb "error" "content") with false.
  change (String.eqb "error" "citation") with false.
  change (String.eqb "error" "risk") with false.
  change (String.eqb "error" "error") with true. cbn iota.
  assert (Hget : exists message, get chunk "content" = Normal message).
  { destruct chunk; try discriminate; eexists; reflexivity. }
  destruct Hget as (message & Hget). rewrite Hget. cbn [bind].
  exists message. split; [reflexivity|].
  destruct (new_Error message); reflexivity.
Qed.

(** The delta of an event whose content is a string is that string. *)
Lemma delta_text_string (chunk : Value) (s : string) :
  get chunk "content" = Normal (VString s) -> delta_text chunk = s.
Proof. intros H. unfold delta_text. rewrite H. reflexivity. Qed.

(** The delta of an event whose content cannot be converted is empty,
    and the event is logged. *)
Lemma delta_text_not_converted (chunk delta : Value) :
  get chunk "content" = Normal delta -> converts delta = false ->
  delta_text chunk = EmptyString /\
  forall a st, on_content a delta st = Throw TypeError.
Proof.
  intros H Hc. unfold delta_text, on_content, toString. rewrite H, Hc.
  split; reflexivity.
Qed.


Lemma truthy_get (v : Value) (p : string) :
  Js.truthy v = true -> exists x, get v p = Normal x.
Proof. destruct v; try discriminate; intros _; eexists; reflexivity. Qed.

Lemma MessageBubble_without_citations (h : Heap) (m : Message) :
  citations m = None ->
  exists block,
    MessageBubble h m = Normal (EMessageContent (content m) :: block) /\
    (block = [] \/ exists level description,
                     block = [ERiskAnalysis level description]).
Proof.
  intros H. unfold MessageBubble. rewrite H. cbn [bind].
  destruct (Js.truthy (risk m)) eqn:E.
  - destruct (truthy_get _ "level" E) as (level & ->).
    destruct (truthy_get _ "description" E) as (description & ->).
    cbn [bind app]. eexists. split; [reflexivity|]. right. eauto.
  - cbn [bind app]. eexists. split; [reflexivity|]. left. reflexivity.
Qed.

(** C6: in a streamed turn that receives no citation event, the
    assistant message has no citation list, neither as stored nor as
    shown, and its bubble holds no file reference. *)
Theorem no_citation_event_no_file_reference
        (reads : list string) (ending : StreamEnd) (st : State) :
  truthy (trim (input st)) = true ->
  isLoading st = false ->
  received JSON_parse "citation" (stream_text reads) = [] ->
  exists stored l displayed elements,
    objects (heap (handleSubmit (Response true (Some (reads, ending))) st))
      !! (length (objects (heap st)) + 1) = Some stored /\
    messages (handleSubmit (Response true (Some (reads, ending))) st)
      !! (length (messages st) + 1) = Some l /\
    objects (heap (handleSubmit (Response true (Some (reads, ending))) st))
      !! l = Some displayed /\
    citations stored = None /\
    citations displayed = None /\
    MessageBubble (heap (handleSubmit (Response true (Some (reads, ending))) st))
                  displayed = Normal elements /\
    forall references, ~ In (ECitations references) elements.
Proof.
  intros Hinput Hloading Hnone.
  destruct (handleSubmit_stream reads ending st Hinput Hloading)
    as (stored & l & displayed & Ha & Hl & Hd & _ & _ & Hcit).
  pose proof (handled_nil (chunk_of_kind "citation") reads EmptyString) as Hhandled.
  change (pending EmptyString) with EmptyString in Hhandled.
  rewrite append_nil_l in Hhandled.
  destruct (Hcit (Hhandled Hnone)) as [Hs Hdis].
  destruct (MessageBubble_without_citations
              (heap (handleSubmit (Response true (Some (reads, ending))) st))
              displayed Hdis) as (block & Hbubble & Hblock).
  exists stored, l, displayed, (EMessageContent (content displayed) :: block).
  repeat (split; [assumption|]).
  intros references [Hin|Hin]; [discriminate|].
  destruct Hblock as [->|(level & description & ->)]; [destruct Hin|].
  destruct Hin as [Hin|[]]. discriminate.
Qed.

(** Handling a risk event writes the risk field of the assistant message
    and nothing else: its text, its citation list, every other object,
    every array, the list of messages and the rest of the state stay as
    they were.  A bubble that is given a message with a risk shows it as a
    block of its own, after the content block, which holds the text of the
    message and nothing of the risk. *)
Lemma risk_event_sets_only_risk
        (a : loc) (data : string) (chunk : Value) (st : State) :
  chunk_of_kind "risk" data = Some chunk ->
  exists verdict,
    get chunk "risk" = Normal verdict /\
    messages (try_data a data st) = messages st /\
    input (try_data a data st) = input st /\
    isLoading (try_data a data st) = isLoading st /\
    console_error (try_data a data st) = console_error st /\
    arrays (heap (try_data a data st)) = arrays (heap st) /\
    (forall l, l <> a ->
               objects (heap (try_data a data st)) !! l = objects (heap st) !! l) /\
    (forall m, objects (heap st) !! a = Some m ->
       exists m', objects (heap (try_data a data st)) !! a = Some m' /\
                  role m' = role m /\ content m' = content m /\
                  citations m' = citations m /\ risk m' = verdict) /\
    (forall h m elements,
       MessageBubble h m = Normal elements ->
       Js.truthy (risk m) = true ->
       exists row level description,
         elements = EMessageContent (content m) :: row
                      ++ [ERiskAnalysis level description] /\
         get (risk m) "level" = Normal level /\
         get (risk m) "description" = Normal description /\
         (row = [] \/ exists references, row = [ECitations references])).
Proof.
  unfold ChatInterface.chunk_of_kind, ChatInterface.event_of,
    ChatInterface.try_data, handle_data.
  destruct (JSON_parse data) as [c|]; [|discriminate]. cbn [bind].
  destruct (get c "type") as [type|e] eqn:Etype; [|discriminate].
  destruct (is_string type "risk") eqn:Erisk; [|discriminate].
  intros [= ->]. apply is_string_eq in Erisk. subst type. cbn [bind is_string].
  change (String.eqb "risk" "content") with false.
  change (String.eqb "risk" "citation") with false.
  change (String.eqb "risk" "risk") with true. cbn iota.
  assert (Hget : exists verdict, get chunk "risk" = Normal verdict).
  { destruct chunk; try discriminate; eexists; reflexivity. }
  destruct Hget as (verdict & Hget). rewrite Hget. cbn [bind].
  exists verdict. split; [reflexivity|].
  unfold on_risk, set_heap. cbn [messages input isLoading console_error heap].
  repeat (split; [reflexivity|]).
  split; [intros l Hl; apply modify_lookup_ne, Hl|].
  split.
  - intros m Hm. exists (with_risk verdict m).
    split; [apply modify_lookup, Hm|]. repeat split.
  - intros h m elements Hbubble Htruthy. unfold MessageBubble in Hbubble.
    rewrite Htruthy in Hbubble.
    destruct (truthy_get _ "level" Htruthy) as (level & Hlevel).
    destruct (truthy_get _ "description" Htruthy) as (description & Hdescription).
    rewrite Hlevel, Hdescription in Hbubble.
    assert (Hshape : forall row,
               (row = [] \/ exists references, row = [ECitations references]) ->
               exists row' level' description',
                 EMessageContent (content m) :: row ++ [ERiskAnalysis level description]
                 = EMessageContent (content m) :: row'
                     ++ [ERiskAnalysis level' description'] /\
                 get (risk m) "level" = Normal level' /\
                 get (risk m) "description" = Normal description' /\
                 (row' = [] \/ exists references, row' = [ECitations references])).
    { intros row Hrow. exists row, level, description. auto. }
    destruct (citations m) as [l|]; cbn [bind] in Hbubble.
    + destruct (arrays h !! l) as [[|c0 cs]|]; cbn [bind] in Hbubble.
      * injection Hbubble as <-. apply (Hshape []). auto.
      * destruct (file_references (c0 :: cs)) as [references|e];
          cbn [bind] in Hbubble; [|discriminate].
        injection Hbubble as <-. apply (Hshape [ECitations references]). eauto.
      * injection Hbubble as <-. apply (Hshape []). auto.
    + injection Hbubble as <-. apply (Hshape []). auto.
Qed.

End Stream.

End ChatInterfaceFacts.

(** ** Streams worked through the chat component *)

Module ChatExamples.
Import Js JsString ChatInterface ChatInterfaceFacts.

(** A data line of the stream: the JSON text is written with apostrophes
    for its double quotes. *)
Definition line_feed : string := String "010" EmptyString.

Definition data_line (json : string) : string :=
  "data: " +:+ Json.text json +:+ line_feed.

Definition sentinel_line : string := "data: [DONE]" +:+ line_feed.

(** The chat as it is mounted, with a question typed in. *)
Definition fresh_chat (question : string) : State :=
  mkState [0] question false
        (mkHeap [mkMessage assistant "Welcome" None VUndefined] []) [].

Definition turn (reads : list string) (ending : StreamEnd) : State :=
  handleSubmit Json.parse (Response true (Some (reads, ending)))
             (fresh_chat "What does add do?").

(** An error event, then more of the stream. *)
Definition error_then_content : list string :=
  [ data_line "{'type':'content','content':'add returns '}";
    data_line "{'type':'error','content':'generation timed out'}";
    data_line "{'type':'content','content':'the sum'}" +:+ sentinel_line ].

(** C1 fails on the code: the exception thrown for an error event is
    caught by the inner handler, which writes a console line; the content
    event after it is handled, and the turn ends with no failure message,
    the assistant bubble showing the text around the error. *)
Theorem error_event_is_swallowed :
  console_error (turn error_then_content Done)
  = [ErrorParsingChunk (Error "generation timed out")] /\
  rendered (turn error_then_content Done)
  = [ Some (Normal [EMessageContent "Welcome"]);
    Some (Normal [EMessageContent "What does add do?"]);
    Some (Normal [EMessageContent "add returns the sum"]) ].
Proof. split; vm_compute; reflexivity. Qed.

(** The failure message is what the outer handler appends, when
    [reader.read()] rejects. *)
Example read_failure_is_reported :
  console_error (turn [data_line "{'type':'content','content':'add returns '}"]
                    (ReadFails TypeError))
  = [ChatError TypeError] /\
  rendered (turn [data_line "{'type':'content','content':'add returns '}"]
               (ReadFails TypeError))
  = [ Some (Normal [EMessageContent "Welcome"]);
    Some (Normal [EMessageContent "What does add do?"]);
    Some (Normal [EMessageContent "add returns "]);
    Some (Normal [EMessageContent (content errorMessage)]) ].
Proof. split; vm_compute; reflexivity. Qed.

(** Whatever a stream carries, a turn whose reads end with [done] logs no
    chat error: no event reaches the outer handler. *)
Lemma stream_events_never_fail_the_turn
      (JSON_parse : string -> option Value) (reads : list string) (st : State) :
  snd (try_block JSON_parse (Response true (Some (reads, Done))) st) = None.
Proof.
  unfold try_block. cbn [negb new_object].
  destruct (read_loop JSON_parse _ reads EmptyString _). reflexivity.
Qed.

(** The sentinel in one read, an event in the next. *)
Definition content_after_sentinel : list string :=
  [ data_line "{'type':'content','content':'add returns the sum'}" +:+ sentinel_line;
    data_line "{'type':'content','content':' (appended after the end)'}" ].

(** C4 fails on the code: the [break] at the sentinel leaves the loop over
    the lines of one read only; an event that arrives in a later read is
    handled. *)
Theorem event_after_sentinel_is_handled :
  rendered (turn content_after_sentinel Done)
  = [ Some (Normal [EMessageContent "Welcome"]);
    Some (Normal [EMessageContent "What does add do?"]);
    Some (Normal [EMessageContent "add returns the sum (appended after the end)"]) ].
Proof. vm_compute. reflexivity. Qed.

(** Within one read the sentinel does end the handling of lines. *)
Lemma for_lines_stops_at_sentinel
      (JSON_parse : string -> option Value) (a : nat) (later : list string) (st : State) :
  for_lines JSON_parse a ("data: [DONE]" :: later) st = st.
Proof. reflexivity. Qed.

(** A turn cut into reads in the middle of a line. *)
Definition answer_in_pieces : list string :=
  [ "data: " +:+ Json.text "{'type':'content','content':'add re";
    Json.text "turns '}" +:+ line_feed
    +:+ data_line "{'type':'citation','citation':{'file':'src/math.ts','lines':'1-3'}}"
    +:+ data_line "{'type':'content','content':'the sum'}";
    data_line "{'type':'risk','risk':{'level':'low','description':'grounded'}}"
    +:+ sentinel_line ].


(** A content event whose content is an object with a key toString: the
    [+=] of its branch throws, the event is logged, and the text is that
    of the other events. *)
Definition content_that_is_not_text : list string :=
  [ data_line "{'type':'content','content':'add returns '}"
    +:+ data_line "{'type':'content','content':{'toString':1}}"
    +:+ data_line "{'type':'content','content':'the sum'}" +:+ sentinel_line ].

Example content_that_is_not_text_adds_nothing :
  content_deltas Json.parse (stream_text content_that_is_not_text)
  = ["add returns "; EmptyString; "the sum"] /\
  rendered (turn content_that_is_not_text Done)
  = [ Some (Normal [EMessageContent "Welcome"]);
      Some (Normal [EMessageContent "What does add do?"]);
      Some (Normal [EMessageContent "add returns the sum"]) ] /\
  console_error (turn content_that_is_not_text Done) = [ErrorParsingChunk TypeError].
Proof. repeat split; vm_compute; reflexivity. Qed.

(** The answer in one read, the verdict of the verifier in a later one. *)
Definition verdict_after_answer : list string :=
  [ data_line "{'type':'content','content':'add returns the sum'}";
    data_line "{'type':'risk','risk':{'level':'low','description':'grounded'}}"
    +:+ sentinel_line ].

(** C7 fails on the code: the risk branch assigns the verdict to the
    assistant message and, unlike the content branch, issues no update of
    the list of messages.  The entry on show is the copy made for the last
    content delta, so the verdict is stored and the bubble, which would put
    it in a block after the content, is not given it. *)
Theorem verdict_is_stored_but_not_shown :
  option_map risk (objects (heap (turn verdict_after_answer Done)) !! 2)
  = Some (VObject [("level", VString "low"); ("description", VString "grounded")]) /\
  option_map (MessageBubble (heap (turn verdict_after_answer Done)))
             (objects (heap (turn verdict_after_answer Done)) !! 2)
  = Some (Normal [ EMessageContent "add returns the sum";
                   ERiskAnalysis (VString "low") (VString "grounded") ]) /\
  rendered (turn verdict_after_answer Done)
  = [ Some (Normal [EMessageContent "Welcome"]);
      Some (Normal [EMessageContent "What does add do?"]);
      Some (Normal [EMessageContent "add returns the sum"]) ].
Proof. repeat split; vm_compute; reflexivity. Qed.

(** A citation that comes before the last content delta is on show: the
    copy shares the list of the assistant message. *)
Example citation_before_last_delta :
  rendered (turn answer_in_pieces Done)
  = [ Some (Normal [EMessageContent "Welcome"]);
      Some (Normal [EMessageContent "What does add do?"]);
      Some (Normal [EMessageContent "add returns the sum";
                    ECitations [(VString "src/math.ts", VString "1-3")]]) ].
Proof. vm_compute; reflexivity. Qed.

(** A turn for which nothing was retrieved: text and a verdict, no
    citation. *)
Definition answer_without_citation : list string :=
  [ data_line "{'type':'content','content':'No context was found.'}";
    data_line "{'type':'risk','risk':{'level':'high','description':'no context'}}"
    +:+ sentinel_line ].

Lemma no_citation_event_no_file_reference_witness :
  received Json.parse "citation" (stream_text answer_without_citation) = [] /\
  exists stored l displayed elements,
    objects (heap (turn answer_without_citation Done)) !! 2 = Some stored /\
    messages (turn answer_without_citation Done) !! 2 = Some l /\
    objects (heap (turn answer_without_citation Done)) !! l = Some displayed /\
    citations stored = None /\
    citations displayed = None /\
    MessageBubble (heap (turn answer_without_citation Done)) displayed = Normal elements /\
    forall references, ~ In (ECitations references) elements.
Proof.
  split; [vm_compute; reflexivity|].
  apply (no_citation_event_no_file_reference Json.parse answer_without_citation Done
         (fresh_chat "What does add do?")); vm_compute; reflexivity.
Defined.

(** The store in the middle of a turn: the welcome, the question, the
    assistant message with a citation list, and the copy on show. *)
Definition mid_turn : State :=
  mkState [0; 1; 3] EmptyString true
        (mkHeap [ mkMessage assistant "Welcome" None VUndefined;
                  mkMessage user "What does add do?" None VUndefined;
                  mkMessage assistant "add returns the sum" (Some 0) VUndefined;
                  mkMessage assistant "add returns the sum" (Some 0) VUndefined ]
                [ [VObject [("file", VString "src/math.ts"); ("lines", VString "1-3")]] ])
        [].

Definition risk_payload : string :=
  Json.text "{'type':'risk','risk':{'level':'low','description':'grounded'}}".

Definition risk_chunk : Value :=
  VObject [ ("type", VString "risk");
          ("risk", VObject [("level", VString "low");
                            ("description", VString "grounded")]) ].

Example risk_event_in_mid_turn :
  chunk_of_kind Json.parse "risk" risk_payload = Some risk_chunk /\
  messages (try_data Json.parse 2 risk_payload mid_turn) = [0; 1; 3] /\
  objects (heap (try_data Json.parse 2 risk_payload mid_turn)) !! 3
  = Some (mkMessage assistant "add returns the sum" (Some 0) VUndefined).
Proof.
  split; [vm_compute; reflexivity|].
  destruct (risk_event_sets_only_risk Json.parse 2 risk_payload risk_chunk mid_turn)
    as (verdict & _ & Hmessages & _ & _ & _ & _ & Hothers & _).
  - vm_compute; reflexivity.
  - split; [exact Hmessages|]. rewrite Hothers by discriminate. reflexivity.
Qed.

(** An answer with a fenced block, as [MessageContent] lays it out. *)
Example MessageContent_fenced :
  MessageContent ("add is:" +:+ line_feed +:+ "```ts" +:+ line_feed
                  +:+ "return a + b" +:+ line_feed +:+ "```" +:+ " and no more")
  = [ Paragraph ("add is:" +:+ line_feed);
      CodeBlock "return a + b" "ts";
      Paragraph " and no more" ].
Proof. reflexivity. Qed.

End ChatExamples.

(** * More of the chat component *)

Module ChatTurnFacts.
Import Js JsString JsStringFacts ChatInterface ChatInterfaceFacts.

(** *** Text without a line feed *)

Fixpoint no_line_feed (s : string) : bool :=
  match s with
  | EmptyString => true
  | String a s' => negb (Ascii.eqb a "010") && no_line_feed s'
  end.

Lemma split_no_line_feed (s : string) :
  no_line_feed s = true -> split "010" s = [s].
Proof.
  induction s as [|a s IH]; [reflexivity|].
  cbn [no_line_feed split]. destruct (Ascii.eqb a "010"); [discriminate|].
  cbn [negb andb]. intros H. rewrite (IH H). reflexivity.
Qed.

Lemma split_pieces_no_line_feed (s : string) :
  Forall (fun piece => no_line_feed piece = true) (split "010" s).
Proof.
  induction s as [|a s IH]; [repeat constructor|].
  cbn [split]. destruct (Ascii.eqb a "010") eqn:E.
  - constructor; [reflexivity|exact IH].
  - destruct (split "010" s) as [|h t]; [repeat constructor; cbn; rewrite E; reflexivity|].
    inversion IH as [|? ? Hh Ht]; subst. constructor; [|exact Ht].
    cbn [no_line_feed]. rewrite E, Hh. reflexivity.
Qed.

Lemma pending_no_line_feed (t : string) : no_line_feed (pending t) = true.
Proof.
  unfold pending. pose proof (split_pieces_no_line_feed t) as H.
  pose proof (split_not_nil "010" t) as Hne.
  destruct (split "010" t) as [|x l] using rev_ind; [congruence|].
  rewrite last_snoc, or_empty_Some.
  apply Forall_app in H as [_ H]. inversion H; assumption.
Qed.

Lemma no_line_feed_app (s t : string) :
  no_line_feed s = true -> no_line_feed t = true -> no_line_feed (s +:+ t) = true.
Proof.
  induction s as [|a s IH]; [auto|].
  rewrite append_cons. cbn [no_line_feed].
  intros H Ht. apply andb_prop in H as [Ha Hs]. rewrite Ha, (IH Hs Ht). reflexivity.
Qed.

Lemma pending_no_line_feed_id (s : string) : no_line_feed s = true -> pending s = s.
Proof.
  intros H. unfold pending. rewrite (split_no_line_feed s H).
  cbn [last]. apply or_empty_Some.
Qed.

Section Turn.
Variable JSON_parse : string -> option Value.

Local Abbreviation try_data := (try_data JSON_parse).
Local Abbreviation read_loop := (read_loop JSON_parse).
Local Abbreviation handleSubmit := (handleSubmit JSON_parse).
Local Abbreviation chunk_of_kind := (chunk_of_kind JSON_parse).
Local Abbreviation run := (run JSON_parse).

(** The buffer the loop ends with. *)
Lemma read_loop_buffer (a : nat) (reads : list string) (t : string) (st : State) :
  snd (read_loop a reads (pending t) st) = pending (pending t +:+ stream_text reads).
Proof.
  revert t st. induction reads as [|v later IH]; intros t st.
  - cbn [ChatInterface.read_loop snd stream_text String.concat].
    rewrite append_nil_r. symmetry. apply pending_no_line_feed_id, pending_no_line_feed.
  - cbn [ChatInterface.read_loop]. unfold pop.
    change (or_empty (last (split "010" (pending t +:+ v)))) with (pending (pending t +:+ v)).
    rewrite IH. unfold stream_text. rewrite concat_cons.
    rewrite <- append_assoc. symmetry. apply pending_app.
Qed.

Lemma read_loop_app (a : nat) (r1 r2 : list string) (buffer : string) (st : State) :
  read_loop a (r1 ++ r2) buffer st
  = read_loop a r2 (snd (read_loop a r1 buffer st)) (fst (read_loop a r1 buffer st)).
Proof.
  revert buffer st. induction r1 as [|v r1 IH]; intros buffer st; [reflexivity|].
  cbn [app ChatInterface.read_loop]. unfold pop. apply IH.
Qed.

(** *** A streamed turn, in three steps *)

(** The state the stream loop starts from: the question and the empty
    assistant message are stored and listed. *)
Definition prepared (st : State) : State :=
  mkState ((messages st ++ [length (objects (heap st))])
             ++ [length (objects (heap st)) + 1])
          EmptyString true
          (mkHeap ((objects (heap st) ++ [mkMessage user (input st) None VUndefined])
                     ++ [mkMessage assistant EmptyString None VUndefined])
                  (arrays (heap st)))
          (console_error st).

(** What follows the loop: [finally], after the outer handler when the
    reader failed. *)
Definition finish (ending : StreamEnd) (s : State) : State :=
  match ending with
  | Done => mkState (messages s) (input s) false (heap s) (console_error s)
  | ReadFails e =>
      mkState (messages s ++ [length (objects (heap s))]) (input s) false
              (mkHeap (objects (heap s) ++ [errorMessage]) (arrays (heap s)))
              (console_error s ++ [ChatError e])
  end.

Lemma handleSubmit_run (reads : list string) (ending : StreamEnd) (st : State) :
  truthy (trim (input st)) = true ->
  isLoading st = false ->
  handleSubmit (Response true (Some (reads, ending))) st
  = finish ending (run (length (objects (heap st)) + 1)
                       (handled reads EmptyString) (prepared st)).
Proof.
  intros Hinput Hloading.
  unfold ChatInterface.handleSubmit. rewrite Hinput, Hloading. cbn [negb orb].
  cbn [new_object try_block negb]. unfold setMessages, set_heap.
  cbn [messages input isLoading heap console_error objects arrays].
  rewrite <- read_loop_run. unfold prepared.
  replace (length (objects (heap st) ++ [mkMessage user (input st) None VUndefined]))
    with (length (objects (heap st)) + 1) by (rewrite length_app; reflexivity).
  destruct (read_loop _ reads EmptyString _) as [st2 buffer]. cbn [fst].
  destruct ending; reflexivity.
Qed.

(** X2: the loop ends with the text after the last line feed in its
    buffer, and that text is never handled: text without a line feed, read
    last, changes nothing but the buffer, so the turn ends as it does
    without that read. *)
Theorem unfinished_line_is_not_handled
        (a : nat) (reads : list string) (tail : string) (ending : StreamEnd)
        (st : State) :
  no_line_feed tail = true ->
  snd (read_loop a reads EmptyString st) = pending (stream_text reads) /\
  fst (read_loop a (reads ++ [tail]) EmptyString st)
  = fst (read_loop a reads EmptyString st) /\
  snd (read_loop a (reads ++ [tail]) EmptyString st)
  = snd (read_loop a reads EmptyString st) +:+ tail /\
  handleSubmit (Response true (Some (reads ++ [tail], ending))) st
  = handleSubmit (Response true (Some (reads, ending))) st.
Proof.
  intros Htail.
  assert (Hloop : forall s,
             snd (read_loop a reads EmptyString s) = pending (stream_text reads) /\
             forall b, fst (read_loop b (reads ++ [tail]) EmptyString s)
                       = fst (read_loop b reads EmptyString s) /\
                       snd (read_loop b (reads ++ [tail]) EmptyString s)
                       = snd (read_loop b reads EmptyString s) +:+ tail).
  { intros s.
    assert (Hbuffer : forall b, snd (read_loop b reads EmptyString s)
                                = pending (stream_text reads)).
    { intros b. pose proof (read_loop_buffer b reads EmptyString s) as H.
      change (pending EmptyString) with EmptyString in H.
      rewrite append_nil_l in H. exact H. }
    split; [apply Hbuffer|]. intros b.
    rewrite read_loop_app, Hbuffer. cbn [ChatInterface.read_loop]. unfold pop.
    assert (Hno : no_line_feed (pending (stream_text reads) +:+ tail) = true)
      by (apply no_line_feed_app; [apply pending_no_line_feed | exact Htail]).
    rewrite (split_no_line_feed _ Hno).
    cbn [last removelast ChatInterface.for_lines fst snd].
    split; [reflexivity | apply or_empty_Some]. }
  destruct (Hloop st) as [Hbuffer Htail'].
  split; [exact Hbuffer|]. split; [apply Htail'|]. split; [apply Htail'|].
  destruct (truthy (trim (input st))) eqn:Hinput;
    [|unfold ChatInterface.handleSubmit; rewrite Hinput; reflexivity].
  destruct (isLoading st) eqn:Hloading;
    [unfold ChatInterface.handleSubmit; rewrite Hloading, orb_true_r; reflexivity|].
  rewrite !handleSubmit_run by assumption. rewrite <- !read_loop_run.
  f_equal. apply (Hloop (prepared st)).
Qed.

(** The text that the list of messages shows at position [i]. *)
Definition shown_content (s : State) (i : nat) : option string :=
  match messages s !! i with
  | Some l => option_map content (objects (heap s) !! l)
  | None => None
  end.

(** X1: what a streamed turn stores and the text it shows depend on the
    stream through its data payloads only, not on how the text is cut
    into reads, on lines that are not data lines, or on text after the
    last line feed, when the sentinel is the last payload: the assistant
    message in the store, with its text, citation list and verdict, the
    arrays of citations, the lines on the console, the input box, the
    loading flag, and the text shown at each position of the list are the
    same for two streams with the same payloads.  Which citations and
    which verdict the copy on show carries is not part of this: that is
    decided by when the update of the list runs, which the cut into reads
    changes. *)
Theorem turn_depends_on_payloads_only
        (reads1 reads2 : list string) (ending : StreamEnd) (st : State) :
  sentinel_last (payloads (stream_text reads1)) = true ->
  payloads (stream_text reads1) = payloads (stream_text reads2) ->
  objects (heap (handleSubmit (Response true (Some (reads1, ending))) st))
    !! (length (objects (heap st)) + 1)
  = objects (heap (handleSubmit (Response true (Some (reads2, ending))) st))
      !! (length (objects (heap st)) + 1) /\
  arrays (heap (handleSubmit (Response true (Some (reads1, ending))) st))
  = arrays (heap (handleSubmit (Response true (Some (reads2, ending))) st)) /\
  console_error (handleSubmit (Response true (Some (reads1, ending))) st)
  = console_error (handleSubmit (Response true (Some (reads2, ending))) st) /\
  input (handleSubmit (Response true (Some (reads1, ending))) st)
  = input (handleSubmit (Response true (Some (reads2, ending))) st) /\
  isLoading (handleSubmit (Response true (Some (reads1, ending))) st)
  = isLoading (handleSubmit (Response true (Some (reads2, ending))) st) /\
  forall i,
    shown_content (handleSubmit (Response true (Some (reads1, ending))) st) i
    = shown_content (handleSubmit (Response true (Some (reads2, ending))) st) i.
Proof.
  intros Hsentinel Hsame.
  destruct (truthy (trim (input st))) eqn:Hinput;
    [|unfold ChatInterface.handleSubmit; rewrite Hinput; repeat split; reflexivity].
  destruct (isLoading st) eqn:Hloading;
    [unfold ChatInterface.handleSubmit; rewrite Hloading, orb_true_r;
     repeat split; reflexivity|].
  rewrite !handleSubmit_run by assumption.
  pose proof (handled_before_sentinel reads1 EmptyString) as H1.
  pose proof (handled_before_sentinel reads2 EmptyString) as H2.
  change (pending EmptyString) with EmptyString in H1, H2.
  rewrite append_nil_l in H1, H2.
  rewrite H1 by exact Hsentinel. rewrite H2 by (rewrite <- Hsame; exact Hsentinel).
  rewrite Hsame. repeat split; reflexivity.
Qed.

End Turn.

Import ChatExamples.

Lemma unfinished_line_is_not_handled_witness :
  no_line_feed "data: [DONE]" = true /\
  snd (read_loop Json.parse 2
         ([data_line "{'type':'content','content':'add returns the sum'}"]
            ++ ["data: [DONE]"])
         EmptyString (prepared (fresh_chat "What does add do?")))
  = "data: [DONE]" /\
  turn ([data_line "{'type':'content','content':'add returns the sum'}"]
          ++ ["data: [DONE]"]) Done
  = turn [data_line "{'type':'content','content':'add returns the sum'}"] Done.
Proof.
  split; [reflexivity|].
  destruct (unfinished_line_is_not_handled Json.parse 2
              [data_line "{'type':'content','content':'add returns the sum'}"]
              "data: [DONE]" Done (prepared (fresh_chat "What does add do?")) eq_refl)
    as (_ & _ & Hbuffer & _).
  split; [rewrite Hbuffer; vm_compute; reflexivity|].
  apply (unfinished_line_is_not_handled Json.parse 2
           [data_line "{'type':'content','content':'add returns the sum'}"]
           "data: [DONE]" Done (fresh_chat "What does add do?") eq_refl).
Defined.

(** One stream, cut into reads in two ways, the second with a comment
    line and an unfinished line. *)
Definition whole_lines : list string :=
  [ data_line "{'type':'content','content':'add returns '}";
    data_line "{'type':'content','content':'the sum'}" +:+ sentinel_line ].

Definition pieces : list string :=
  [ "data: " +:+ Json.text "{'type':'content','content':'add re";
    Json.text "turns '}" +:+ line_feed +:+ ": keep-alive" +:+ line_feed;
    data_line "{'type':'content','content':'the sum'}" +:+ "data: [DO";
    "NE]" +:+ line_feed +:+ "data: " ].

Lemma turn_depends_on_payloads_only_witness :
  shown_content (turn whole_lines Done) 2 = Some "add returns the sum" /\
  shown_content (turn pieces Done) 2 = Some "add returns the sum" /\
  option_map content (objects (heap (turn pieces Done)) !! 2)
  = Some "add returns the sum".
Proof.
  destruct (turn_depends_on_payloads_only Json.parse whole_lines pieces Done
              (fresh_chat "What does add do?") eq_refl eq_refl)
    as (Hstored & _ & _ & _ & _ & Hshown).
  unfold turn. split; [vm_compute; reflexivity|].
  split; [rewrite <- (Hshown 2); vm_compute; reflexivity|].
  change 2 with (length (objects (heap (fresh_chat "What does add do?"))) + 1).
  rewrite <- Hstored. vm_compute. reflexivity.
Defined.

(** *** What each event does to the assistant message *)

(** The field of an event that its branch reads. *)
Definition field (name : string) (chunk : Value) : Value :=
  match get chunk name with
  | Normal v => v
  | Throw _ => VUndefined
  end.

Section Events.
Variable JSON_parse : string -> option Value.

Local Abbreviation try_data := (try_data JSON_parse).
Local Abbreviation handleSubmit := (handleSubmit JSON_parse).
Local Abbreviation chunk_of_kind := (chunk_of_kind JSON_parse).
Local Abbreviation run := (run JSON_parse).
Local Abbreviation received_before_sentinel := (received_before_sentinel JSON_parse).

(** The effect of one payload, by the kind of its event. *)
Inductive effect (a : loc) (data : string) (st : State) : State -> Prop :=
| effect_content chunk appended :
    chunk_of_kind "content" data = Some chunk ->
    chunk_of_kind "citation" data = None ->
    chunk_of_kind "risk" data = None ->
    toString (field "content" chunk) = Normal appended ->
    effect a data st (content_appended a appended st)
| effect_citation chunk :
    chunk_of_kind "citation" data = Some chunk ->
    chunk_of_kind "content" data = None ->
    chunk_of_kind "risk" data = None ->
    effect a data st (on_citation a (field "citation" chunk) st)
| effect_risk chunk :
    chunk_of_kind "risk" data = Some chunk ->
    chunk_of_kind "content" data = None ->
    chunk_of_kind "citation" data = None ->
    effect a data st (on_risk a (field "risk" chunk) st)
| effect_none :
    chunk_of_kind "content" data = None ->
    chunk_of_kind "citation" data = None ->
    chunk_of_kind "risk" data = None ->
    effect a data st st
| effect_log e :
    chunk_of_kind "citation" data = None ->
    chunk_of_kind "risk" data = None ->
    effect a data st (log (ErrorParsingChunk e) st).

Lemma get_object_field (chunk type : Value) (name : string) :
  get chunk "type" = Normal type -> is_string type name = true ->
  forall p, get chunk p = Normal (field p chunk).
Proof.
  intros Hget Htype p. unfold field.
  destruct chunk; try discriminate; try reflexivity;
    cbn in Hget; injection Hget as <-; discriminate.
Qed.

Lemma try_data_effect (a : loc) (data : string) (st : State) :
  effect a data st (try_data a data st).
Proof.
  unfold ChatInterface.try_data, handle_data.
  destruct (JSON_parse data) as [chunk|] eqn:Eparse; cbn [bind];
    [|apply effect_log; unfold ChatInterface.chunk_of_kind, event_of;
      rewrite Eparse; reflexivity].
  destruct (get chunk "type") as [type|e] eqn:Etype; cbn [bind];
    [|apply effect_log; unfold ChatInterface.chunk_of_kind, event_of;
      rewrite Eparse, Etype; reflexivity].
  assert (Hkind : forall kind,
             chunk_of_kind kind data = if is_string type kind then Some chunk else None).
  { intros kind. unfold ChatInterface.chunk_of_kind, event_of.
    rewrite Eparse, Etype. reflexivity. }
  destruct (is_string type "content") eqn:Econtent.
  { rewrite (get_object_field chunk type "content" Etype Econtent). cbn [bind].
    apply is_string_eq in Econtent. subst type. unfold on_content.
    destruct (toString (field "content" chunk)) as [appended|e] eqn:Etext; cbn [bind].
    - apply (effect_content a data st chunk appended); [rewrite Hkind; reflexivity..|].
      exact Etext.
    - apply effect_log; rewrite Hkind; reflexivity. }
  destruct (is_string type "citation") eqn:Ecitation.
  { rewrite (get_object_field chunk type "citation" Etype Ecitation). cbn [bind].
    apply is_string_eq in Ecitation. subst type.
    apply effect_citation; rewrite Hkind; reflexivity. }
  destruct (is_string type "risk") eqn:Erisk.
  { rewrite (get_object_field chunk type "risk" Etype Erisk). cbn [bind].
    apply is_string_eq in Erisk. subst type.
    apply effect_risk; rewrite Hkind; reflexivity. }
  destruct (is_string type "error") eqn:Eerror.
  { rewrite (get_object_field chunk type "error" Etype Eerror). cbn [bind].
    destruct (new_Error (field "content" chunk)); cbn [bind];
      apply effect_log; rewrite Hkind, ?Ecitation, ?Erisk; reflexivity. }
  apply effect_none; rewrite Hkind, ?Econtent, ?Ecitation, ?Erisk; reflexivity.
Qed.

(** What is known of the store while the payloads of a turn are handled.
    [objs0] and [arrs0] are the objects and arrays of the store before the
    turn; the assistant message [m] lives at [a], has the verdict
    [verdict] and, when [cited] is not empty, a citation list that holds
    [cited]; the list of messages is [pre] and then an entry that has no
    citation list or the one of [m]. *)
Definition tracked (objs0 : list Message) (arrs0 : list (list Value))
           (a : loc) (pre : list loc) (cited : list Value) (verdict : Value)
           (s : State) : Prop :=
  exists m l m',
    objects (heap s) !! a = Some m /\
    risk m = verdict /\
    match citations m with
    | None => cited = []
    | Some c => arrays (heap s) !! c = Some cited /\ cited <> [] /\ length arrs0 <= c
    end /\
    messages s = pre ++ [l] /\
    objects (heap s) !! l = Some m' /\
    (citations m' = None \/ citations m' = citations m) /\
    (role m = assistant /\ role m' = assistant) /\
    length arrs0 <= length (arrays (heap s)) /\
    (forall i, i < length objs0 -> objects (heap s) !! i = objs0 !! i) /\
    (forall i, i < length arrs0 -> arrays (heap s) !! i = arrs0 !! i).

Lemma content_appended_tracked objs0 arrs0 a pre cited verdict s appended :
  length objs0 <= a ->
  tracked objs0 arrs0 a pre cited verdict s ->
  tracked objs0 arrs0 a pre cited verdict (content_appended a appended s).
Proof.
  intros Hle (m & l & m' & Ha & Hrisk & Hcit & Hm & Hl & Hshare & Hrole & Hlen & Hobjs & Harrs).
  unfold content_appended.
  set (f := fun m0 => with_content (content m0 +:+ appended) m0).
  rewrite (modify_lookup a f _ _ Ha). cbn [new_object].
  unfold setMessages, set_heap. cbn [messages heap objects].
  rewrite Hm, insert_last.
  assert (Hlt : a < length (objects (modify a f (heap s)))).
  { apply lookup_lt_Some with (f m). apply modify_lookup, Ha. }
  exists (f m), (length (objects (modify a f (heap s)))), (f m).
  cbn [heap objects arrays messages].
  split; [rewrite lookup_app_l by exact Hlt; apply modify_lookup, Ha|].
  split; [exact Hrisk|]. split; [exact Hcit|]. split; [reflexivity|].
  split; [apply list_lookup_middle; reflexivity|].
  split; [right; reflexivity|]. split; [split; apply Hrole|].
  split; [exact Hlen|]. split; [|exact Harrs].
  intros i Hi. rewrite lookup_app_l by lia.
  rewrite modify_lookup_ne by lia. apply Hobjs, Hi.
Qed.

Lemma on_citation_tracked objs0 arrs0 a pre cited verdict s citation :
  length objs0 <= a ->
  tracked objs0 arrs0 a pre cited verdict s ->
  tracked objs0 arrs0 a pre (cited ++ [citation]) verdict (on_citation a citation s).
Proof.
  intros Hle (m & l & m' & Ha & Hrisk & Hcit & Hm & Hl & Hshare & Hrole & Hlen & Hobjs & Harrs).
  unfold on_citation. rewrite Ha.
  destruct (citations m) as [c|] eqn:Ec.
  - destruct Hcit as (Hc & Hne & Hk).
    exists m, l, m'. unfold set_heap, push. cbn [heap objects arrays messages].
    split; [exact Ha|]. split; [exact Hrisk|]. rewrite Ec.
    split.
    { split; [rewrite list_lookup_alter_eq, Hc; reflexivity|].
      split; [intros E; apply app_eq_nil in E as [_ E]; discriminate | exact Hk]. }
    split; [exact Hm|]. split; [exact Hl|]. split; [exact Hshare|].
    split; [exact Hrole|].
    split; [rewrite length_alter; exact Hlen|]. split; [exact Hobjs|].
    intros i Hi. rewrite list_lookup_alter_ne by lia. apply Harrs, Hi.
  - subst cited. cbn [new_array]. unfold set_heap, push, modify.
    cbn [heap objects arrays messages].
    set (c := length (arrays (heap s))).
    exists (with_citations c m), l,
      (if decide (l = a) then with_citations c m else m').
    cbn [heap objects arrays messages].
    split; [rewrite list_lookup_alter_eq, Ha; reflexivity|].
    split; [exact Hrisk|]. cbn [citations with_citations].
    split.
    { split; [|split; [discriminate | exact Hlen]].
      rewrite list_lookup_alter_eq.
      replace ((arrays (heap s) ++ [[]]) !! c) with (Some (@nil Value))
        by (symmetry; apply list_lookup_middle; reflexivity).
      reflexivity. }
    split; [exact Hm|].
    split.
    { destruct (decide (l = a)) as [->|Hne].
      - rewrite list_lookup_alter_eq, Ha. reflexivity.
      - rewrite list_lookup_alter_ne by congruence. exact Hl. }
    split.
    { destruct (decide (l = a)) as [->|Hne]; [right; reflexivity|].
      left. destruct Hshare as [H|H]; congruence. }
    split; [destruct (decide (l = a)); split; apply Hrole|].
    split; [rewrite length_alter, length_app; lia|].
    split.
    + intros i Hi. rewrite list_lookup_alter_ne by lia. apply Hobjs, Hi.
    + intros i Hi. rewrite list_lookup_alter_ne by (unfold c; lia).
      rewrite lookup_app_l by lia. apply Harrs, Hi.
Qed.

Lemma on_risk_tracked objs0 arrs0 a pre cited verdict s v :
  length objs0 <= a ->
  tracked objs0 arrs0 a pre cited verdict s ->
  tracked objs0 arrs0 a pre cited v (on_risk a v s).
Proof.
  intros Hle (m & l & m' & Ha & Hrisk & Hcit & Hm & Hl & Hshare & Hrole & Hlen & Hobjs & Harrs).
  unfold on_risk, set_heap, modify. cbn [heap objects arrays messages].
  exists (with_risk v m), l, (if decide (l = a) then with_risk v m else m').
  cbn [heap objects arrays messages].
  split; [rewrite list_lookup_alter_eq, Ha; reflexivity|].
  split; [reflexivity|]. cbn [citations with_risk].
  split; [exact Hcit|]. split; [exact Hm|].
  split.
  { destruct (decide (l = a)) as [->|Hne].
    - rewrite list_lookup_alter_eq, Ha. reflexivity.
    - rewrite list_lookup_alter_ne by congruence. exact Hl. }
  split; [destruct (decide (l = a)); [right; reflexivity | exact Hshare]|].
  split; [destruct (decide (l = a)); split; apply Hrole|].
  split; [exact Hlen|]. split; [|exact Harrs].
  intros i Hi. rewrite list_lookup_alter_ne by lia. apply Hobjs, Hi.
Qed.

(** The citations and the verdict that payloads add. *)
Definition citations_of (ps : list string) : list Value :=
  map (field "citation") (omap (chunk_of_kind "citation") ps).

Definition verdict_after (verdict : Value) (ps : list string) : Value :=
  match last (omap (chunk_of_kind "risk") ps) with
  | Some chunk => field "risk" chunk
  | None => verdict
  end.

Lemma try_data_tracked objs0 arrs0 a pre cited verdict s data :
  length objs0 <= a ->
  tracked objs0 arrs0 a pre cited verdict s ->
  tracked objs0 arrs0 a pre (cited ++ citations_of [data])
          (verdict_after verdict [data]) (try_data a data s).
Proof.
  intros Hle H. unfold citations_of, verdict_after. cbn [omap list_omap].
  destruct (try_data_effect a data s) as [chunk appended E1 E2 E3 _|chunk E1 E2 E3
                                            |chunk E1 E2 E3|E1 E2 E3|e E2 E3];
    rewrite ?E1, ?E2, ?E3; cbn [map last]; rewrite ?app_nil_r.
  - apply content_appended_tracked; assumption.
  - apply on_citation_tracked; assumption.
  - apply on_risk_tracked with (verdict := verdict); assumption.
  - exact H.
  - exact H.
Qed.

Lemma verdict_after_cons (verdict : Value) (p : string) (ps : list string) :
  verdict_after (verdict_after verdict [p]) ps = verdict_after verdict (p :: ps).
Proof.
  unfold verdict_after. cbn [omap list_omap].
  destruct (chunk_of_kind "risk" p) as [chunk|]; [|reflexivity].
  destruct (omap (chunk_of_kind "risk") ps) as [|x l] eqn:E; [reflexivity|].
  change (last (chunk :: x :: l)) with (last (x :: l)).
  destruct (last (x :: l)) eqn:El; [reflexivity|].
  apply last_None in El. discriminate.
Qed.

Lemma run_tracked objs0 arrs0 a pre cited verdict s ps :
  length objs0 <= a ->
  tracked objs0 arrs0 a pre cited verdict s ->
  tracked objs0 arrs0 a pre (cited ++ citations_of ps) (verdict_after verdict ps)
          (run a ps s).
Proof.
  intros Hle. revert cited verdict s. induction ps as [|p ps IH]; intros cited verdict s H.
  - unfold citations_of, verdict_after. cbn. rewrite app_nil_r. exact H.
  - pose proof (IH _ _ _ (try_data_tracked _ _ _ _ _ _ _ p Hle H)) as H'.
    rewrite verdict_after_cons, <- app_assoc in H'.
    unfold citations_of in *. cbn [omap list_omap] in *.
    destruct (chunk_of_kind "citation" p); exact H'.
Qed.

Lemma prepared_tracked (st : State) :
  tracked (objects (heap st) ++ [mkMessage user (input st) None VUndefined])
          (arrays (heap st)) (length (objects (heap st)) + 1)
          (messages st ++ [length (objects (heap st))]) [] VUndefined (prepared st).
Proof.
  set (blank := mkMessage assistant EmptyString None VUndefined).
  assert (Hblank : objects (heap (prepared st)) !! (length (objects (heap st)) + 1)
                   = Some blank).
  { cbn [prepared heap objects]. apply list_lookup_middle.
    rewrite length_app. reflexivity. }
  exists blank, (length (objects (heap st)) + 1), blank.
  split; [exact Hblank|]. split; [reflexivity|]. split; [reflexivity|].
  split; [reflexivity|]. split; [exact Hblank|]. split; [left; reflexivity|].
  split; [split; reflexivity|].
  split; [cbn; lia|]. cbn [prepared heap objects arrays]. split; [|reflexivity].
  intros i Hi. rewrite lookup_app_l by exact Hi. reflexivity.
Qed.

(** The inner handler is the only writer of the console while payloads
    are handled, and the input box is not touched. *)
Definition is_parsing_log (entry : LogEntry) : Prop :=
  match entry with
  | ErrorParsingChunk _ => True
  | ChatError _ => False
  end.

Lemma try_data_console (a : loc) (data : string) (s : State) :
  input (try_data a data s) = input s /\
  exists more, console_error (try_data a data s) = console_error s ++ more /\
               Forall is_parsing_log more.
Proof.
  destruct (try_data_effect a data s)
    as [chunk appended _ _ _ _|chunk _ _ _|chunk _ _ _|_ _ _|e _ _].
  - unfold content_appended.
    destruct (objects (modify a _ (heap s)) !! a);
      (split; [reflexivity|]); exists []; rewrite app_nil_r; split; constructor.
  - unfold on_citation.
    destruct (objects (heap s) !! a) as [m|]; [destruct (citations m)|];
      (split; [reflexivity|]); exists []; rewrite app_nil_r; split; constructor.
  - split; [reflexivity|]. exists []. rewrite app_nil_r. split; constructor.
  - split; [reflexivity|]. exists []. rewrite app_nil_r. split; constructor.
  - split; [reflexivity|]. exists [ErrorParsingChunk e].
    split; [reflexivity|]. repeat constructor.
Qed.

Lemma run_console (a : loc) (ps : list string) (s : State) :
  input (run a ps s) = input s /\
  exists more, console_error (run a ps s) = console_error s ++ more /\
               Forall is_parsing_log more.
Proof.
  revert s. induction ps as [|p ps IH]; intros s.
  - split; [reflexivity|]. exists []. rewrite app_nil_r. split; constructor.
  - destruct (IH (try_data a p s)) as (Hi & more2 & Hc2 & Hf2).
    destruct (try_data_console a p s) as (Hi1 & more1 & Hc1 & Hf1).
    change (run a (p :: ps) s) with (run a ps (try_data a p s)).
    split; [congruence|]. exists (more1 ++ more2).
    rewrite Hc2, Hc1, app_assoc. split; [reflexivity|]. apply Forall_app; auto.
Qed.

(** A streamed turn, as the store and the page have it at its end. *)
Lemma handleSubmit_tracked (reads : list string) (ending : StreamEnd) (st : State) :
  truthy (trim (input st)) = true ->
  isLoading st = false ->
  exists stored l displayed rest more,
    objects (heap (handleSubmit (Response true (Some (reads, ending))) st))
      !! (length (objects (heap st)) + 1) = Some stored /\
    messages (handleSubmit (Response true (Some (reads, ending))) st)
    = messages st ++ length (objects (heap st)) :: l :: rest /\
    objects (heap (handleSubmit (Response true (Some (reads, ending))) st))
      !! l = Some displayed /\
    risk stored = verdict_after VUndefined (handled reads EmptyString) /\
    match citations stored with
    | None => citations_of (handled reads EmptyString) = []
    | Some c =>
        arrays (heap (handleSubmit (Response true (Some (reads, ending))) st)) !! c
        = Some (citations_of (handled reads EmptyString))
    end /\
    (citations displayed = None \/ citations displayed = citations stored) /\
    (role stored = assistant /\ role displayed = assistant) /\
    (forall i, i < length (objects (heap st)) + 1 ->
       objects (heap (handleSubmit (Response true (Some (reads, ending))) st)) !! i
       = (objects (heap st) ++ [mkMessage user (input st) None VUndefined]) !! i) /\
    (forall i, i < length (arrays (heap st)) ->
       arrays (heap (handleSubmit (Response true (Some (reads, ending))) st)) !! i
       = arrays (heap st) !! i) /\
    input (handleSubmit (Response true (Some (reads, ending))) st) = EmptyString /\
    isLoading (handleSubmit (Response true (Some (reads, ending))) st) = false /\
    console_error (handleSubmit (Response true (Some (reads, ending))) st)
    = (console_error st ++ more)
        ++ match ending with Done => [] | ReadFails e => [ChatError e] end /\
    Forall is_parsing_log more /\
    rest = match ending with
           | Done => []
           | ReadFails _ =>
               [length (objects (heap (handleSubmit (Response true (Some (reads, ending)))
                                                    st))) - 1]
           end /\
    (ending <> Done ->
     last (objects (heap (handleSubmit (Response true (Some (reads, ending))) st)))
     = Some errorMessage).
Proof.
  intros Hinput Hloading.
  rewrite (handleSubmit_run JSON_parse reads ending st Hinput Hloading).
  set (a := length (objects (heap st)) + 1).
  assert (Hle : length (objects (heap st) ++ [mkMessage user (input st) None VUndefined])
                <= a) by (rewrite length_app; cbn; lia).
  pose proof (run_tracked _ _ a _ [] VUndefined _ (handled reads EmptyString) Hle
                (prepared_tracked st))
    as (m & l & m' & Ha & Hrisk & Hcit & Hm & Hl & Hshare & Hrole & Hlen & Hobjs & Harrs).
  destruct (run_console a (handled reads EmptyString) (prepared st))
    as (Hin & more & Hcon & Hmore).
  cbn [app] in Hcit. rewrite length_app in Hobjs. cbn [length] in Hobjs.
  set (s := run a (handled reads EmptyString) (prepared st)) in *.
  assert (Hcit' : match citations m with
                  | None => citations_of (handled reads EmptyString) = []
                  | Some c => arrays (heap s) !! c
                              = Some (citations_of (handled reads EmptyString))
                  end)
    by (destruct (citations m); [apply Hcit | exact Hcit]).
  exists m, l, m'.
  destruct ending as [|e]; cbn [finish messages heap objects arrays input isLoading
                                  console_error].
  - exists [], more. rewrite Hm, <- app_assoc, app_nil_r.
    repeat (split; [first [assumption | reflexivity | discriminate]|]).
    intros H. congruence.
  - exists [length (objects (heap s))], more. rewrite Hm, <- !app_assoc.
    split; [rewrite lookup_app_l by (eapply lookup_lt_Some; exact Ha); exact Ha|].
    split; [reflexivity|].
    split; [rewrite lookup_app_l by (eapply lookup_lt_Some; exact Hl); exact Hl|].
    split; [exact Hrisk|].
    split.
    { destruct (citations m); exact Hcit'. }
    split; [exact Hshare|]. split; [exact Hrole|].
    assert (Ha' : a < length (objects (heap s))) by (eapply lookup_lt_Some; exact Ha).
    split; [intros i Hi; rewrite lookup_app_l by (unfold a in Ha'; lia); apply Hobjs, Hi|].
    split; [exact Harrs|]. split; [exact Hin|]. split; [reflexivity|].
    split; [rewrite Hcon, <- app_assoc; reflexivity|]. split; [exact Hmore|].
    split; [rewrite length_app; cbn [length]; do 2 f_equal; lia|].
    intros _. apply last_snoc.
Qed.

(** *** The guard of [handleSubmit] *)

Fixpoint all_space (s : string) : bool :=
  match s with
  | EmptyString => true
  | String a s' => is_space a && all_space s'
  end.

Lemma all_space_trimStart (s : string) : all_space (trimStart s) = all_space s.
Proof.
  induction s as [|a s IH]; [reflexivity|].
  cbn [trimStart all_space]. destruct (is_space a) eqn:E; [exact IH|].
  cbn [all_space]. rewrite E. reflexivity.
Qed.

Lemma trimEnd_empty (s : string) : trimEnd s = EmptyString <-> all_space s = true.
Proof.
  induction s as [|a s IH]; [split; reflexivity|].
  cbn [trimEnd all_space]. destruct (trimEnd s) as [|b t].
  - destruct (is_space a).
    + split; [intros _; apply IH; reflexivity | reflexivity].
    + split; discriminate.
  - split; [discriminate|]. intros H. apply andb_prop in H as [_ H].
    apply IH in H. discriminate.
Qed.

Lemma trim_blank (s : string) : truthy (trim s) = false <-> all_space s = true.
Proof.
  rewrite <- all_space_trimStart, <- trimEnd_empty. unfold trim.
  destruct (trimEnd (trimStart s)); split; first [reflexivity | discriminate].
Qed.

(** Why a request fails, if it does. *)
Definition failure (fetch : Fetch) : option Exn :=
  match fetch with
  | FetchRejects e => Some e
  | Response false _ => Some (Error "Failed to get response")
  | Response true None => Some (Error "No response body")
  | Response true (Some (_, ReadFails e)) => Some e
  | Response true (Some (_, Done)) => None
  end.

Lemma last_three {A} (pre : list A) (x y z : A) : last (pre ++ x :: y :: [z]) = Some z.
Proof.
  change (pre ++ x :: y :: [z]) with (pre ++ [x; y] ++ [z]).
  rewrite app_assoc. apply last_snoc.
Qed.

(** A submit that passes the guard, whatever the request resolves to. *)
Lemma handleSubmit_accepted (fetch : Fetch) (st : State) :
  truthy (trim (input st)) = true ->
  isLoading st = false ->
  exists l rest more reply,
    messages (handleSubmit fetch st)
    = messages st ++ length (objects (heap st)) :: l :: rest /\
    objects (heap (handleSubmit fetch st)) !! l = Some reply /\
    role reply = assistant /\
    (forall i, i < length (objects (heap st)) + 1 ->
       objects (heap (handleSubmit fetch st)) !! i
       = (objects (heap st) ++ [mkMessage user (input st) None VUndefined]) !! i) /\
    (forall i, i < length (arrays (heap st)) ->
       arrays (heap (handleSubmit fetch st)) !! i = arrays (heap st) !! i) /\
    input (handleSubmit fetch st) = EmptyString /\
    isLoading (handleSubmit fetch st) = false /\
    console_error (handleSubmit fetch st)
    = (console_error st ++ more)
        ++ match failure fetch with Some e => [ChatError e] | None => [] end /\
    Forall is_parsing_log more /\
    match failure fetch with
    | None => rest = []
    | Some _ =>
        last (messages (handleSubmit fetch st))
        = Some (length (objects (heap (handleSubmit fetch st))) - 1) /\
        last (objects (heap (handleSubmit fetch st))) = Some errorMessage
    end.
Proof.
  intros Hinput Hloading.
  assert (Hearly : forall e,
             handleSubmit fetch st
             = mkState ((messages st ++ [length (objects (heap st))])
                          ++ [length (objects (heap st)) + 1])
                       EmptyString false
                       (mkHeap ((objects (heap st)
                                   ++ [mkMessage user (input st) None VUndefined])
                                  ++ [errorMessage])
                               (arrays (heap st)))
                       (console_error st ++ [ChatError e]) ->
             failure fetch = Some e ->
             exists l rest more reply,
               messages (handleSubmit fetch st)
               = messages st ++ length (objects (heap st)) :: l :: rest /\
               objects (heap (handleSubmit fetch st)) !! l = Some reply /\
               role reply = assistant /\
               (forall i, i < length (objects (heap st)) + 1 ->
                  objects (heap (handleSubmit fetch st)) !! i
                  = (objects (heap st) ++ [mkMessage user (input st) None VUndefined])
                      !! i) /\
               (forall i, i < length (arrays (heap st)) ->
                  arrays (heap (handleSubmit fetch st)) !! i = arrays (heap st) !! i) /\
               input (handleSubmit fetch st) = EmptyString /\
               isLoading (handleSubmit fetch st) = false /\
               console_error (handleSubmit fetch st)
               = (console_error st ++ more)
                   ++ match failure fetch with Some e => [ChatError e] | None => [] end /\
               Forall is_parsing_log more /\
               match failure fetch with
               | None => rest = []
               | Some _ =>
                   last (messages (handleSubmit fetch st))
                   = Some (length (objects (heap (handleSubmit fetch st))) - 1) /\
                   last (objects (heap (handleSubmit fetch st))) = Some errorMessage
               end).
  { intros e -> ->. exists (length (objects (heap st)) + 1), [], [], errorMessage.
    cbn [messages heap objects arrays input isLoading console_error].
    split; [rewrite <- app_assoc; reflexivity|].
    split; [apply list_lookup_middle; rewrite length_app; reflexivity|].
    split; [reflexivity|].
    split; [intros i Hi; apply lookup_app_l; rewrite length_app; exact Hi|].
    split; [reflexivity|]. split; [reflexivity|]. split; [reflexivity|].
    split; [rewrite app_nil_r; reflexivity|]. split; [constructor|].
    split; [|apply last_snoc].
    rewrite last_snoc, !length_app. cbn [length]. f_equal. lia. }
  assert (Hguard : negb (truthy (trim (input st))) || isLoading st = false)
    by (rewrite Hinput, Hloading; reflexivity).
  destruct fetch as [e|[|] [[reads ending]|]].
  - apply (Hearly e); [|reflexivity].
    unfold ChatInterface.handleSubmit. rewrite Hguard.
    cbn [new_object try_block]. unfold setMessages, set_heap, log.
    cbn [messages input isLoading heap console_error objects arrays].
    rewrite length_app. reflexivity.
  - destruct (handleSubmit_tracked reads ending st Hinput Hloading)
      as (stored & l & displayed & rest & more & _ & Hm & Hl & _ & _ & _ & Hrole
          & Hobjs & Harrs & Hin & Hload & Hcon & Hmore & Hrest & Hlast).
    exists l, rest, more, displayed.
    split; [exact Hm|]. split; [exact Hl|]. split; [apply Hrole|].
    split; [exact Hobjs|]. split; [exact Harrs|]. split; [exact Hin|].
    split; [exact Hload|].
    split; [rewrite Hcon; destruct ending; reflexivity|]. split; [exact Hmore|].
    destruct ending as [|e]; cbn [failure]; [exact Hrest|].
    split; [|apply Hlast; discriminate].
    rewrite Hm at 1. rewrite Hrest.
    apply last_three.
  - apply (Hearly (Error "No response body")); [|reflexivity].
    unfold ChatInterface.handleSubmit. rewrite Hguard.
    cbn [new_object try_block negb]. unfold setMessages, set_heap, log.
    cbn [messages input isLoading heap console_error objects arrays].
    rewrite length_app. reflexivity.
  - apply (Hearly (Error "Failed to get response")); [|reflexivity].
    unfold ChatInterface.handleSubmit. rewrite Hguard.
    cbn [new_object try_block negb]. unfold setMessages, set_heap, log.
    cbn [messages input isLoading heap console_error objects arrays].
    rewrite length_app. reflexivity.
  - apply (Hearly (Error "Failed to get response")); [|reflexivity].
    unfold ChatInterface.handleSubmit. rewrite Hguard.
    cbn [new_object try_block negb]. unfold setMessages, set_heap, log.
    cbn [messages input isLoading heap console_error objects arrays].
    rewrite length_app. reflexivity.
Qed.

Lemma handled_whole (reads : list string) :
  sentinel_last (payloads (stream_text reads)) = true ->
  handled reads EmptyString = before_sentinel (payloads (stream_text reads)).
Proof.
  pose proof (handled_before_sentinel reads EmptyString) as H.
  change (pending EmptyString) with EmptyString in H.
  rewrite append_nil_l in H. exact H.
Qed.

(** X3: in a streamed turn whose sentinel, if any, is the last data
    line, the citation list of the assistant message holds the citations
    of the citation events, one for each event and in the order of the
    stream; the message has no list exactly when there was no such
    event. *)
Theorem citations_are_stored_in_stream_order
        (reads : list string) (ending : StreamEnd) (st : State) :
  truthy (trim (input st)) = true ->
  isLoading st = false ->
  sentinel_last (payloads (stream_text reads)) = true ->
  exists stored,
    objects (heap (handleSubmit (Response true (Some (reads, ending))) st))
      !! (length (objects (heap st)) + 1) = Some stored /\
    match citations stored with
    | None => received_before_sentinel "citation" (stream_text reads) = []
    | Some c =>
        arrays (heap (handleSubmit (Response true (Some (reads, ending))) st)) !! c
        = Some (map (field "citation")
                    (received_before_sentinel "citation" (stream_text reads))) /\
        received_before_sentinel "citation" (stream_text reads) <> []
    end.
Proof.
  intros Hinput Hloading Hsentinel.
  rewrite (handleSubmit_run JSON_parse reads ending st Hinput Hloading).
  assert (Hle : length (objects (heap st) ++ [mkMessage user (input st) None VUndefined])
                <= length (objects (heap st)) + 1) by (rewrite length_app; cbn; lia).
  rewrite (handled_whole reads Hsentinel).
  pose proof (run_tracked _ _ _ _ [] VUndefined _
                (before_sentinel (payloads (stream_text reads))) Hle
                (prepared_tracked st))
    as (m & l & m' & Ha & _ & Hcit & _).
  cbn [app] in Hcit.
  set (s := run _ _ (prepared st)) in *.
  exists m. split.
  - destruct ending; cbn [finish heap objects]; [exact Ha|].
    rewrite lookup_app_l by (eapply lookup_lt_Some; exact Ha). exact Ha.
  - unfold citations_of in Hcit. fold (received_before_sentinel "citation" (stream_text reads))
      in Hcit.
    destruct (citations m) as [c|].
    + destruct Hcit as (Hc & Hne & _).
      split; [destruct ending; exact Hc|].
      intros E. apply Hne. rewrite E. reflexivity.
    + apply map_eq_nil in Hcit. exact Hcit.
Qed.

(** X4: the entry that the list of messages shows for the answer either
    has no citation list or shares the list of the assistant message:
    what it shows is never a part of the citations handled. *)
Theorem shown_citations_are_all_or_none
        (reads : list string) (ending : StreamEnd) (st : State) :
  truthy (trim (input st)) = true ->
  isLoading st = false ->
  exists stored l displayed,
    objects (heap (handleSubmit (Response true (Some (reads, ending))) st))
      !! (length (objects (heap st)) + 1) = Some stored /\
    messages (handleSubmit (Response true (Some (reads, ending))) st)
      !! (length (messages st) + 1) = Some l /\
    objects (heap (handleSubmit (Response true (Some (reads, ending))) st))
      !! l = Some displayed /\
    (citations displayed = None \/ citations displayed = citations stored).
Proof.
  intros Hinput Hloading.
  destruct (handleSubmit_tracked reads ending st Hinput Hloading)
    as (stored & l & displayed & rest & more & Ha & Hm & Hl & _ & _ & Hshare & _).
  exists stored, l, displayed.
  split; [exact Ha|]. split; [|split; [exact Hl | exact Hshare]].
  rewrite Hm.
  change (messages st ++ length (objects (heap st)) :: l :: rest)
    with (messages st ++ [length (objects (heap st))] ++ l :: rest).
  rewrite app_assoc. apply list_lookup_middle. rewrite length_app. reflexivity.
Qed.

(** X5: in a streamed turn whose sentinel, if any, is the last data
    line, the verdict of the assistant message is the one of the last
    risk event, and the message has none when there was no such event. *)
Theorem last_verdict_is_stored
        (reads : list string) (ending : StreamEnd) (st : State) :
  truthy (trim (input st)) = true ->
  isLoading st = false ->
  sentinel_last (payloads (stream_text reads)) = true ->
  exists stored,
    objects (heap (handleSubmit (Response true (Some (reads, ending))) st))
      !! (length (objects (heap st)) + 1) = Some stored /\
    risk stored
    = match last (received_before_sentinel "risk" (stream_text reads)) with
      | Some chunk => field "risk" chunk
      | None => VUndefined
      end.
Proof.
  intros Hinput Hloading Hsentinel.
  destruct (handleSubmit_tracked reads ending st Hinput Hloading)
    as (stored & l & displayed & rest & more & Ha & _ & _ & Hrisk & _).
  exists stored. split; [exact Ha|].
  rewrite Hrisk, (handled_whole reads Hsentinel). reflexivity.
Qed.

(** X6: whatever the request resolves to, a submit leaves the earlier
    conversation as it was: the list of messages keeps its entries and
    only grows at its end, and no object or array that was in the store
    is changed. *)
Theorem turn_keeps_earlier_messages (fetch : Fetch) (st : State) :
  (exists added, messages (handleSubmit fetch st) = messages st ++ added) /\
  (forall i, i < length (objects (heap st)) ->
     objects (heap (handleSubmit fetch st)) !! i = objects (heap st) !! i) /\
  (forall i, i < length (arrays (heap st)) ->
     arrays (heap (handleSubmit fetch st)) !! i = arrays (heap st) !! i).
Proof.
  destruct (negb (truthy (trim (input st))) || isLoading st) eqn:Hguard.
  - unfold ChatInterface.handleSubmit. rewrite Hguard.
    split; [exists []; rewrite app_nil_r; reflexivity|]. split; reflexivity.
  - apply orb_false_elim in Hguard as [Hinput Hloading].
    apply negb_false_iff in Hinput.
    destruct (handleSubmit_accepted fetch st Hinput Hloading)
      as (l & rest & more & reply & Hm & _ & _ & Hobjs & Harrs & _).
    split; [eexists; exact Hm|]. split; [|exact Harrs].
    intros i Hi. rewrite Hobjs by lia. apply lookup_app_l, Hi.
Qed.

(** X7: a submit does nothing at all exactly when the input is empty or
    white space only, or a turn is under way. *)
Theorem submit_is_ignored_iff_blank_or_busy (fetch : Fetch) (st : State) :
  handleSubmit fetch st = st <-> all_space (input st) = true \/ isLoading st = true.
Proof.
  rewrite <- trim_blank. split.
  - intros Hsame.
    destruct (truthy (trim (input st))) eqn:Hinput; [|left; reflexivity].
    destruct (isLoading st) eqn:Hloading; [right; reflexivity|].
    destruct (handleSubmit_accepted fetch st Hinput Hloading)
      as (l & rest & more & reply & Hm & _).
    rewrite Hsame in Hm. apply (f_equal (@length _)) in Hm.
    rewrite length_app in Hm. cbn [length] in Hm. lia.
  - intros H. unfold ChatInterface.handleSubmit.
    destruct H as [-> | ->]; [reflexivity | rewrite orb_true_r; reflexivity].
Qed.

(** X8: a submit that passes the guard appends the question, with the
    text as typed, and after it a message of the assistant; the question
    is not overwritten while the answer is streamed; the input box ends
    empty and the page not loading, whatever the request resolves to. *)
Theorem accepted_submit_appends_question_and_reply (fetch : Fetch) (st : State) :
  truthy (trim (input st)) = true ->
  isLoading st = false ->
  exists q l rest reply,
    messages (handleSubmit fetch st) = messages st ++ q :: l :: rest /\
    objects (heap (handleSubmit fetch st)) !! q
    = Some (mkMessage user (input st) None VUndefined) /\
    objects (heap (handleSubmit fetch st)) !! l = Some reply /\
    role reply = assistant /\
    input (handleSubmit fetch st) = EmptyString /\
    isLoading (handleSubmit fetch st) = false.
Proof.
  intros Hinput Hloading.
  destruct (handleSubmit_accepted fetch st Hinput Hloading)
    as (l & rest & more & reply & Hm & Hl & Hrole & Hobjs & _ & Hin & Hload & _).
  exists (length (objects (heap st))), l, rest, reply.
  split; [exact Hm|]. split; [|auto].
  rewrite Hobjs by lia. apply list_lookup_middle. reflexivity.
Qed.


End Events.

(** An answer with two citations, the second after the last delta, and a
    verdict that is revised. *)
Definition cited_answer : list string :=
  [ data_line "{'type':'risk','risk':{'level':'high','description':'unchecked'}}"
    +:+ data_line "{'type':'citation','citation':{'file':'src/math.ts','lines':'1-3'}}";
    data_line "{'type':'content','content':'add returns the sum'}";
    data_line "{'type':'citation','citation':{'file':'src/sum.ts','lines':'7-9'}}"
    +:+ data_line "{'type':'risk','risk':{'level':'low','description':'grounded'}}"
    +:+ sentinel_line ].

Lemma citations_are_stored_in_stream_order_witness :
  exists stored,
    objects (heap (turn cited_answer Done)) !! 2 = Some stored /\
    match citations stored with
    | None => received_before_sentinel Json.parse "citation" (stream_text cited_answer) = []
    | Some c =>
        arrays (heap (turn cited_answer Done)) !! c
        = Some (map (field "citation")
                    (received_before_sentinel Json.parse "citation"
                                              (stream_text cited_answer))) /\
        received_before_sentinel Json.parse "citation" (stream_text cited_answer) <> []
    end.
Proof.
  apply (citations_are_stored_in_stream_order Json.parse cited_answer Done
           (fresh_chat "What does add do?")); vm_compute; reflexivity.
Defined.

Lemma shown_citations_are_all_or_none_witness :
  exists stored l displayed,
    objects (heap (turn cited_answer Done)) !! 2 = Some stored /\
    messages (turn cited_answer Done) !! 2 = Some l /\
    objects (heap (turn cited_answer Done)) !! l = Some displayed /\
    (citations displayed = None \/ citations displayed = citations stored).
Proof.
  apply (shown_citations_are_all_or_none Json.parse cited_answer Done
           (fresh_chat "What does add do?")); vm_compute; reflexivity.
Defined.

Lemma last_verdict_is_stored_witness :
  exists stored,
    objects (heap (turn cited_answer Done)) !! 2 = Some stored /\
    risk stored
    = match last (received_before_sentinel Json.parse "risk" (stream_text cited_answer)) with
      | Some chunk => field "risk" chunk
      | None => VUndefined
      end.
Proof.
  apply (last_verdict_is_stored Json.parse cited_answer Done
           (fresh_chat "What does add do?")); vm_compute; reflexivity.
Defined.

Lemma accepted_submit_appends_question_and_reply_witness :
  exists q l rest reply,
    messages (turn cited_answer (ReadFails TypeError)) = [0] ++ q :: l :: rest /\
    objects (heap (turn cited_answer (ReadFails TypeError))) !! q
    = Some (mkMessage user "What does add do?" None VUndefined) /\
    objects (heap (turn cited_answer (ReadFails TypeError))) !! l = Some reply /\
    role reply = assistant /\
    input (turn cited_answer (ReadFails TypeError)) = EmptyString /\
    isLoading (turn cited_answer (ReadFails TypeError)) = false.
Proof.
  apply (accepted_submit_appends_question_and_reply Json.parse
           (Response true (Some (cited_answer, ReadFails TypeError)))
           (fresh_chat "What does add do?")); vm_compute; reflexivity.
Defined.


End ChatTurnFacts.

(** * More of the rendering of an answer *)

Module MessageContentFacts.
Import Js JsString JsStringFacts ChatInterface ChatInterfaceFacts.

Fixpoint no_backquote (s : string) : bool :=
  match s with
  | EmptyString => true
  | String a s' => negb (Ascii.eqb a "`") && no_backquote s'
  end.

Fixpoint all_word (s : string) : bool :=
  match s with
  | EmptyString => true
  | String a s' => is_word a && all_word s'
  end.

(** Paragraphs and code blocks in turn, from the parts of the split:
    each paragraph holds its part as it is, each code block comes from a
    part that is a fence, a body that holds no fence, and a fence. *)
Inductive alternates : list string -> list Part -> Prop :=
| alternates_end text : alternates [text] [Paragraph text]
| alternates_block text body code language parts shown :
    find_fence body = None ->
    alternates parts shown ->
    alternates (text :: (fence +:+ body +:+ fence) :: parts)
               (Paragraph text :: CodeBlock code language :: shown).

(** *** The two steps of the scan *)

Lemma split_from_match (piece : string) (a : ascii) (s' matched rest : string) :
  match_fence (String a s') = Some (matched, rest) ->
  split_from piece (String a s') = piece :: matched :: split_from EmptyString rest.
Proof.
  intros H. rewrite split_from_equation_2.
  destruct (inspect (match_fence (String a s'))) as [[[m r]|] E].
  - rewrite split_from_clause_2_equation_1. congruence.
  - congruence.
Qed.

Lemma split_from_skip (piece : string) (a : ascii) (s' : string) :
  match_fence (String a s') = None ->
  split_from piece (String a s') = split_from (piece +:+ String a EmptyString) s'.
Proof.
  intros H. rewrite split_from_equation_2.
  destruct (inspect (match_fence (String a s'))) as [[[m r]|] E].
  - congruence.
  - apply split_from_clause_2_equation_2.
Qed.

Lemma prefix_fence_head (a : ascii) (s : string) :
  String.prefix fence (String a s) = true -> a = "`"%char.
Proof.
  change (String.prefix fence (String a s))
    with (if Ascii.ascii_dec "`" a then String.prefix "``" s else false).
  destruct (Ascii.ascii_dec "`" a) as [e|n]; [|discriminate].
  intros _. symmetry. exact e.
Qed.

Lemma prefix_fence_plain (a : ascii) (s : string) :
  Ascii.eqb a "`" = false -> String.prefix fence (String a s) = false.
Proof.
  intros H. destruct (String.prefix fence (String a s)) eqn:E; [|reflexivity].
  apply prefix_fence_head in E. subst a. discriminate.
Qed.

Lemma prefix_fence_app (s : string) : String.prefix fence (fence +:+ s) = true.
Proof.
  unfold fence. rewrite !append_cons, append_nil_l. destruct s; reflexivity.
Qed.

Lemma slice_fence_app (s : string) : slice 3 (fence +:+ s) = s.
Proof. unfold fence. rewrite !append_cons, append_nil_l. reflexivity. Qed.

Lemma prefix_app (p s r : string) :
  String.prefix p s = true -> String.prefix p (s +:+ r) = true.
Proof.
  revert s. induction p as [|a p IH]; intros s;
    [intros _; destruct (s +:+ r); reflexivity|].
  destruct s as [|b s]; [discriminate|]. rewrite append_cons. simpl.
  destruct (Ascii.ascii_dec a b); [apply IH | discriminate].
Qed.

(** *** Where the first fence is *)

Lemma find_fence_plain (code after : string) :
  no_backquote code = true ->
  find_fence (code +:+ fence +:+ after) = Some (code, after).
Proof.
  induction code as [|a code IH].
  - intros _. rewrite append_nil_l.
    pose proof (prefix_fence_app after) as Hp. pose proof (slice_fence_app after) as Hs.
    destruct (fence +:+ after) as [|b t] eqn:E; [discriminate|].
    cbn [find_fence]. rewrite Hp, Hs. reflexivity.
  - cbn [no_backquote]. intros H. apply andb_prop in H as [Ha Hc].
    apply negb_true_iff in Ha. rewrite append_cons. cbn [find_fence].
    rewrite (prefix_fence_plain a _ Ha), (IH Hc). reflexivity.
Qed.

Lemma find_fence_some (y z : string) : find_fence (y +:+ fence +:+ z) <> None.
Proof.
  induction y as [|a y IH].
  - rewrite append_nil_l.
    pose proof (prefix_fence_app z) as Hp.
    destruct (fence +:+ z) as [|b t] eqn:E; [discriminate|].
    cbn [find_fence]. rewrite Hp. discriminate.
  - rewrite append_cons. cbn [find_fence].
    destruct (String.prefix fence (String a (y +:+ fence +:+ z))); [discriminate|].
    destruct (find_fence (y +:+ fence +:+ z)) as [[b r]|]; [discriminate | exact IH].
Qed.

Lemma find_fence_suffix (x y : string) :
  find_fence (x +:+ y) = None -> find_fence y = None.
Proof.
  induction x as [|a x IH]; [rewrite append_nil_l; auto|].
  rewrite append_cons. cbn [find_fence].
  destruct (String.prefix fence (String a (x +:+ y))); [discriminate|].
  destruct (find_fence (x +:+ y)) as [[b r]|]; [discriminate|]. auto.
Qed.

Lemma find_fence_body (s body rest : string) :
  find_fence s = Some (body, rest) -> find_fence body = None.
Proof.
  revert body. induction s as [|a s IH]; intros body; [discriminate|].
  cbn [find_fence]. destruct (String.prefix fence (String a s)) eqn:E.
  - intros [= <- <-]. reflexivity.
  - destruct (find_fence s) as [[b r]|] eqn:F; [|discriminate].
    intros [= <- <-]. cbn [find_fence]. rewrite (IH b eq_refl).
    destruct (String.prefix fence (String a b)) eqn:E'; [|reflexivity].
    pose proof (find_fence_text s b r F) as Hs. subst s.
    pose proof (prefix_app fence (String a b) (fence +:+ r) E') as H.
    rewrite append_cons in H. congruence.
Qed.

(** *** The groups of a block *)

Lemma take_word_text (s w r : string) : take_word s = (w, r) -> s = w +:+ r.
Proof.
  revert w r. induction s as [|a s IH]; intros w r.
  - intros [= <- <-]. reflexivity.
  - cbn [take_word]. destruct (is_word a).
    + destruct (take_word s) as [w' r']. intros [= <- <-].
      rewrite append_cons, <- (IH w' r' eq_refl). reflexivity.
    + intros [= <- <-]. reflexivity.
Qed.

Lemma take_word_fence (z : string) : take_word (fence +:+ z) = (EmptyString, fence +:+ z).
Proof. unfold fence. rewrite !append_cons, append_nil_l. reflexivity. Qed.

Lemma take_word_app_fence (body z : string) :
  take_word (body +:+ fence +:+ z)
  = (fst (take_word body), snd (take_word body) +:+ fence +:+ z).
Proof.
  induction body as [|a body IH].
  - rewrite append_nil_l. apply take_word_fence.
  - rewrite append_cons. cbn [take_word]. destruct (is_word a).
    + rewrite IH. destruct (take_word body) as [w r]. reflexivity.
    + cbn [fst snd]. rewrite append_cons. reflexivity.
Qed.

Lemma take_word_all (lang rest : string) :
  all_word lang = true ->
  take_word (lang +:+ String "010" rest) = (lang, String "010" rest).
Proof.
  induction lang as [|a lang IH]; [intros _; rewrite append_nil_l; reflexivity|].
  cbn [all_word]. intros H. apply andb_prop in H as [Ha Hl].
  rewrite append_cons. cbn [take_word]. rewrite Ha, (IH Hl). reflexivity.
Qed.

Lemma fence_groups_none (part : string) :
  find_fence (slice 3 part) = None -> fence_groups part = None.
Proof.
  intros H. unfold fence_groups.
  destruct (take_word (slice 3 part)) as [w r1] eqn:E.
  apply take_word_text in E. rewrite E in H. apply find_fence_suffix in H.
  assert (H2 : find_fence match r1 with
                          | String a r => if Ascii.eqb a "010" then r else r1
                          | EmptyString => r1
                          end = None).
  { destruct r1 as [|a r]; [exact H|]. destruct (Ascii.eqb a "010"); [|exact H].
    apply (find_fence_suffix (String a EmptyString) r). exact H. }
  rewrite H2. reflexivity.
Qed.

Lemma fence_groups_block (body : string) :
  exists language code, fence_groups (fence +:+ body +:+ fence) = Some (language, code).
Proof.
  unfold fence_groups. rewrite slice_fence_app.
  replace (body +:+ fence) with (body +:+ fence +:+ EmptyString)
    by (rewrite append_nil_r; reflexivity).
  rewrite take_word_app_fence.
  destruct (take_word body) as [w r]. cbn [fst snd].
  assert (H : find_fence match r +:+ fence +:+ EmptyString with
                         | String a t =>
                             if Ascii.eqb a "010" then t else r +:+ fence +:+ EmptyString
                         | EmptyString => r +:+ fence +:+ EmptyString
                         end <> None).
  { destruct r as [|a r].
    - rewrite append_nil_l. unfold fence. rewrite !append_cons. cbn. discriminate.
    - rewrite append_cons. destruct (Ascii.eqb a "010").
      + apply find_fence_some.
      + rewrite <- append_cons. apply find_fence_some. }
  destruct (find_fence _) as [[code rest]|]; [eauto | congruence].
Qed.

(** *** The parts and what they show *)

Lemma slice_app (n : nat) (s r : string) :
  n <= String.length s -> slice n (s +:+ r) = slice n s +:+ r.
Proof.
  revert s. induction n as [|n IH]; intros s Hn; [reflexivity|].
  destruct s as [|a s]; [cbn in Hn; lia|].
  rewrite append_cons. cbn [slice]. apply IH. cbn in Hn. lia.
Qed.

Lemma append_snoc (piece : string) (a : ascii) (s : string) :
  (piece +:+ String a EmptyString) +:+ s = piece +:+ String a s.
Proof. rewrite append_assoc, append_cons, append_nil_l. reflexivity. Qed.

Lemma match_fence_block (s matched rest : string) :
  match_fence s = Some (matched, rest) ->
  exists body, matched = fence +:+ body +:+ fence /\ find_fence body = None.
Proof.
  unfold match_fence. destruct (String.prefix fence s); [|discriminate].
  destruct (find_fence (slice 3 s)) as [[b r]|] eqn:F; [|discriminate].
  intros [= <- <-]. exists b. split; [reflexivity|]. eapply find_fence_body, F.
Qed.

Lemma match_fence_prefix (s matched rest : string) :
  match_fence s = Some (matched, rest) -> String.prefix fence s = true.
Proof. unfold match_fence. destruct (String.prefix fence s); [reflexivity|discriminate]. Qed.

Lemma match_fence_none (s : string) :
  match_fence s = None -> String.prefix fence s = true ->
  find_fence (slice 3 s) = None.
Proof.
  unfold match_fence. intros H Hp. rewrite Hp in H.
  destruct (find_fence (slice 3 s)) as [[b r]|]; [discriminate|reflexivity].
Qed.

Lemma render_part_text (piece : string) :
  (String.prefix fence piece = true -> find_fence (slice 3 piece) = None) ->
  render_part piece = Paragraph piece.
Proof.
  intros H. unfold render_part, startsWith.
  destruct (String.prefix fence piece); [|reflexivity].
  rewrite (fence_groups_none piece (H eq_refl)). reflexivity.
Qed.

Lemma split_from_alternates (piece s : string) :
  (String.prefix fence (piece +:+ s) = true -> piece <> EmptyString ->
   find_fence (slice 3 (piece +:+ s)) = None) ->
  alternates (split_from piece s) (map render_part (split_from piece s)).
Proof.
  funelim (split_from piece s); intros Hinv.
  - rewrite append_nil_r in Hinv. cbn [map].
    rewrite render_part_text; [constructor|].
    intros Hp. apply Hinv; [exact Hp|]. intros ->. discriminate.
  - destruct (match_fence_block _ _ _ E) as (body & -> & Hbody).
    cbn [map]. destruct (fence_groups_block body) as (language & code & Hgroups).
    assert (Hblock : exists code language,
               render_part (fence +:+ body +:+ fence) = CodeBlock code language).
    { unfold render_part, startsWith. rewrite prefix_fence_app, Hgroups. eauto. }
    destruct Hblock as (code' & language' & ->).
    rewrite render_part_text.
    + constructor; [exact Hbody|]. apply H. intros _ Hne. congruence.
    + intros Hp. exfalso.
      assert (Hne : piece <> EmptyString) by (intros ->; discriminate).
      pose proof (Hinv (prefix_app _ _ _ Hp) Hne) as Hnone.
      rewrite slice_app in Hnone by (apply prefix_length in Hp; exact Hp).
      apply find_fence_suffix in Hnone.
      pose proof (match_fence_prefix _ _ _ E) as Ea.
      rewrite (prefix_slice fence _ Ea) in Hnone.
      apply (find_fence_some EmptyString (slice (String.length fence) (String a s'))).
      rewrite append_nil_l. exact Hnone.
  - apply H. rewrite append_snoc. intros Hp _.
    destruct piece as [|b piece].
    + rewrite append_nil_l in *. apply (match_fence_none _ E Hp).
    + apply Hinv; [exact Hp | discriminate].
Qed.

(** X10: for every answer, [MessageContent] shows paragraphs and code
    blocks in turn, from a paragraph to a paragraph; each paragraph holds
    a part of the split as it is, and each code block stands for a part
    that is one fenced block. *)
Theorem MessageContent_alternates (content : string) :
  alternates (split_code_fences content) (MessageContent content).
Proof.
  unfold MessageContent, split_code_fences. apply split_from_alternates.
  intros _ H. congruence.
Qed.

Lemma split_from_plain (piece before s : string) :
  no_backquote before = true ->
  split_from piece (before +:+ s) = split_from (piece +:+ before) s.
Proof.
  revert piece. induction before as [|a before IH]; intros piece.
  - intros _. rewrite append_nil_l, append_nil_r. reflexivity.
  - cbn [no_backquote]. intros H. apply andb_prop in H as [Ha Hb].
    apply negb_true_iff in Ha. rewrite append_cons, split_from_skip.
    + rewrite (IH _ Hb), append_snoc. reflexivity.
    + unfold match_fence. rewrite (prefix_fence_plain a _ Ha). reflexivity.
Qed.

Lemma no_backquote_prefix (s : string) :
  no_backquote s = true -> String.prefix fence s = false.
Proof.
  destruct s as [|a s]; [reflexivity|]. cbn [no_backquote]. intros H.
  apply andb_prop in H as [Ha _]. apply negb_true_iff in Ha.
  apply prefix_fence_plain, Ha.
Qed.

(** X11: an answer that is plain text, a fenced block with a language
    word on its fence line, and more text, is shown as a paragraph with
    the text as it is, a code block with the trimmed body of the block
    and its language ('text' when the fence line has no word), and what
    the rest of the answer is shown as. *)
Theorem MessageContent_fenced_block (before lang code after : string) :
  no_backquote before = true ->
  all_word lang = true ->
  no_backquote code = true ->
  MessageContent (before +:+ fence +:+ lang +:+ String "010" code +:+ fence +:+ after)
  = Paragraph before
      :: CodeBlock (trim code) (if truthy lang then lang else "text")
      :: MessageContent after.
Proof.
  intros Hbefore Hlang Hcode. unfold MessageContent, split_code_fences.
  rewrite (split_from_plain EmptyString before _ Hbefore), append_nil_l.
  pose proof (find_fence_plain code after Hcode) as Hfind.
  assert (Hmatch : match_fence (fence +:+ lang +:+ String "010" code +:+ fence +:+ after)
                   = Some (fence +:+ (lang +:+ String "010" code) +:+ fence, after)).
  { unfold match_fence. rewrite prefix_fence_app, slice_fence_app.
    pose proof (take_word_all lang (code +:+ fence +:+ after) Hlang) as Hw.
    assert (Hsplit : find_fence (lang +:+ String "010" (code +:+ fence +:+ after))
                     = Some (lang +:+ String "010" code, after)).
    { clear Hw. induction lang as [|a lang IH].
      - rewrite !append_nil_l. cbn [find_fence].
        rewrite prefix_fence_plain by reflexivity. rewrite Hfind. reflexivity.
      - cbn [all_word] in Hlang. apply andb_prop in Hlang as [Ha Hl].
        rewrite !append_cons. cbn [find_fence].
        rewrite prefix_fence_plain, (IH Hl); [reflexivity|].
        destruct (Ascii.eqb a "`") eqn:E; [|reflexivity].
        apply Ascii.eqb_eq in E. subst a. discriminate. }
    rewrite <- append_cons in Hsplit. rewrite Hsplit. reflexivity. }
  pose proof (prefix_fence_app (lang +:+ String "010" code +:+ fence +:+ after)) as Hp.
  destruct (fence +:+ lang +:+ String "010" code +:+ fence +:+ after) as [|a s'] eqn:Es;
    [discriminate|].
  rewrite (split_from_match before a s' _ _ Hmatch). cbn [map]. f_equal; [|f_equal].
  - apply render_part_text. rewrite (no_backquote_prefix before Hbefore). discriminate.
  - unfold render_part, startsWith. rewrite prefix_fence_app.
    unfold fence_groups. rewrite slice_fence_app, append_assoc, append_cons.
    rewrite (take_word_all lang _ Hlang). cbn [Ascii.eqb Bool.eqb].
    assert (Hcode' : find_fence (code +:+ fence) = Some (code, EmptyString)).
    { rewrite <- (append_nil_r fence). apply find_fence_plain, Hcode. }
    rewrite Hcode'. destruct lang; reflexivity.
Qed.

Lemma MessageContent_fenced_block_witness :
  MessageContent ("add is:" +:+ fence +:+ "ts" +:+ String "010" "return a + b"
                  +:+ fence +:+ " and no more")
  = Paragraph "add is:"
      :: CodeBlock (trim "return a + b") (if truthy "ts" then "ts" else "text")
      :: MessageContent " and no more".
Proof.
  apply (MessageContent_fenced_block "add is:" "ts" "return a + b" " and no more");
    reflexivity.
Defined.

End MessageContentFacts.

(** * More of the folder-structure page *)

Module VisualizerMore.
Import JsString Visualizer.

(** The nodes that have no node of type 'file' above them, root first. *)
Fixpoint reached (node : TreeNode) : list TreeNode :=
  match node with
  | mkTreeNode _ ty _ cs _ _ =>
      node :: if String.eqb ty "file" then []
              else match cs with
                   | None => []
                   | Some l => flat_map reached l
                   end
  end.

(** No [c] in [s]. *)
Fixpoint without (c : ascii) (s : string) : bool :=
  match s with
  | EmptyString => true
  | String a s' => negb (Ascii.eqb a c) && without c s'
  end.

(** *** The rows of the tree *)

(** [hay.includes(needle)] *)
Fixpoint includes (needle hay : string) : bool :=
  String.prefix needle hay
  || match hay with
     | EmptyString => false
     | String _ hay' => includes needle hay'
     end.

(** The test that [matchesSearch] and [hasMatchingChildren] apply to a
    node: its name or its path holds the term, letter case apart. *)
Definition matches (searchTerm : string) (node : TreeNode) : bool :=
  includes (toLowerCase searchTerm) (toLowerCase (name node))
  || includes (toLowerCase searchTerm) (toLowerCase (path node)).

Definition matchesSearch (searchTerm : string) (node : TreeNode) : bool :=
  if truthy searchTerm then matches searchTerm node else true.

(** [node.children?.some(...)]: [undefined], which is falsy, when the
    node has no [children]. *)
Definition hasMatchingChildren (searchTerm : string) (node : TreeNode) : bool :=
  match children node with
  | Some l => existsb (matches searchTerm) l
  | None => false
  end.

(** [l.map((child, idx) => f idx child)], the results put end to end. *)
Definition flat_mapi {A B} (f : nat -> A -> list B) : nat -> list A -> list B :=
  fix go (idx : nat) (l : list A) : list B :=
    match l with
    | [] => []
    | x :: rest => f idx x ++ go (S idx) rest
    end.

(** The rows [TreeNodeComponent] puts on the page for [node], in document
    order.  A component instance is named by its position: the indices
    that lead to it from the root, whose number is its [depth];
    [isOpen] gives the state of each instance. *)
Fixpoint TreeNodeComponent (isOpen : list nat -> bool) (searchTerm : string)
         (position : list nat) (node : TreeNode) : list (list nat * TreeNode) :=
  match node with
  | mkTreeNode _ ty _ cs _ _ =>
      if truthy searchTerm && negb (matchesSearch searchTerm node)
         && negb (hasMatchingChildren searchTerm node)
      then []
      else
        (position, node)
          :: if String.eqb ty "folder" && isOpen position then
               match cs with
               | Some l =>
                   flat_mapi (fun idx child =>
                                TreeNodeComponent isOpen searchTerm
                                                  (position ++ [idx]) child)
                             0 l
               | None => []
               end
             else []
  end.

(** [useState(depth < 2)]: the state of every instance on the first
    render. *)
Definition initially_open (position : list nat) : bool := (length position <? 2)%nat.

(** [treeData ? countNodes(treeData) : { files: 0, folders: 0 }] *)
Definition stats (treeData : option TreeNode) : Counts :=
  match treeData with
  | Some tree => countNodes tree
  | None => mkCounts 0 0
  end.

(** Every node is of type 'file' or 'folder', as the interface
    [TreeNode] says. *)
Definition typed (node : TreeNode) : bool :=
  forallb (fun n => String.eqb (type n) "file" || String.eqb (type n) "folder")
          (nodes node).

End VisualizerMore.

Module VisualizerMoreFacts.
Import JsString JsStringFacts Visualizer VisualizerFacts VisualizerMore.

Lemma countNodes_reached (t : TreeNode) :
  files (countNodes t) = length (List.filter is_file (reached t)) /\
  folders (countNodes t)
  = length (List.filter (fun n => negb (is_file n)) (reached t)).
Proof.
  induction t as [n ty p cs sz lang IH] using TreeNode_ind.
  set (root := mkTreeNode n ty p cs sz lang) in *.
  assert (Hfile : is_file root = String.eqb ty "file") by reflexivity.
  cbn [countNodes reached root List.filter]. fold root. rewrite !Hfile.
  destruct (String.eqb ty "file") eqn:Hty; cbn [negb]; [split; reflexivity|].
  destruct cs as [l|]; cbn [length]; [|split; reflexivity].
  pose proof (fold_counts (fun c => length (List.filter is_file (reached c)))
                (fun c => length (List.filter (fun n => negb (is_file n)) (reached c)))
                l (mkCounts 0 1) IH) as Hfold.
  unfold add_counts in Hfold. rewrite Hfold. cbn [files folders].
  rewrite !filter_flat_map_length. split; reflexivity.
Qed.

(** X12: for every tree, [countNodes] counts the nodes that have no
    'file' node above them, and no other: those of type 'file' as files,
    the others as folders. *)
Theorem countNodes_counts_reached (t : TreeNode) :
  files (countNodes t) = length (List.filter is_file (reached t)) /\
  folders (countNodes t)
  = length (List.filter (fun n => negb (is_file n)) (reached t)).
Proof. apply countNodes_reached. Qed.

(** *** The extension of a file name *)

Lemma split_without (c : ascii) (s : string) :
  without c s = true -> split c s = [s].
Proof.
  induction s as [|a s IH]; [reflexivity|].
  cbn [without split]. destruct (Ascii.eqb a c); [discriminate|].
  cbn [negb andb]. intros H. rewrite (IH H). reflexivity.
Qed.

Lemma last_split_app (c : ascii) (s t : string) :
  last (split c (s +:+ String c t)) = last (split c t).
Proof.
  assert (H : exists h l, split c (s +:+ String c t) = h :: l /\ l <> [] /\
                          last l = last (split c t)).
  { induction s as [|a s (h & l & E & Hne & Hlast)].
    - rewrite append_nil_l. cbn [split]. rewrite Ascii.eqb_refl.
      exists EmptyString, (split c t). split; [reflexivity|].
      split; [apply split_not_nil | reflexivity].
    - rewrite append_cons. cbn [split]. rewrite E.
      assert (Hl : last (h :: l) = last (split c t)).
      { destruct l as [|x l]; [congruence|]. exact Hlast. }
      destruct (Ascii.eqb a c).
      + exists EmptyString, (h :: l). split; [reflexivity|]. split; [discriminate|exact Hl].
      + exists (String a h), l. auto. }
  destruct H as (h & l & -> & Hne & Hlast).
  destruct l as [|x l]; [congruence|]. exact Hlast.
Qed.

Lemma lower_ascii_idempotent (a : ascii) : lower_ascii (lower_ascii a) = lower_ascii a.
Proof. destruct a as [[] [] [] [] [] [] [] []]; reflexivity. Qed.

Lemma lower_ascii_dot (a : ascii) : Ascii.eqb (lower_ascii a) "." = Ascii.eqb a ".".
Proof. destruct a as [[] [] [] [] [] [] [] []]; reflexivity. Qed.

Lemma toLowerCase_idempotent (s : string) : toLowerCase (toLowerCase s) = toLowerCase s.
Proof.
  induction s as [|a s IH]; [reflexivity|].
  cbn [toLowerCase]. rewrite lower_ascii_idempotent, IH. reflexivity.
Qed.

Lemma without_dot_toLowerCase (s : string) :
  without "." (toLowerCase s) = without "." s.
Proof.
  induction s as [|a s IH]; [reflexivity|].
  cbn [toLowerCase without]. rewrite lower_ascii_dot, IH. reflexivity.
Qed.

Lemma extension_without_dot (name : string) :
  without "." name = true -> extension name = Some (toLowerCase name).
Proof. intros H. unfold extension, pop. rewrite (split_without _ _ H). reflexivity. Qed.

Lemma extension_last_segment (stem ext : string) :
  without "." ext = true ->
  extension (stem +:+ String "." ext) = Some (toLowerCase ext).
Proof.
  intros H. unfold extension, pop. cbn [fst].
  rewrite last_split_app, (split_without _ _ H). reflexivity.
Qed.

(** X13: the tag of a file name depends on the text after its last dot
    only, and not on the case of its letters; a name with no dot is
    looked up whole, as if it were an extension. *)
Theorem getLanguageFromFile_last_segment (stem ext : string) :
  without "." ext = true ->
  getLanguageFromFile (Some (stem +:+ String "." ext)) = getLanguageFromFile (Some ext) /\
  getLanguageFromFile (Some (toLowerCase ext)) = getLanguageFromFile (Some ext).
Proof.
  intros H.
  assert (Hname : forall name,
             without "." name = true ->
             getLanguageFromFile (Some name)
             = match literal_get extMap (toLowerCase name) with
               | Some v => if prop_truthy v then v else Tag "text"
               | None => Tag "text"
               end).
  { intros name Hn. unfold getLanguageFromFile.
    destruct name as [|a name]; [reflexivity|].
    cbn [truthy negb]. rewrite (extension_without_dot _ Hn). reflexivity. }
  split.
  - rewrite (Hname ext H). unfold getLanguageFromFile.
    assert (Htruthy : truthy (stem +:+ String "." ext) = true)
      by (destruct stem; reflexivity).
    rewrite Htruthy. cbn [negb]. rewrite (extension_last_segment stem ext H).
    destruct (toLowerCase ext) eqn:E; reflexivity.
  - rewrite (Hname ext H), (Hname (toLowerCase ext)), toLowerCase_idempotent;
      [reflexivity|]. rewrite without_dot_toLowerCase. exact H.
Qed.

Lemma getLanguageFromFile_last_segment_witness :
  getLanguageFromFile (Some ("src/app.module" +:+ String "." "TSX"))
  = getLanguageFromFile (Some "TSX") /\
  getLanguageFromFile (Some (toLowerCase "TSX")) = getLanguageFromFile (Some "TSX").
Proof.
  apply (getLanguageFromFile_last_segment "src/app.module" "TSX"). reflexivity.
Defined.

(** *** The rows of the tree *)

Lemma in_flat_mapi {A B} (f : nat -> A -> list B) (k : nat) (l : list A) (x : B) :
  In x (flat_mapi f k l) <-> exists i c, l !! i = Some c /\ In x (f (k + i) c).
Proof.
  revert k. induction l as [|a l IH]; intros k.
  - split; [intros [] | intros (i & c & H & _); destruct i; discriminate].
  - cbn [flat_mapi]. rewrite in_app_iff. fold (flat_mapi f (S k) l). rewrite IH. split.
    + intros [H|(i & c & Hc & H)].
      * exists 0, a. rewrite Nat.add_0_r. auto.
      * exists (S i), c. rewrite Nat.add_succ_r. auto.
    + intros (i & c & Hc & H). destruct i as [|i].
      * injection Hc as <-. rewrite Nat.add_0_r in H. auto.
      * right. exists i, c. rewrite Nat.add_succ_r in H. auto.
Qed.

Lemma TreeNodeComponent_rows (isOpen : list nat -> bool) (searchTerm : string)
      (tree : TreeNode) (start position : list nat) (node : TreeNode) :
  In (position, node) (TreeNodeComponent isOpen searchTerm start tree) ->
  (truthy searchTerm = true ->
   matches searchTerm node = true \/
   exists child, In child (child_list node) /\ matches searchTerm child = true) /\
  (position = start /\ node = tree \/
   exists above idx parent,
     position = above ++ [idx] /\
     In (above, parent) (TreeNodeComponent isOpen searchTerm start tree) /\
     child_list parent !! idx = Some node /\
     type parent = "folder" /\
     isOpen above = true).
Proof.
  revert start. induction tree as [n ty p cs sz lang IH] using TreeNode_ind.
  intros start. set (root := mkTreeNode n ty p cs sz lang) in *.
  cbn [TreeNodeComponent root]. fold root.
  destruct (truthy searchTerm && negb (matchesSearch searchTerm root)
            && negb (hasMatchingChildren searchTerm root)) eqn:Hhide; [intros []|].
  intros [Hhead|Hbelow].
  - injection Hhead as <- <-. split; [|left; auto].
    intros Hterm. rewrite Hterm in Hhide. unfold matchesSearch in Hhide.
    rewrite Hterm in Hhide. cbn [andb] in Hhide.
    destruct (matches searchTerm root); [left; reflexivity|]. right.
    cbn [negb andb] in Hhide. apply negb_false_iff in Hhide.
    unfold hasMatchingChildren in Hhide. unfold child_list.
    destruct (children root) as [l|]; [|discriminate].
    apply existsb_exists in Hhide as (child & Hin & Hm). eauto.
  - destruct (String.eqb ty "folder" && isOpen start) eqn:Hopen; [|destruct Hbelow].
    apply andb_prop in Hopen as [Hty Hopen]. apply String.eqb_eq in Hty.
    destruct cs as [l|]; [|destruct Hbelow].
    apply in_flat_mapi in Hbelow as (i & c & Hc & Hin). cbn [Nat.add] in Hin.
    rewrite List.Forall_forall in IH.
    assert (Hcl : In c l) by (apply list_elem_of_In; eapply list_elem_of_lookup_2, Hc).
    destruct (IH c Hcl (start ++ [i]) Hin) as [Hmatch Hparent].
    split; [exact Hmatch|]. right.
    assert (Hsub : forall row, In row (TreeNodeComponent isOpen searchTerm (start ++ [i]) c) ->
                               In row (flat_mapi
                                         (fun idx child =>
                                            TreeNodeComponent isOpen searchTerm
                                                              (start ++ [idx]) child) 0 l)).
    { intros row Hrow. apply in_flat_mapi. exists i, c. auto. }
    destruct Hparent as [[-> ->]|(above & idx & parent & -> & Hp & Hchild & Htype & Hstate)].
    + exists start, i, root. split; [reflexivity|]. split; [left; reflexivity|].
      split; [exact Hc|]. split; [exact Hty | exact Hopen].
    + exists above, idx, parent. split; [reflexivity|].
      split; [right; apply Hsub, Hp|]. auto.
Qed.

(** X14: with a search term, every row that the tree shows is a node
    that matches the term or has a child that does; and every row other
    than the root hangs under a row that is shown, is a folder and is
    open.  So a match is not shown when the folder it is in neither
    matches nor has a matching child of its own. *)
Theorem shown_rows_match_and_hang_together
        (isOpen : list nat -> bool) (searchTerm : string) (tree : TreeNode)
        (position : list nat) (node : TreeNode) :
  In (position, node) (TreeNodeComponent isOpen searchTerm [] tree) ->
  (truthy searchTerm = true ->
   matches searchTerm node = true \/
   exists child, In child (child_list node) /\ matches searchTerm child = true) /\
  (position = [] /\ node = tree \/
   exists above idx parent,
     position = above ++ [idx] /\
     In (above, parent) (TreeNodeComponent isOpen searchTerm [] tree) /\
     child_list parent !! idx = Some node /\
     type parent = "folder" /\
     isOpen above = true).
Proof. apply TreeNodeComponent_rows. Qed.

Lemma typed_child n ty p l sz lang c :
  typed (mkTreeNode n ty p (Some l) sz lang) = true -> In c l -> typed c = true.
Proof.
  unfold typed. rewrite !forallb_forall. intros H Hc x Hx.
  apply H. simpl. right. apply in_flat_map. exists c. split; assumption.
Qed.

Lemma map_snd_flat_mapi {A B C} (f : nat -> A -> list (B * C)) (g : A -> list C)
      (k : nat) (l : list A) :
  Forall (fun a => forall i, map snd (f i a) = g a) l ->
  map snd (flat_mapi f k l) = flat_map g l.
Proof.
  intros H. revert k. induction H as [|a l Ha _ IH]; intros k; [reflexivity|].
  cbn [flat_mapi flat_map]. rewrite map_app, Ha. f_equal. apply IH.
Qed.

Lemma open_rows_reached (tree : TreeNode) (position : list nat) :
  typed tree = true ->
  map snd (TreeNodeComponent (fun _ => true) EmptyString position tree) = reached tree.
Proof.
  revert position. induction tree as [n ty p cs sz lang IH] using TreeNode_ind.
  intros position Htyped. cbn [TreeNodeComponent reached truthy andb map snd].
  f_equal.
  assert (Hty : String.eqb ty "file" || String.eqb ty "folder" = true).
  { unfold typed in Htyped. cbn [nodes forallb type] in Htyped.
    apply andb_prop in Htyped as [H _]. exact H. }
  destruct (String.eqb_spec ty "file") as [->|Hfile]; [reflexivity|].
  cbn [orb] in Hty. rewrite Hty, andb_true_r.
  destruct cs as [l|]; [|reflexivity].
  apply map_snd_flat_mapi. rewrite List.Forall_forall in *.
  intros c Hc i. apply (IH c Hc). eapply typed_child; eauto.
Qed.

Lemma filter_length_split {A} (f : A -> bool) (l : list A) :
  length (List.filter f l) + length (List.filter (fun x => negb (f x)) l) = length l.
Proof.
  induction l as [|a l IH]; [reflexivity|].
  cbn [List.filter]. destruct (f a); cbn [negb length]; lia.
Qed.

(** X25: on a tree whose nodes are all of type 'file' or 'folder', the
    numbers of files and folders the page shows add up to the number of
    rows of the tree when every folder is open and nothing is searched
    for, and those rows are the nodes that have no file above them. *)
Theorem stats_count_the_rows_of_the_open_tree (tree : TreeNode) :
  typed tree = true ->
  map snd (TreeNodeComponent (fun _ => true) EmptyString [] tree) = reached tree /\
  files (stats (Some tree)) + folders (stats (Some tree))
  = length (TreeNodeComponent (fun _ => true) EmptyString [] tree).
Proof.
  intros Htyped. pose proof (open_rows_reached tree [] Htyped) as Hrows.
  split; [exact Hrows|].
  destruct (countNodes_reached tree) as [Hf Hd]. cbn [stats].
  rewrite Hf, Hd, filter_length_split, <- Hrows, length_map. reflexivity.
Qed.

(** A tree with a file two folders down. *)
Definition src_folder : TreeNode :=
  mkTreeNode "src" "folder" "src"
    (Some [ mkTreeNode "lib" "folder" "src/lib"
              (Some [ mkTreeNode "parser.ts" "file" "src/lib/parser.ts" None None None ])
              None None ])
    None None.

Definition deep_tree : TreeNode :=
  mkTreeNode "repo" "folder" EmptyString
    (Some [ src_folder; mkTreeNode "README.md" "file" "README.md" None None None ])
    None None.

Lemma stats_count_the_rows_of_the_open_tree_witness :
  map snd (TreeNodeComponent (fun _ => true) EmptyString [] deep_tree) = reached deep_tree /\
  files (stats (Some deep_tree)) + folders (stats (Some deep_tree))
  = length (TreeNodeComponent (fun _ => true) EmptyString [] deep_tree).
Proof. apply (stats_count_the_rows_of_the_open_tree deep_tree). reflexivity. Defined.

Lemma shown_rows_match_and_hang_together_witness :
  (truthy "src" = true ->
   matches "src" src_folder = true \/
   exists child, In child (child_list src_folder) /\ matches "src" child = true) /\
  ([0] = [] /\ src_folder = deep_tree \/
   exists above idx parent,
     [0] = above ++ [idx] /\
     In (above, parent) (TreeNodeComponent initially_open "src" [] deep_tree) /\
     child_list parent !! idx = Some src_folder /\
     type parent = "folder" /\
     initially_open above = true).
Proof.
  apply (shown_rows_match_and_hang_together initially_open "src" deep_tree [0]).
  vm_compute. right. left. reflexivity.
Defined.

(** A file two folders down matches 'parser'; with every folder open, no
    row is shown for that term, as neither the root nor a child of it
    matches.  For 'src' the root is shown, which has a matching child,
    and the rows below it, whose paths match. *)
Example deep_match_is_hidden :
  map fst (TreeNodeComponent (fun _ => true) "parser" [] deep_tree) = [] /\
  map fst (TreeNodeComponent (fun _ => true) "src" [] deep_tree)
  = [[]; [0]; [0; 0]; [0; 0; 0]].
Proof. split; vm_compute; reflexivity. Qed.

End VisualizerMoreFacts.

(** * The API client, the sign-in pages, the rest of the repositories
      page, and the navigation *)

(** ** [lib/api.ts] *)

Module Api.
Import Js.

(** The second argument of a call of [apiCall]. *)
Record RequestInit : Type := mkRequestInit {
  init_method : option string;
  init_headers : option (gmap string string);
  init_body : option Value
}.

(** What [fetch] is called with.  The body is the value that
    [JSON.stringify] is given, without the properties it leaves out. *)
Record Request : Type := mkRequest {
  url : string;
  method : option string;
  headers : gmap string string;
  body : option Value
}.

(** The browser, as far as the client touches it: local storage, an
    assignment to [window.location.href], the error console. *)
Record Browser : Type := mkBrowser {
  localStorage : gmap string string;
  location_href : option string;
  console_error : list string
}.

(** [localStorage.setItem(key, v)]: the value is stored as text, and the
    call throws when it cannot be converted.  The store is taken to have
    room for it. *)
Definition setItem (key : string) (v : Value) (b : Browser) : Completion Browser :=
  let! stored := toString v in
  Normal (mkBrowser (<[key := stored]> (localStorage b)) (location_href b)
                    (console_error b)).

Definition removeItem (key : string) (b : Browser) : Browser :=
  mkBrowser (delete key (localStorage b)) (location_href b) (console_error b).

Definition set_location (href : string) (b : Browser) : Browser :=
  mkBrowser (localStorage b) (Some href) (console_error b).

Definition log_error (line : string) (b : Browser) : Browser :=
  mkBrowser (localStorage b) (location_href b) (console_error b ++ [line]).

(** [process.env.NEXT_PUBLIC_API_URL || 'http://localhost:8000'] *)
Definition API_BASE_URL (NEXT_PUBLIC_API_URL : option string) : string :=
  match NEXT_PUBLIC_API_URL with
  | Some u => if JsString.truthy u then u else "http://localhost:8000"
  | None => "http://localhost:8000"
  end.

(** An object literal under [JSON.stringify]: a property whose value is
    [undefined] is left out. *)
Definition json_object (fields : list (string * Value)) : Value :=
  VObject (List.filter (fun kv => match snd kv with VUndefined => false | _ => true end)
                       fields).

(** An optional string argument. *)
Definition optional (x : option string) : Value :=
  match x with Some s => VString s | None => VUndefined end.

Section Client.

(** The base address, and local storage where there is a [window]. *)
Variable base : string.
Variable window : option (gmap string string).

Definition apiCall (endpoint : string) (options : option RequestInit) : Request :=
  mkRequest (base +:+ endpoint)
            (options ≫= init_method)
            (default ∅ (options ≫= init_headers)
               ∪ {["Content-Type" := "application/json"]})
            (options ≫= init_body).

(** [typeof window !== 'undefined' ? localStorage.getItem('access_token') : null] *)
Definition token : option string := window ≫= (fun storage => storage !! "access_token").

(** [token ? { Authorization: `Bearer ${token}` } : {}] *)
Definition authorization : gmap string string :=
  match token with
  | Some t => if JsString.truthy t then {["Authorization" := "Bearer " +:+ t]} else ∅
  | None => ∅
  end.

Definition authApi_register (name email password : string) : Request :=
  apiCall "/api/v1/auth/register"
          (Some (mkRequestInit (Some "POST") None
                   (Some (json_object [ ("name", VString name); ("email", VString email);
                                        ("password", VString password) ])))).

Definition authApi_login (email password : string) : Request :=
  apiCall "/api/v1/auth/login"
          (Some (mkRequestInit (Some "POST") None
                   (Some (json_object [ ("email", VString email);
                                        ("password", VString password) ])))).

Definition authApi_refresh (refreshToken : string) : Request :=
  apiCall "/api/v1/auth/refresh"
          (Some (mkRequestInit (Some "POST") None
                   (Some (json_object [ ("refresh_token", VString refreshToken) ])))).

Definition reposApi_getAll : Request :=
  apiCall "/api/v1/repos/" (Some (mkRequestInit None (Some authorization) None)).

Definition reposApi_create (name : string) (url description local_path : option string)
  : Request :=
  apiCall "/api/v1/repos/"
          (Some (mkRequestInit (Some "POST") (Some authorization)
                   (Some (json_object [ ("name", VString name); ("url", optional url);
                                        ("description", optional description);
                                        ("local_path", optional local_path) ])))).

Definition reposApi_delete (id : Z) : Request :=
  apiCall ("/api/v1/repos/" +:+ ChatPage.toString id +:+ "/")
          (Some (mkRequestInit (Some "DELETE") (Some authorization) None)).

Definition reposApi_getStructure (id : Z) : Request :=
  apiCall ("/api/v1/repos/" +:+ ChatPage.toString id +:+ "/structure/")
          (Some (mkRequestInit None (Some authorization) None)).

(** [chatApi.stream] calls [fetch] itself; [repoId] and [conversationId]
    are numbers or [undefined]. *)
Definition chatApi_stream (message : string) (repoId conversationId : Value) : Request :=
  mkRequest (base +:+ "/api/v1/chat/stream") (Some "POST")
            (authorization ∪ {["Content-Type" := "application/json"]})
            (Some (json_object [ ("message", VString message); ("repo_id", repoId);
                                 ("conversation_id", conversationId) ])).

End Client.

End Api.

(** ** The sign-in and sign-up pages *)

(** [v || 'text'] *)
Definition or_text (v : Js.Value) (text : string) : Js.Value :=
  if Js.truthy v then v else Js.VString text.

(** ** What React puts on the page for a value *)

Module React.
Import Js.

(** A value put in JSX as a child: the texts it renders, in order.  A
    boolean, [null], [undefined] and the empty string render nothing, a
    string or a number renders its text, an array its items; an object is
    refused, and the render throws: [None]. *)
Fixpoint child (v : Value) : option (list string) :=
  match v with
  | VUndefined | VNull | VBool _ => Some []
  | VNumber shown => Some [shown]
  | VString s => Some (if JsString.truthy s then [s] else [])
  | VArray items =>
      (fix each (l : list Value) : option (list string) :=
         match l with
         | [] => Some []
         | item :: rest =>
             match child item, each rest with
             | Some texts, Some more => Some (texts ++ more)
             | _, _ => None
             end
         end) items
  | VObject _ => None
  end.

(** What the pages render for their error state,
    [{error && (<div ...>{error}</div>)}]: the box with the state as its
    child when the state is truthy, else the state itself. *)
Inductive ErrorBox : Type :=
| NoBox (texts : list string)
| Box (texts : list string).

Definition error_box (error : Value) : option ErrorBox :=
  if truthy error then option_map Box (child error)
  else option_map NoBox (child error).

End React.

Module LoginPage.
Import Js Api.

Record State : Type := mkState {
  email : string;
  password : string;
  isLoading : bool;
  error : Value
}.

(** What [authApi.login] resolves to; [json] is what [response.json()]
    gives, [None] when it rejects. *)
Inductive Response : Type :=
| Rejects (e : Exn)
| Responds (ok : bool) (json : option Value).

Definition setError (v : Value) (st : State) : State :=
  mkState (email st) (password st) (isLoading st) v.

Definition setIsLoading (b : bool) (st : State) : State :=
  mkState (email st) (password st) b (error st).

(** The [try] block: the state and the browser it reaches, and the
    exception that ended it, if any. *)
Definition try_block (response : Response) (st : State) (w : Browser)
  : State * Browser * option Exn :=
  match response with
  | Rejects e => (st, w, Some e)
  | Responds true json =>
      match json with
      | None => (st, w, Some SyntaxError)
      | Some data =>
          match get data "access_token" with
          | Throw e => (st, w, Some e)
          | Normal access_token =>
              match setItem "access_token" access_token w with
              | Throw e => (st, w, Some e)
              | Normal w1 =>
                  match get data "refresh_token" with
                  | Throw e => (st, w1, Some e)
                  | Normal refresh_token =>
                      match setItem "refresh_token" refresh_token w1 with
                      | Throw e => (st, w1, Some e)
                      | Normal w2 => (st, set_location "/chat" w2, None)
                      end
                  end
              end
          end
      end
  | Responds false json =>
      match json with
      | None => (st, w, Some SyntaxError)
      | Some data =>
          match get data "detail" with
          | Throw e => (st, w, Some e)
          | Normal detail => (setError (or_text detail "Login failed") st, w, None)
          end
      end
  end.

Definition handleSubmit (response : Response) (st : State) (w : Browser)
  : State * Browser :=
  let st1 := setError (VString EmptyString) (setIsLoading true st) in
  match try_block response st1 w with
  | (st2, w2, None) => (setIsLoading false st2, w2)
  | (st2, w2, Some e) =>
      (setIsLoading false (setError (VString "Network error. Please try again.") st2),
       log_error "Login failed:" w2)
  end.

End LoginPage.

Module RegisterPage.
Import Js Api.

Record State : Type := mkState {
  name : string;
  email : string;
  password : string;
  isLoading : bool;
  error : Value
}.

Inductive Response : Type :=
| Rejects (e : Exn)
| Responds (ok : bool) (json : option Value).

Definition setError (v : Value) (st : State) : State :=
  mkState (name st) (email st) (password st) (isLoading st) v.

Definition setIsLoading (b : bool) (st : State) : State :=
  mkState (name st) (email st) (password st) b (error st).

Definition try_block (response : Response) (st : State) (w : Browser)
  : State * Browser * option Exn :=
  match response with
  | Rejects e => (st, w, Some e)
  | Responds true _ => (st, set_location "/login" w, None)
  | Responds false json =>
      match json with
      | None => (st, w, Some SyntaxError)
      | Some data =>
          match get data "detail" with
          | Throw e => (st, w, Some e)
          | Normal detail => (setError (or_text detail "Registration failed") st, w, None)
          end
      end
  end.

Definition handleSubmit (response : Response) (st : State) (w : Browser)
  : State * Browser :=
  let st1 := setError (VString EmptyString) (setIsLoading true st) in
  match try_block response st1 w with
  | (st2, w2, None) => (setIsLoading false st2, w2)
  | (st2, w2, Some e) =>
      (setIsLoading false (setError (VString "Network error. Please try again.") st2),
       log_error "Registration failed:" w2)
  end.

End RegisterPage.

(** ** The rest of the repositories page *)

Module ReposPageForm.
Import Js Api.

(** The component state: the part [deleteRepo] works on, and the rest. *)
Record Page : Type := mkPage {
  listing : ReposPage.State;
  isLoading : bool;
  showCreateModal : bool;
  newRepoName : string;
  newRepoUrl : string;
  newRepoPath : string;
  error : Value;
  isCreating : bool
}.

Definition setRepos (l : list ReposPage.Repository) (p : Page) : Page :=
  mkPage (ReposPage.mkState l (ReposPage.deletingId (listing p))
                            (ReposPage.alerts (listing p)))
         (isLoading p) (showCreateModal p) (newRepoName p) (newRepoUrl p)
         (newRepoPath p) (error p) (isCreating p).

Definition setIsLoading (b : bool) (p : Page) : Page :=
  mkPage (listing p) b (showCreateModal p) (newRepoName p) (newRepoUrl p)
         (newRepoPath p) (error p) (isCreating p).

Definition setError (v : Value) (p : Page) : Page :=
  mkPage (listing p) (isLoading p) (showCreateModal p) (newRepoName p) (newRepoUrl p)
         (newRepoPath p) v (isCreating p).

Definition setIsCreating (b : bool) (p : Page) : Page :=
  mkPage (listing p) (isLoading p) (showCreateModal p) (newRepoName p) (newRepoUrl p)
         (newRepoPath p) (error p) b.

(** [setShowCreateModal(false); setNewRepoName(''); setNewRepoUrl('');
    setNewRepoPath('')] *)
Definition close_and_clear (p : Page) : Page :=
  mkPage (listing p) (isLoading p) false EmptyString EmptyString EmptyString
         (error p) (isCreating p).

(** What [reposApi.getAll] resolves to, with the body read as the list
    it is typed as. *)
Inductive GetAllResponse : Type :=
| GetAllRejects
| Listed (data : option (list ReposPage.Repository))  (* ok; [None]: unreadable *)
| Status (code : Z).                                    (* not ok *)

Definition fetchRepos (response : GetAllResponse) (p : Page) (w : Browser)
  : Page * Browser :=
  let (p1, w1) :=
    match response with
    | Listed (Some data) => (setRepos data p, w)
    | Listed None | GetAllRejects => (p, log_error "Failed to fetch repos:" w)
    | Status code =>
        if Z.eqb code 401 then
          (p, set_location "/login"
                (removeItem "refresh_token"
                   (removeItem "access_token"
                      (log_error "Unauthorized - redirecting to login" w))))
        else (p, log_error "Failed to fetch repos:" w)
    end in
  (setIsLoading false p1, w1).

(** [x || undefined] for a string. *)
Definition or_undefined (s : string) : option string :=
  if JsString.truthy s then Some s else None.

(** The request [createRepo] sends, when it sends one. *)
Definition createRepo_request (base : string) (window : option (gmap string string))
           (p : Page) : option Request :=
  if negb (JsString.truthy (newRepoName p)) then None
  else Some (reposApi_create base window (newRepoName p) (or_undefined (newRepoUrl p))
                             None (or_undefined (newRepoPath p))).

(** What [reposApi.create] resolves to. *)
Inductive CreateResponse : Type :=
| CreateRejects
| Created (newRepo : option ReposPage.Repository)   (* ok; [None]: unreadable *)
| Refused (json : option Value).                    (* not ok *)

(** [createRepo].  [repos] is a constant of the render in which the
    handler was made: [captured] is the list of that render, and
    [setRepos] is given the new repository put before it, whatever the
    list of the page is when the answer comes. *)
Definition createRepo (response : CreateResponse)
           (captured : list ReposPage.Repository) (p : Page) (w : Browser)
  : Page * Browser :=
  if negb (JsString.truthy (newRepoName p)) then (p, w)
  else
    let p1 := setIsCreating true (setError (VString EmptyString) p) in
    let failed :=
      (setError (VString "Network error. Please try again.") p1,
       log_error "Failed to create repo:" w) in
    let (p2, w2) :=
      match response with
      | CreateRejects => failed
      | Created (Some newRepo) =>
          (close_and_clear (setRepos (newRepo :: captured) p1), w)
      | Created None => failed
      | Refused None => failed
      | Refused (Some data) =>
          match get data "detail" with
          | Throw _ => failed
          | Normal detail => (setError (or_text detail "Failed to create repository") p1, w)
          end
      end in
    (setIsCreating false p2, w2).

(** The error box of the dialog,
    [{showCreateModal && (... {error && (<div ...>...{error}</div>)} ...)}]:
    nothing while the dialog is closed. *)
Definition dialog_error_box (p : Page) : option React.ErrorBox :=
  if showCreateModal p then React.error_box (error p) else Some (React.NoBox []).

(** [deleteRepo] on the page. *)
Definition deleteRepo (confirmed : bool) (response : ReposPage.DeleteResponse)
           (repoId : Z) (captured : list ReposPage.Repository) (p : Page) : Page :=
  mkPage (ReposPage.deleteRepo confirmed response repoId captured (listing p))
         (isLoading p) (showCreateModal p) (newRepoName p) (newRepoUrl p)
         (newRepoPath p) (error p) (isCreating p).

End ReposPageForm.

(** ** The navigation of the dashboard *)

Module DashboardLayout.

Record Item : Type := mkItem { name : string; href : string }.

Definition navigation : list Item :=
  [ mkItem "Chat" "/chat"; mkItem "Repositories" "/repos";
    mkItem "Visualizer" "/visualizer"; mkItem "Settings" "/settings" ].

(** [pathname.startsWith(item.href)] *)
Definition isActive (pathname : string) (item : Item) : bool :=
  JsString.startsWith (href item) pathname.

(** The items shown as active. *)
Definition active (pathname : string) : list Item :=
  List.filter (isActive pathname) navigation.

End DashboardLayout.

(** ** Facts about the API client and the pages that use it *)

Module ClientFacts.
Import Js Api.

Lemma or_text_truthy (v : Value) (text : string) :
  JsString.truthy text = true -> truthy (or_text v text) = true.
Proof.
  intros H. unfold or_text. destruct (truthy v) eqn:E; [exact E | exact H].
Qed.

(** The calls that are made on behalf of the signed-in user. *)
Inductive protected (base : string) (window : option (gmap string string))
  : Request -> Prop :=
| protected_getAll : protected base window (reposApi_getAll base window)
| protected_create name url description local_path :
    protected base window (reposApi_create base window name url description local_path)
| protected_delete id : protected base window (reposApi_delete base window id)
| protected_getStructure id :
    protected base window (reposApi_getStructure base window id)
| protected_stream message repoId conversationId :
    protected base window (chatApi_stream base window message repoId conversationId).

(** The calls of the sign-in and sign-up pages. *)
Inductive public (base : string) : Request -> Prop :=
| public_register name email password :
    public base (authApi_register base name email password)
| public_login email password : public base (authApi_login base email password)
| public_refresh refreshToken : public base (authApi_refresh base refreshToken).

(** The value of the Authorization header that goes with a token. *)
Definition bearer (stored : option string) : option string :=
  match stored with
  | Some t => if JsString.truthy t then Some ("Bearer " +:+ t) else None
  | None => None
  end.

Lemma authorization_lookup (window : option (gmap string string)) (key : string) :
  authorization window !! key
  = if decide (key = "Authorization") then bearer (token window) else None.
Proof.
  unfold authorization, bearer. destruct (token window) as [t|].
  - destruct (JsString.truthy t).
    + rewrite lookup_singleton. destruct (decide (key = "Authorization")) as [->|Hne].
      * rewrite decide_True by reflexivity. reflexivity.
      * rewrite decide_False by congruence. reflexivity.
    + rewrite lookup_empty. destruct (decide _); reflexivity.
  - rewrite lookup_empty. destruct (decide _); reflexivity.
Qed.

Lemma merged_lookup (given : gmap string string) (key : string) :
  (given ∪ {["Content-Type" := "application/json"]}) !! key
  = match given !! key with
    | Some v => Some v
    | None => if decide (key = "Content-Type") then Some "application/json" else None
    end.
Proof.
  rewrite lookup_union, lookup_singleton. destruct (given !! key) as [v|].
  - destruct (decide ("Content-Type" = key)); reflexivity.
  - destruct (decide ("Content-Type" = key)) as [<-|Hne].
    + rewrite decide_True by reflexivity. reflexivity.
    + rewrite decide_False by congruence. reflexivity.
Qed.

Lemma protected_headers (base : string) (window : option (gmap string string))
      (request : Request) (key : string) :
  protected base window request ->
  headers request !! key
  = if decide (key = "Authorization") then bearer (token window)
    else if decide (key = "Content-Type") then Some "application/json" else None.
Proof.
  intros H.
  assert (Hmerged : (authorization window ∪ {["Content-Type" := "application/json"]}) !! key
                    = if decide (key = "Authorization") then bearer (token window)
                      else if decide (key = "Content-Type") then Some "application/json"
                           else None).
  { rewrite merged_lookup, authorization_lookup.
    destruct (decide (key = "Authorization")) as [->|Hne].
    - destruct (bearer (token window)); [reflexivity|].
      rewrite decide_False by discriminate. reflexivity.
    - reflexivity. }
  destruct H; exact Hmerged.
Qed.

(** X15: every call made for the signed-in user carries the same two
    headers and no other: the content type of JSON, and an Authorization
    header with the stored access token, which is left out when there is
    no window, no stored token, or an empty one.  The calls of the sign-in
    and sign-up pages carry the content type only. *)
Theorem requests_carry_the_stored_token
        (base : string) (window : option (gmap string string)) (request : Request) :
  (protected base window request ->
   headers request
   = match bearer (token window) with
     | Some value => {["Authorization" := value; "Content-Type" := "application/json"]}
     | None => {["Content-Type" := "application/json"]}
     end) /\
  (public base request -> headers request = {["Content-Type" := "application/json"]}).
Proof.
  split.
  - intros H. apply map_eq. intros key. rewrite (protected_headers _ _ _ key H).
    destruct (bearer (token window)) as [value|].
    + rewrite lookup_insert, lookup_singleton.
      destruct (decide (key = "Authorization")) as [->|Hne].
      * rewrite decide_True by reflexivity. reflexivity.
      * rewrite (decide_False (P := "Authorization" = key)) by congruence.
        destruct (decide (key = "Content-Type")) as [->|Hne'].
        -- rewrite decide_True by reflexivity. reflexivity.
        -- rewrite decide_False by congruence. reflexivity.
    + rewrite lookup_singleton.
      destruct (decide (key = "Authorization")) as [->|Hne].
      * rewrite decide_False by discriminate. reflexivity.
      * destruct (decide (key = "Content-Type")) as [->|Hne'].
        -- rewrite decide_True by reflexivity. reflexivity.
        -- rewrite decide_False by congruence. reflexivity.
  - intros H. destruct H; cbn [headers apiCall authApi_register authApi_login
                                authApi_refresh mbind option_bind init_headers default];
      apply (left_id ∅ (∪)).
Qed.

Lemma requests_carry_the_stored_token_witness :
  headers (reposApi_delete "http://localhost:8000"
                           (Some {["access_token" := "abc"; "theme" := "dark"]}) 7)
  = {["Authorization" := "Bearer abc"; "Content-Type" := "application/json"]}.
Proof.
  pose proof (proj1 (requests_carry_the_stored_token
                       "http://localhost:8000"
                       (Some {["access_token" := "abc"; "theme" := "dark"]})
                       (reposApi_delete "http://localhost:8000"
                          (Some {["access_token" := "abc"; "theme" := "dark"]}) 7))
                (protected_delete _ _ 7)) as H.
  replace (bearer (token (Some {["access_token" := "abc"; "theme" := "dark"]})))
    with (Some "Bearer abc") in H by (vm_compute; reflexivity).
  exact H.
Defined.

(** *** Signing in *)

(** The field of a value that is not [null] or [undefined]. *)
Definition part (name : string) (data : Value) : Value :=
  match get data name with
  | Normal v => v
  | Throw _ => VUndefined
  end.

Definition network_error : Value := VString "Network error. Please try again.".

(** What the error state becomes for a response that is not ok, from its
    body: the detail or the text of the page, and the network error when
    the body cannot be read or is [null]. *)
Definition refusal (fallback : string) (json : option Value) : Value :=
  match json with
  | Some data => if nullish data then network_error else or_text (part "detail" data) fallback
  | None => network_error
  end.

Lemma get_part (data : Value) (name : string) :
  nullish data = false -> get data name = Normal (part name data).
Proof. unfold part. destruct data; try discriminate; reflexivity. Qed.

Lemma get_throws (data : Value) (name : string) :
  nullish data = true -> get data name = Throw TypeError.
Proof. destruct data; try discriminate; reflexivity. Qed.

Lemma refusal_truthy (fallback : string) (json : option Value) :
  JsString.truthy fallback = true -> truthy (refusal fallback json) = true.
Proof.
  intros H. unfold refusal. destruct json as [data|]; [|reflexivity].
  destruct (nullish data); [reflexivity|]. apply or_text_truthy, H.
Qed.

Lemma error_box_truthy (error : Value) :
  truthy error = true ->
  React.error_box error = option_map React.Box (React.child error).
Proof. intros H. unfold React.error_box. rewrite H. reflexivity. Qed.

(** A response that signs the user in: ok, with a body that can be read
    and is not [null], and whose two tokens can be stored as text. *)
Definition signs_in (response : LoginPage.Response) : bool :=
  match response with
  | LoginPage.Responds true (Some data) =>
      negb (nullish data)
      && converts (part "access_token" data)
      && converts (part "refresh_token" data)
  | _ => false
  end.

(** The field of a body. *)
Definition body_field (name : string) (response : LoginPage.Response) : Value :=
  match response with
  | LoginPage.Responds _ (Some data) => part name data
  | _ => VUndefined
  end.




(** X17: a login that does not sign the user in (the request fails, the
    response is not ok, its body cannot be read or is null, or a token
    cannot be stored as text) leaves the page where it is, never writes
    the refresh token, and writes no key at all unless the access token
    could be stored and the refresh token could not.  The error state
    becomes the detail of a response that is not ok, 'Login failed' when
    that is missing or falsy, and the network error in every other case;
    it is truthy, so the error box is rendered, with that state as its
    child.  The page ends not loading. *)
Theorem failed_login_stays_on_the_page
        (response : LoginPage.Response) (st : LoginPage.State) (w : Browser) :
  signs_in response = false ->
  location_href (snd (LoginPage.handleSubmit response st w)) = location_href w /\
  LoginPage.isLoading (fst (LoginPage.handleSubmit response st w)) = false /\
  (forall key, key <> "access_token" ->
     localStorage (snd (LoginPage.handleSubmit response st w)) !! key
     = localStorage w !! key) /\
  (localStorage (snd (LoginPage.handleSubmit response st w)) = localStorage w \/
   toString (body_field "refresh_token" response) = Throw TypeError /\
   localStorage (snd (LoginPage.handleSubmit response st w))
   = <["access_token" := text (body_field "access_token" response)]> (localStorage w)) /\
  LoginPage.error (fst (LoginPage.handleSubmit response st w))
  = match response with
    | LoginPage.Responds false json => refusal "Login failed" json
    | _ => network_error
    end /\
  React.error_box (LoginPage.error (fst (LoginPage.handleSubmit response st w)))
  = option_map React.Box
               (React.child (LoginPage.error (fst (LoginPage.handleSubmit response st w)))).
Proof.
  intros H.
  assert (Hmain :
            location_href (snd (LoginPage.handleSubmit response st w)) = location_href w /\
            LoginPage.isLoading (fst (LoginPage.handleSubmit response st w)) = false /\
            (localStorage (snd (LoginPage.handleSubmit response st w)) = localStorage w \/
             toString (body_field "refresh_token" response) = Throw TypeError /\
             localStorage (snd (LoginPage.handleSubmit response st w))
             = <["access_token" := text (body_field "access_token" response)]>
                 (localStorage w)) /\
            LoginPage.error (fst (LoginPage.handleSubmit response st w))
            = match response with
              | LoginPage.Responds false json => refusal "Login failed" json
              | _ => network_error
              end).
  { destruct response as [e|[|] [data|]];
      try (split; [reflexivity|]; split; [reflexivity|]; split; [left|]; reflexivity).
    - cbn [signs_in] in H. unfold LoginPage.handleSubmit, LoginPage.try_block, setItem.
      cbn [body_field].
      destruct (nullish data) eqn:Hn.
      { rewrite (get_throws data _ Hn).
        split; [reflexivity|]. split; [reflexivity|]. split; [left|]; reflexivity. }
      rewrite !(get_part data _ Hn).
      destruct (converts (part "access_token" data)) eqn:Ha.
      + cbn [negb andb] in H.
        assert (Hta : toString (part "access_token" data)
                      = Normal (text (part "access_token" data)))
          by (unfold toString; rewrite Ha; reflexivity).
        assert (Htr : toString (part "refresh_token" data) = Throw TypeError)
          by (unfold toString; rewrite H; reflexivity).
        rewrite Hta. cbn [bind]. rewrite Htr. cbn [bind fst snd].
        split; [reflexivity|]. split; [reflexivity|]. split; [right|]; auto.
      + assert (Hta : toString (part "access_token" data) = Throw TypeError)
          by (unfold toString; rewrite Ha; reflexivity).
        rewrite Hta.
        split; [reflexivity|]. split; [reflexivity|]. split; [left|]; reflexivity.
    - unfold LoginPage.handleSubmit, LoginPage.try_block, refusal.
      destruct (nullish data) eqn:Hn.
      { rewrite (get_throws data _ Hn).
        split; [reflexivity|]. split; [reflexivity|]. split; [left|]; reflexivity. }
      rewrite (get_part data _ Hn).
      split; [reflexivity|]. split; [reflexivity|]. split; [left|]; reflexivity. }
  destruct Hmain as (Hloc & Hload & Hstore & Herror).
  split; [exact Hloc|]. split; [exact Hload|]. split.
  { intros key Hkey. destruct Hstore as [->|[_ ->]]; [reflexivity|].
    apply lookup_insert_ne. congruence. }
  split; [exact Hstore|]. split; [exact Herror|].
  apply error_box_truthy. rewrite Herror.
  destruct response as [e|[|] json]; try reflexivity.
  apply refusal_truthy. reflexivity.
Qed.

Lemma failed_login_stays_on_the_page_witness :
  LoginPage.error
    (fst (LoginPage.handleSubmit
            (LoginPage.Responds false
               (Some (VObject [("detail", VString "Invalid credentials")])))
            (LoginPage.mkState "a@b.c" "secret" false (VString EmptyString))
            (mkBrowser {["theme" := "dark"]} None [])))
  = refusal "Login failed" (Some (VObject [("detail", VString "Invalid credentials")])) /\
  React.error_box
    (LoginPage.error
       (fst (LoginPage.handleSubmit
               (LoginPage.Responds false
                  (Some (VObject [("detail", VString "Invalid credentials")])))
               (LoginPage.mkState "a@b.c" "secret" false (VString EmptyString))
               (mkBrowser {["theme" := "dark"]} None []))))
  = Some (React.Box ["Invalid credentials"]).
Proof.
  destruct (failed_login_stays_on_the_page
              (LoginPage.Responds false
                 (Some (VObject [("detail", VString "Invalid credentials")])))
              (LoginPage.mkState "a@b.c" "secret" false (VString EmptyString))
              (mkBrowser {["theme" := "dark"]} None []) eq_refl)
    as (_ & _ & _ & _ & Herror & Hbox).
  split; [exact Herror|]. rewrite Hbox, Herror. reflexivity.
Defined.

(** A token that cannot be stored: the first is written, the second
    throws, and the login fails with the network error. *)
Example login_with_a_token_that_is_an_object :
  LoginPage.handleSubmit
    (LoginPage.Responds true
       (Some (VObject [("access_token", VString "abc");
                       ("refresh_token", VObject [("toString", VNumber "1")])])))
    (LoginPage.mkState "a@b.c" "secret" false (VString EmptyString))
    (mkBrowser ∅ None [])
  = (LoginPage.mkState "a@b.c" "secret" false network_error,
     mkBrowser {["access_token" := "abc"]} None ["Login failed:"]).
Proof. reflexivity. Qed.

(** A refusal whose detail is a list of objects, as a validation error
    is: the state is that list, and the render of the box throws. *)
Example detail_that_is_a_list_of_objects :
  React.error_box
    (refusal "Login failed"
             (Some (VObject [("detail",
                              VArray [VObject [("msg", VString "field required")]])])))
  = None.
Proof. reflexivity. Qed.

(** X18: signing up goes to the login page exactly when the response is
    ok, and then the error state is empty and nothing is rendered for it.
    In every other case the page stays; the error state becomes the
    detail of a response that is not ok, 'Registration failed' when that
    is missing or falsy, and the network error when the request fails or
    the body cannot be read or is null; it is truthy, so the error box is
    rendered, with that state as its child.  Local storage is never
    written, and the page ends not loading. *)
Theorem register_redirects_iff_ok
        (response : RegisterPage.Response) (st : RegisterPage.State) (w : Browser) :
  match response with
  | RegisterPage.Responds true _ =>
      location_href (snd (RegisterPage.handleSubmit response st w)) = Some "/login" /\
      RegisterPage.error (fst (RegisterPage.handleSubmit response st w))
      = VString EmptyString /\
      React.error_box (RegisterPage.error (fst (RegisterPage.handleSubmit response st w)))
      = Some (React.NoBox [])
  | RegisterPage.Responds false json =>
      location_href (snd (RegisterPage.handleSubmit response st w)) = location_href w /\
      RegisterPage.error (fst (RegisterPage.handleSubmit response st w))
      = refusal "Registration failed" json /\
      React.error_box (RegisterPage.error (fst (RegisterPage.handleSubmit response st w)))
      = option_map React.Box (React.child (refusal "Registration failed" json))
  | RegisterPage.Rejects _ =>
      location_href (snd (RegisterPage.handleSubmit response st w)) = location_href w /\
      RegisterPage.error (fst (RegisterPage.handleSubmit response st w)) = network_error /\
      React.error_box (RegisterPage.error (fst (RegisterPage.handleSubmit response st w)))
      = Some (React.Box ["Network error. Please try again."])
  end /\
  localStorage (snd (RegisterPage.handleSubmit response st w)) = localStorage w /\
  RegisterPage.isLoading (fst (RegisterPage.handleSubmit response st w)) = false.
Proof.
  destruct response as [e|[|] [data|]]; try (repeat split; reflexivity).
  unfold RegisterPage.handleSubmit, RegisterPage.try_block, refusal.
  destruct (nullish data) eqn:Hn.
  { rewrite (get_throws data _ Hn). repeat split; reflexivity. }
  rewrite (get_part data _ Hn). cbn [fst snd].
  split; [|split; reflexivity]. split; [reflexivity|]. split; [reflexivity|].
  cbn [RegisterPage.error RegisterPage.setError RegisterPage.setIsLoading].
  apply error_box_truthy, or_text_truthy. reflexivity.
Qed.

(** *** The repositories page *)

Import ReposPageForm.

(** X19: a list request that is answered with status 401 removes both
    tokens from local storage, keeps every other key, and goes to the
    login page; no call made for the user afterwards carries an
    Authorization header.  Any other outcome leaves local storage and the
    location as they were.  The page ends not loading in every case. *)
Theorem unauthorized_fetch_signs_out
        (response : GetAllResponse) (p : Page) (w : Browser) :
  (response = Status 401 ->
   localStorage (snd (fetchRepos response p w))
   = delete "refresh_token" (delete "access_token" (localStorage w)) /\
   location_href (snd (fetchRepos response p w)) = Some "/login" /\
   listing (fst (fetchRepos response p w)) = listing p /\
   forall base request,
     protected base (Some (localStorage (snd (fetchRepos response p w)))) request ->
     headers request !! "Authorization" = None) /\
  (response <> Status 401 ->
   localStorage (snd (fetchRepos response p w)) = localStorage w /\
   location_href (snd (fetchRepos response p w)) = location_href w) /\
  isLoading (fst (fetchRepos response p w)) = false.
Proof.
  split; [|split].
  - intros ->. cbn. repeat (split; [reflexivity|]).
    intros base request H. rewrite (protected_headers _ _ _ "Authorization" H).
    rewrite decide_True by reflexivity. unfold bearer, token.
    cbn [mbind option_bind]. rewrite lookup_delete_ne by discriminate.
    rewrite lookup_delete_eq. reflexivity.
  - intros Hne. destruct response as [|[data|]|code]; try (split; reflexivity).
    unfold fetchRepos. destruct (Z.eqb_spec code 401) as [->|Hcode]; [congruence|].
    split; reflexivity.
  - destruct response as [|[data|]|code]; try reflexivity.
    unfold fetchRepos. destruct (Z.eqb code 401); reflexivity.
Qed.

(** X20: a repository that is created and then deleted, the delete being
    asked from the render that shows the list with the new repository:
    the list becomes the new repository before the list that [createRepo]
    had captured, and then that captured list again, when no repository
    in it had the id of the new one.  When [createRepo] was made in the
    render that shows the list of the page, the list is as it was. *)
Theorem create_then_delete_restores_the_list
        (newRepo : ReposPage.Repository) (captured : list ReposPage.Repository)
        (p : Page) (w : Browser) :
  JsString.truthy (newRepoName p) = true ->
  Forall (fun r => ReposPage.id r <> ReposPage.id newRepo) captured ->
  ReposPage.repos (listing (fst (createRepo (Created (Some newRepo)) captured p w)))
  = newRepo :: captured /\
  ReposPage.repos
    (listing (deleteRepo true ReposPage.Ok (ReposPage.id newRepo)
                (ReposPage.repos
                   (listing (fst (createRepo (Created (Some newRepo)) captured p w))))
                (fst (createRepo (Created (Some newRepo)) captured p w))))
  = captured /\
  (captured = ReposPage.repos (listing p) ->
   ReposPage.repos
     (listing (deleteRepo true ReposPage.Ok (ReposPage.id newRepo)
                 (ReposPage.repos
                    (listing (fst (createRepo (Created (Some newRepo)) captured p w))))
                 (fst (createRepo (Created (Some newRepo)) captured p w))))
   = ReposPage.repos (listing p)).
Proof.
  intros Hname Hfresh.
  assert (Hboth :
            ReposPage.repos
              (listing (fst (createRepo (Created (Some newRepo)) captured p w)))
            = newRepo :: captured /\
            ReposPage.repos
              (listing (deleteRepo true ReposPage.Ok (ReposPage.id newRepo)
                          (ReposPage.repos
                             (listing (fst (createRepo (Created (Some newRepo))
                                                       captured p w))))
                          (fst (createRepo (Created (Some newRepo)) captured p w))))
            = captured).
  { unfold createRepo. rewrite Hname. cbn.
    split; [reflexivity|]. rewrite Z.eqb_refl. cbn [negb].
    induction Hfresh as [|r l Hr _ IH]; [reflexivity|].
    cbn [List.filter]. destruct (Z.eqb_spec (ReposPage.id r) (ReposPage.id newRepo));
      [contradiction|]. cbn [negb]. f_equal. exact IH. }
  destruct Hboth as [Hcreated Hdeleted].
  split; [exact Hcreated|]. split; [exact Hdeleted|].
  intros <-. exact Hdeleted.
Qed.

Lemma create_then_delete_restores_the_list_witness :
  ReposPage.repos
    (listing (fst (createRepo
                     (Created (Some (ReposPageFacts.repo 3 "docs")))
                     [ReposPageFacts.repo 1 "api"; ReposPageFacts.repo 2 "web"]
                     (mkPage (ReposPage.mkState [ReposPageFacts.repo 1 "api";
                                                 ReposPageFacts.repo 2 "web"] None [])
                             false true "docs" EmptyString "/srv/docs"
                             (VString EmptyString) false)
                     (mkBrowser ∅ None []))))
  = [ReposPageFacts.repo 3 "docs"; ReposPageFacts.repo 1 "api"; ReposPageFacts.repo 2 "web"].
Proof.
  apply (create_then_delete_restores_the_list
           (ReposPageFacts.repo 3 "docs")
           [ReposPageFacts.repo 1 "api"; ReposPageFacts.repo 2 "web"]
           (mkPage (ReposPage.mkState [ReposPageFacts.repo 1 "api";
                                       ReposPageFacts.repo 2 "web"] None [])
                   false true "docs" EmptyString "/srv/docs" (VString EmptyString) false)
           (mkBrowser ∅ None [])); [reflexivity|].
  repeat constructor; discriminate.
Defined.

(** A create that was asked from an earlier render puts back what that
    render listed: a repository deleted while the request was under way
    returns. *)
Example create_from_an_earlier_render :
  ReposPage.repos
    (listing (fst (createRepo
                     (Created (Some (ReposPageFacts.repo 3 "docs")))
                     [ReposPageFacts.repo 1 "api"; ReposPageFacts.repo 2 "web"]
                     (mkPage (ReposPage.mkState [ReposPageFacts.repo 2 "web"] None [])
                             false true "docs" EmptyString "/srv/docs"
                             (VString EmptyString) false)
                     (mkBrowser ∅ None []))))
  = [ReposPageFacts.repo 3 "docs"; ReposPageFacts.repo 1 "api"; ReposPageFacts.repo 2 "web"].
Proof. reflexivity. Qed.

(** X21: with a name typed in, [createRepo] either puts a repository in
    the list or sets an error, never both.  For an ok response whose body
    can be read, the list becomes that repository before the captured
    list, the error state is empty, nothing is rendered for it, the
    dialog is closed and its fields are emptied.  In every other case the
    list is not changed and the dialog stays as it was with what was
    typed; the error state becomes the detail of a response that is not
    ok, 'Failed to create repository' when that is missing or falsy, and
    the network error when the request fails or the body cannot be read
    or is null, also the body of an ok response; it is truthy, so while
    the dialog is open the error box is rendered with that state as its
    child.  The page ends not creating.  With no name typed in, nothing
    happens. *)
Theorem create_lists_a_repository_or_sets_an_error
        (response : CreateResponse) (captured : list ReposPage.Repository)
        (p : Page) (w : Browser) :
  (JsString.truthy (newRepoName p) = false ->
   createRepo response captured p w = (p, w)) /\
  (JsString.truthy (newRepoName p) = true ->
   isCreating (fst (createRepo response captured p w)) = false /\
   match response with
   | Created (Some newRepo) =>
       ReposPage.repos (listing (fst (createRepo response captured p w)))
       = newRepo :: captured /\
       error (fst (createRepo response captured p w)) = VString EmptyString /\
       dialog_error_box (fst (createRepo response captured p w))
       = Some (React.NoBox []) /\
       showCreateModal (fst (createRepo response captured p w)) = false /\
       newRepoName (fst (createRepo response captured p w)) = EmptyString /\
       newRepoUrl (fst (createRepo response captured p w)) = EmptyString /\
       newRepoPath (fst (createRepo response captured p w)) = EmptyString
   | _ =>
       listing (fst (createRepo response captured p w)) = listing p /\
       error (fst (createRepo response captured p w))
       = match response with
         | Refused json => refusal "Failed to create repository" json
         | _ => network_error
         end /\
       truthy (error (fst (createRepo response captured p w))) = true /\
       dialog_error_box (fst (createRepo response captured p w))
       = (if showCreateModal p
          then option_map React.Box
                          (React.child (error (fst (createRepo response captured p w))))
          else Some (React.NoBox [])) /\
       showCreateModal (fst (createRepo response captured p w)) = showCreateModal p /\
       newRepoName (fst (createRepo response captured p w)) = newRepoName p /\
       newRepoUrl (fst (createRepo response captured p w)) = newRepoUrl p /\
       newRepoPath (fst (createRepo response captured p w)) = newRepoPath p
   end).
Proof.
  split; intros Hname; unfold createRepo; rewrite Hname; [reflexivity|].
  cbn [negb].
  assert (Hbox : forall q : Page,
             truthy (error q) = true ->
             dialog_error_box q
             = (if showCreateModal q
                then option_map React.Box (React.child (error q))
                else Some (React.NoBox []))).
  { intros q Hq. unfold dialog_error_box.
    destruct (showCreateModal q); [apply error_box_truthy, Hq | reflexivity]. }
  destruct response as [|[newRepo|]|[data|]];
    try (split; [reflexivity|]; split; [reflexivity|]; split; [reflexivity|];
         split; [reflexivity|]; split; [|repeat split; reflexivity];
         rewrite Hbox by reflexivity; reflexivity);
    try (repeat split; reflexivity).
  unfold refusal. destruct (nullish data) eqn:Hn.
  { rewrite (get_throws data _ Hn).
    split; [reflexivity|]. split; [reflexivity|]. split; [reflexivity|].
    split; [reflexivity|]. split; [|repeat split; reflexivity].
    rewrite Hbox by reflexivity. reflexivity. }
  rewrite (get_part data _ Hn). cbn [fst].
  split; [reflexivity|]. split; [reflexivity|]. split; [reflexivity|].
  assert (Htruthy : truthy (or_text (part "detail" data) "Failed to create repository")
                    = true) by (apply or_text_truthy; reflexivity).
  split; [exact Htruthy|]. split; [|repeat split; reflexivity].
  rewrite Hbox by exact Htruthy. reflexivity.
Qed.

Lemma create_lists_a_repository_or_sets_an_error_witness :
  dialog_error_box
    (fst (createRepo
            (Refused (Some (VObject [("detail", VString "Path not found")])))
            []
            (mkPage (ReposPage.mkState [] None []) false true "docs"
                    EmptyString "/srv/docs" (VString EmptyString) false)
            (mkBrowser ∅ None [])))
  = Some (React.Box ["Path not found"]).
Proof.
  destruct (proj2 (create_lists_a_repository_or_sets_an_error
                     (Refused (Some (VObject [("detail", VString "Path not found")])))
                     []
                     (mkPage (ReposPage.mkState [] None []) false true "docs"
                             EmptyString "/srv/docs" (VString EmptyString) false)
                     (mkBrowser ∅ None [])) eq_refl)
    as (_ & _ & _ & _ & Hbox & _).
  rewrite Hbox. reflexivity.
Defined.

(** X22: the request of [createRepo] names the fields that are filled in
    and no other: the name, the address and the path when they are not
    empty; a description is never sent. *)
Theorem create_request_names_the_filled_fields
        (base : string) (window : option (gmap string string)) (p : Page) :
  JsString.truthy (newRepoName p) = true ->
  exists request sent,
    createRepo_request base window p = Some request /\
    url request = base +:+ "/api/v1/repos/" /\
    method request = Some "POST" /\
    body request = Some (VObject sent) /\
    assoc "name" sent = Some (VString (newRepoName p)) /\
    assoc "url" sent
    = (if JsString.truthy (newRepoUrl p) then Some (VString (newRepoUrl p)) else None) /\
    assoc "local_path" sent
    = (if JsString.truthy (newRepoPath p) then Some (VString (newRepoPath p)) else None) /\
    forall key, key <> "name" -> key <> "url" -> key <> "local_path" ->
                assoc key sent = None.
Proof.
  intros Hname. unfold createRepo_request. rewrite Hname. cbn [negb].
  eexists. eexists. split; [reflexivity|].
  unfold reposApi_create, apiCall, json_object, or_undefined.
  cbn [url method body mbind option_bind init_method init_body].
  split; [reflexivity|]. split; [reflexivity|]. split; [reflexivity|].
  destruct (JsString.truthy (newRepoUrl p)), (JsString.truthy (newRepoPath p));
    cbn [List.filter snd optional];
    (split; [reflexivity|]); (split; [reflexivity|]); (split; [reflexivity|]);
    intros key H1 H2 H3; cbn [assoc];
    repeat match goal with
           | |- context [String.eqb ?a key] =>
               destruct (String.eqb_spec a key); [congruence|]
           end; reflexivity.
Qed.

Lemma create_request_names_the_filled_fields_witness :
  exists request sent,
    createRepo_request "http://localhost:8000" None
      (mkPage (ReposPage.mkState [] None []) false true "docs"
              EmptyString "/srv/docs" (VString EmptyString) false)
    = Some request /\
    url request = "http://localhost:8000" +:+ "/api/v1/repos/" /\
    method request = Some "POST" /\
    body request = Some (VObject sent) /\
    assoc "name" sent = Some (VString "docs") /\
    assoc "url" sent = None /\
    assoc "local_path" sent = Some (VString "/srv/docs") /\
    forall key, key <> "name" -> key <> "url" -> key <> "local_path" ->
                assoc key sent = None.
Proof.
  apply (create_request_names_the_filled_fields
           "http://localhost:8000" None
           (mkPage (ReposPage.mkState [] None []) false true "docs"
                   EmptyString "/srv/docs" (VString EmptyString) false)).
  reflexivity.
Defined.

End ClientFacts.

(** ** Facts about the navigation and the chat page *)

Module NavigationFacts.
Import JsString JsStringFacts DashboardLayout.

Lemma active_under (item : Item) (rest : string) :
  In item navigation -> active (href item +:+ rest) = [item].
Proof.
  intros [<-|[<-|[<-|[<-|[]]]]]; destruct rest; vm_compute; reflexivity.
Qed.

(** X23: for every path, at most one item of the navigation is shown as
    active; a path that goes on from the address of an item (the address
    itself, or a page below it) shows that item and no other. *)
Theorem at_most_one_item_is_active (pathname : string) :
  length (active pathname) <= 1 /\
  forall item rest, In item navigation -> pathname = href item +:+ rest ->
                    active pathname = [item].
Proof.
  split.
  - destruct (active pathname) as [|item l] eqn:E; [cbn; lia|].
    assert (Hin : In item (active pathname)) by (rewrite E; left; reflexivity).
    apply List.filter_In in Hin as [Hnav Hactive].
    unfold isActive, startsWith in Hactive.
    rewrite (prefix_slice _ _ Hactive), (active_under item _ Hnav) in E.
    injection E as <-. cbn. lia.
  - intros item rest Hnav ->. apply active_under, Hnav.
Qed.

End NavigationFacts.

Module ChatPageMoreFacts.
Import ChatPage ChatPageFacts.

Lemma after_selected_some (data : list Repository) (picks : list (option Z)) :
  List.filter is_ready data <> [] ->
  exists r, selectedRepo (after data picks) = Some r.
Proof.
  intros Hne. induction picks as [|v picks (r & IH)] using rev_ind.
  - cbn. destruct (List.filter is_ready data) as [|r0 l]; [congruence|]. eauto.
  - rewrite after_snoc. destruct v as [v|]; cbn; [|eauto].
    destruct (List.find _ (repos (after data picks))) as [repo|]; cbn; eauto.
Qed.

(** X24: whatever is chosen in the selector, the page mounts the chat
    exactly when the server returned a repository whose status is
    'ready'; before any choice, the chat is for the first such repository
    in the server's order. *)
Theorem chat_is_mounted_iff_some_repository_is_ready
        (data : list Repository) (picks : list (option Z)) :
  ((exists props, render (after data picks) = Some props) <->
   (exists r, In r data /\ status r = "ready")) /\
  render (after data [])
  = option_map (fun r => mkProps (toString (id r)) (name r))
               (head (List.filter is_ready data)).
Proof.
  split; [|cbn; destruct (List.filter is_ready data); reflexivity].
  unfold render. rewrite after_repos. split.
  - intros (props & H).
    destruct (List.filter is_ready data) as [|r l] eqn:E; [discriminate|].
    assert (Hin : In r (List.filter is_ready data)) by (rewrite E; left; reflexivity).
    apply List.filter_In in Hin as [Hin Hr]. apply is_ready_spec in Hr. eauto.
  - intros (r & Hin & Hr).
    assert (Hne : List.filter is_ready data <> []).
    { intros E. assert (H : In r (List.filter is_ready data))
        by (apply List.filter_In; split; [exact Hin | apply is_ready_spec, Hr]).
      rewrite E in H. destruct H. }
    destruct (after_selected_some data picks Hne) as (r' & ->).
    destruct (List.filter is_ready data); [congruence|]. eauto.
Qed.

End ChatPageMoreFacts.

(** ** Facts about the bubble of a message *)

Module MessageBubbleFacts.
Import Js JsString JsStringFacts ChatInterface ChatInterfaceFacts ChatTurnFacts.

(** The citations a message is shown with: the items of its list. *)
Definition cited (h : Heap) (m : Message) : list Value :=
  match citations m with
  | Some l => default [] (arrays h !! l)
  | None => []
  end.

(** The two props a [FileReference] is given. *)
Definition reference (citation : Value) : Value * Value :=
  (field "file" citation, field "lines" citation).

Lemma get_field (v : Value) (p : string) :
  nullish v = false -> get v p = Normal (field p v).
Proof. unfold field. destruct v; try discriminate; reflexivity. Qed.

Lemma get_nullish (v : Value) (p : string) : nullish v = true -> get v p = Throw TypeError.
Proof. destruct v; try discriminate; reflexivity. Qed.

Lemma file_references_items (items : list Value) :
  file_references items
  = if existsb nullish items then Throw TypeError else Normal (map reference items).
Proof.
  induction items as [|c items IH]; [reflexivity|].
  cbn [file_references existsb map]. destruct (nullish c) eqn:E.
  - rewrite (get_nullish c "file" E). reflexivity.
  - rewrite (get_field c "file" E), (get_field c "lines" E). cbn [bind orb].
    rewrite IH. destruct (existsb nullish items); reflexivity.
Qed.

Lemma truthy_not_nullish (v : Value) : Js.truthy v = true -> nullish v = false.
Proof. destruct v; try discriminate; reflexivity. Qed.

Lemma MessageBubble_closed_form (h : Heap) (m : Message) :
  MessageBubble h m
  = if existsb nullish (cited h m) then Throw TypeError
    else Normal (EMessageContent (content m)
                   :: match cited h m with
                      | [] => []
                      | _ :: _ => [ECitations (map reference (cited h m))]
                      end
                   ++ if Js.truthy (risk m)
                      then [ERiskAnalysis (field "level" (risk m))
                                          (field "description" (risk m))]
                      else []).
Proof.
  assert (Hrisk : (if Js.truthy (risk m)
                   then let! level := get (risk m) "level" in
                        let! description := get (risk m) "description" in
                        Normal [ERiskAnalysis level description]
                   else Normal [])
                  = Normal (if Js.truthy (risk m)
                            then [ERiskAnalysis (field "level" (risk m))
                                                (field "description" (risk m))]
                            else [])).
  { destruct (Js.truthy (risk m)) eqn:E; [|reflexivity].
    rewrite !get_field by (apply truthy_not_nullish, E). reflexivity. }
  unfold MessageBubble, cited. rewrite Hrisk.
  destruct (citations m) as [l|]; [|reflexivity].
  destruct (arrays h !! l) as [[|c cs]|]; cbn [from_option id]; try reflexivity.
  rewrite file_references_items.
  destruct (existsb nullish (c :: cs)); reflexivity.
Qed.

(** X26: a message whose citation list holds an item that is null or
    undefined cannot be put on the page: making the elements of its
    bubble throws a TypeError, whatever its text and its risk are. *)
Theorem nullish_citation_breaks_MessageBubble (h : Heap) (m : Message) :
  Exists (fun c => nullish c = true) (cited h m) ->
  MessageBubble h m = Throw TypeError.
Proof.
  intros H. rewrite MessageBubble_closed_form.
  apply List.Exists_exists in H. apply existsb_exists in H.
  rewrite H. reflexivity.
Qed.

Section Stream.
Variable JSON_parse : string -> option Value.

Local Abbreviation handleSubmit := (handleSubmit JSON_parse).
Local Abbreviation received_before_sentinel := (received_before_sentinel JSON_parse).

(** X27: in a streamed turn whose sentinel, if any, is the last data
    line, a citation event whose citation is missing or null breaks the
    answer: the entry that the list of messages shows for it has no
    citation list, or its bubble fails to render. *)
Theorem malformed_citation_breaks_the_bubble
        (reads : list string) (ending : StreamEnd) (st : State) :
  truthy (trim (input st)) = true ->
  isLoading st = false ->
  sentinel_last (payloads (stream_text reads)) = true ->
  existsb (fun chunk => nullish (field "citation" chunk))
          (received_before_sentinel "citation" (stream_text reads)) = true ->
  exists l displayed,
    messages (handleSubmit (Response true (Some (reads, ending))) st)
      !! (length (messages st) + 1) = Some l /\
    objects (heap (handleSubmit (Response true (Some (reads, ending))) st))
      !! l = Some displayed /\
    (citations displayed = None \/
     MessageBubble (heap (handleSubmit (Response true (Some (reads, ending))) st))
                   displayed = Throw TypeError).
Proof.
  intros Hinput Hloading Hsentinel Hbad.
  destruct (handleSubmit_tracked JSON_parse reads ending st Hinput Hloading)
    as (stored & l & displayed & rest & more & _ & Hm & Hl & _ & Hcit & Hshare & _).
  exists l, displayed. split; [|split; [exact Hl|]].
  { rewrite Hm.
    change (messages st ++ length (objects (heap st)) :: l :: rest)
      with (messages st ++ [length (objects (heap st))] ++ l :: rest).
    rewrite app_assoc. apply list_lookup_middle. rewrite length_app. reflexivity. }
  destruct Hshare as [Hnone|Hsame]; [left; exact Hnone|].
  destruct (citations stored) as [c|] eqn:Ec; [|left; congruence]. right.
  rewrite (handled_whole reads Hsentinel) in Hcit.
  rewrite MessageBubble_closed_form. unfold cited. rewrite Hsame, Hcit. cbn [from_option id].
  unfold citations_of.
  fold (received_before_sentinel "citation" (stream_text reads)).
  assert (Hex : existsb nullish
                  (map (field "citation")
                       (received_before_sentinel "citation" (stream_text reads))) = true).
  { apply existsb_exists in Hbad as (chunk & Hin & Hc). apply existsb_exists.
    exists (field "citation" chunk). split; [apply in_map, Hin | exact Hc]. }
  rewrite Hex. reflexivity.
Qed.

(** X28: when the whole body arrives in one read, nothing after the
    sentinel is handled: two bodies with the same payloads before the
    sentinel leave the same state. *)
Theorem one_read_stops_at_the_sentinel
        (text1 text2 : string) (ending : StreamEnd) (st : State) :
  before_sentinel (payloads text1) = before_sentinel (payloads text2) ->
  handleSubmit (Response true (Some ([text1], ending))) st
  = handleSubmit (Response true (Some ([text2], ending))) st.
Proof.
  intros Hsame.
  destruct (truthy (trim (input st))) eqn:Hinput;
    [|unfold ChatInterface.handleSubmit; rewrite Hinput; reflexivity].
  destruct (isLoading st) eqn:Hloading;
    [unfold ChatInterface.handleSubmit; rewrite Hloading, orb_true_r; reflexivity|].
  rewrite !handleSubmit_run by assumption.
  cbn [handled]. rewrite !append_nil_l, !app_nil_r.
  change (omap payload (complete_lines text1)) with (payloads text1).
  change (omap payload (complete_lines text2)) with (payloads text2).
  rewrite Hsame. reflexivity.
Qed.

End Stream.

Import ChatExamples.

(** A citation event that carries no citation, before the last delta. *)
Definition empty_citation : list string :=
  [ data_line "{'type':'citation'}";
    data_line "{'type':'content','content':'add returns the sum'}" +:+ sentinel_line ].

Lemma malformed_citation_breaks_the_bubble_witness :
  exists l displayed,
    messages (turn empty_citation Done) !! 2 = Some l /\
    objects (heap (turn empty_citation Done)) !! l = Some displayed /\
    (citations displayed = None \/
     MessageBubble (heap (turn empty_citation Done)) displayed = Throw TypeError).
Proof.
  apply (malformed_citation_breaks_the_bubble Json.parse empty_citation Done
           (fresh_chat "What does add do?")); vm_compute; reflexivity.
Defined.

(** The bubble of that turn does fail. *)
Example empty_citation_is_not_rendered :
  rendered (turn empty_citation Done)
  = [ Some (Normal [EMessageContent "Welcome"]);
      Some (Normal [EMessageContent "What does add do?"]);
      Some (Throw TypeError) ].
Proof. vm_compute. reflexivity. Qed.

Lemma nullish_citation_breaks_MessageBubble_witness :
  MessageBubble (mkHeap [] [[VObject [("file", VString "src/math.ts")]; VNull]])
                (mkMessage assistant "add returns the sum" (Some 0)
                           (VObject [("level", VString "low")]))
  = Throw TypeError.
Proof.
  apply (nullish_citation_breaks_MessageBubble
           (mkHeap [] [[VObject [("file", VString "src/math.ts")]; VNull]])
           (mkMessage assistant "add returns the sum" (Some 0)
                      (VObject [("level", VString "low")]))).
  apply Exists_cons_tl, Exists_cons_hd. reflexivity.
Defined.

Lemma one_read_stops_at_the_sentinel_witness :
  turn [ data_line "{'type':'content','content':'add returns the sum'}" +:+ sentinel_line
         +:+ data_line "{'type':'content','content':' (after the end)'}" ] Done
  = turn [ data_line "{'type':'content','content':'add returns the sum'}" ] Done.
Proof.
  apply (one_read_stops_at_the_sentinel Json.parse _ _ Done (fresh_chat "What does add do?")).
  vm_compute. reflexivity.
Defined.

End MessageBubbleFacts.

(** ** The answer while it is streamed *)

Module ChatProgressFacts.
Import Js JsString JsStringFacts ChatInterface ChatInterfaceFacts ChatTurnFacts.

(** The buffer after some reads. *)
Fixpoint buffer_after (reads : list string) (buffer : string) : string :=
  match reads with
  | [] => buffer
  | value :: later => buffer_after later (pending (buffer +:+ value))
  end.

Lemma handled_app (reads1 reads2 : list string) (buffer : string) :
  handled (reads1 ++ reads2) buffer
  = handled reads1 buffer ++ handled reads2 (buffer_after reads1 buffer).
Proof.
  revert buffer. induction reads1 as [|v reads1 IH]; intros buffer; [reflexivity|].
  cbn [app handled buffer_after]. rewrite IH, app_assoc. reflexivity.
Qed.

Section Stream.
Variable JSON_parse : string -> option Value.

Local Abbreviation handleSubmit := (handleSubmit JSON_parse).
Local Abbreviation run := (run JSON_parse).

Lemma prepared_shown (st : State) :
  shown (length (objects (heap st)) + 1)
        (messages st ++ [length (objects (heap st))])
        (prepared st) (mkMessage assistant EmptyString None VUndefined).
Proof.
  assert (H : objects (heap (prepared st)) !! (length (objects (heap st)) + 1)
              = Some (mkMessage assistant EmptyString None VUndefined)).
  { cbn [prepared heap objects]. apply list_lookup_middle.
    rewrite length_app. reflexivity. }
  split; [exact H|]. eexists _, _. split; [reflexivity|]. split; [exact H|]. auto.
Qed.

Lemma finish_shown (a : loc) (pre : list loc) (s : State) (m : Message)
      (ending : StreamEnd) :
  shown a pre s m ->
  exists l m',
    messages (finish ending s) !! length pre = Some l /\
    objects (heap (finish ending s)) !! l = Some m' /\
    content m' = content m.
Proof.
  intros (_ & l & m' & Hm & Hl & Hc & _). exists l, m'.
  destruct ending as [|e]; cbn [finish messages heap objects]; rewrite Hm.
  - split; [apply list_lookup_middle; reflexivity|]. auto.
  - split.
    { rewrite lookup_app_l by (rewrite length_app; cbn; lia).
      apply list_lookup_middle; reflexivity. }
    split; [|exact Hc].
    rewrite lookup_app_l by (eapply lookup_lt_Some; exact Hl). exact Hl.
Qed.

(** X29: the answer on show only grows while it is streamed: the text
    shown for a body that goes on after some reads starts with the text
    shown for the body that ends there, however either one ends. *)
Theorem truncated_stream_shows_a_prefix
        (reads1 reads2 : list string) (ending1 ending2 : StreamEnd) (st : State) :
  truthy (trim (input st)) = true ->
  isLoading st = false ->
  exists l1 shown1 l2 shown2 more,
    messages (handleSubmit (Response true (Some (reads1, ending1))) st)
      !! (length (messages st) + 1) = Some l1 /\
    objects (heap (handleSubmit (Response true (Some (reads1, ending1))) st))
      !! l1 = Some shown1 /\
    messages (handleSubmit (Response true (Some (reads1 ++ reads2, ending2))) st)
      !! (length (messages st) + 1) = Some l2 /\
    objects (heap (handleSubmit (Response true (Some (reads1 ++ reads2, ending2))) st))
      !! l2 = Some shown2 /\
    content shown2 = content shown1 +:+ more.
Proof.
  intros Hinput Hloading.
  rewrite !(handleSubmit_run JSON_parse) by assumption.
  rewrite handled_app. unfold ChatInterfaceFacts.run. rewrite fold_left_app.
  fold (run (length (objects (heap st)) + 1) (handled reads1 EmptyString) (prepared st)).
  set (s1 := run _ (handled reads1 EmptyString) (prepared st)).
  fold (run (length (objects (heap st)) + 1)
            (handled reads2 (buffer_after reads1 EmptyString)) s1).
  destruct (run_shown JSON_parse _ _ (handled reads1 EmptyString) _ _ (prepared_shown st))
    as (m1 & H1 & _). fold run in H1. fold s1 in H1.
  destruct (run_shown JSON_parse _ _ (handled reads2 (buffer_after reads1 EmptyString))
              _ _ H1) as (m2 & H2 & Hcontent & _). fold run in H2.
  destruct (finish_shown _ _ _ _ ending1 H1) as (l1 & shown1 & Hl1 & Ho1 & Hc1).
  destruct (finish_shown _ _ _ _ ending2 H2) as (l2 & shown2 & Hl2 & Ho2 & Hc2).
  assert (Hlen : length (messages st ++ [length (objects (heap st))])
                 = length (messages st) + 1) by (rewrite length_app; reflexivity).
  rewrite Hlen in Hl1, Hl2.
  exists l1, shown1, l2, shown2. eexists.
  repeat (split; [eassumption|]). rewrite Hc2, Hc1. exact Hcontent.
Qed.

End Stream.

Import ChatExamples.

Lemma truncated_stream_shows_a_prefix_witness :
  exists l1 shown1 l2 shown2 more,
    messages (turn [data_line "{'type':'content','content':'add returns '}"]
                   (ReadFails TypeError)) !! 2 = Some l1 /\
    objects (heap (turn [data_line "{'type':'content','content':'add returns '}"]
                        (ReadFails TypeError))) !! l1 = Some shown1 /\
    messages (turn ([data_line "{'type':'content','content':'add returns '}"]
                      ++ [data_line "{'type':'content','content':'the sum'}"])
                   Done) !! 2 = Some l2 /\
    objects (heap (turn ([data_line "{'type':'content','content':'add returns '}"]
                           ++ [data_line "{'type':'content','content':'the sum'}"])
                        Done)) !! l2 = Some shown2 /\
    content shown2 = content shown1 +:+ more.
Proof.
  apply (truncated_stream_shows_a_prefix
           Json.parse
           [data_line "{'type':'content','content':'add returns '}"]
           [data_line "{'type':'content','content':'the sum'}"]
           (ReadFails TypeError) Done (fresh_chat "What does add do?"));
    vm_compute; reflexivity.
Defined.

End ChatProgressFacts.
